(** * Saveload of the AI configuration (chunk AIPL)

    A shallow embedding of [src/saveload/ai_sl.cpp]: the staging globals, the
    descriptor tables [_ai_company_desc] and [_ai_running_desc], the routine
    [SaveReal_AIPL] and the chunk handler [AIPLChunkHandler] with its [Load]
    and [Save].  The saveload engine the handler calls ([SlObject],
    [SlCompatTableHeader], [SlIterateArray], ...) and the script
    configuration class are declared in headers that are not part of this
    file; they are modelled here from the specification of the engine. *)

From Stdlib Require Import ZArith Lia List Sorted Strings.String Strings.Byte.
From stdpp Require Import base strings list gmap.

Open Scope Z_scope.

(** ** Results and byte primitives *)

(** A fatal condition is the corrupt-data error raised by [SlErrorCorrupt];
    it carries the message given at the place that raises it. *)
Inductive SlResult (A : Type) : Type :=
| SlOk (a : A)
| SlErrorCorrupt (msg : string).
Arguments SlOk {A} a.
Arguments SlErrorCorrupt {A} msg.

Definition byte_of_Z (z : Z) : byte :=
  default "000"%byte (Byte.of_N (Z.to_N (z mod 256))).

Definition Z_of_byte (b : byte) : Z := Z.of_N (Byte.to_N b).

(** Modelled from the spec: the primitive writer of the engine is missing;
    fixed-width integers are written in a canonical byte order, here the
    most significant byte first, [w] bytes holding [z] modulo [256 ^ w]. *)
Fixpoint SlWriteUint (w : nat) (z : Z) : list byte :=
  match w with
  | O => []
  | S k => byte_of_Z (z / 256 ^ Z.of_nat k) :: SlWriteUint k z
  end.

Fixpoint SlReadUintAcc (w : nat) (acc : Z) (s : list byte)
  : SlResult (Z * list byte) :=
  match w with
  | O => SlOk (acc, s)
  | S k =>
      match s with
      | [] => SlErrorCorrupt "read past the declared length"
      | b :: s' => SlReadUintAcc k (acc * 256 + Z_of_byte b) s'
      end
  end.

(** Modelled from the spec: the primitive reader of the engine is missing; a
    primitive read that runs past the declared byte length is corrupt-data. *)
Definition SlReadUint (w : nat) (s : list byte) : SlResult (Z * list byte) :=
  SlReadUintAcc w 0 s.

(** The value of a [w]-byte pattern [u] read as a two's complement number. *)
Definition to_signed (w : nat) (u : Z) : Z :=
  let m := 256 ^ Z.of_nat w in
  if 2 * (u mod m) <? m then u mod m else u mod m - m.

(** ** Primitive types of a descriptor *)

Inductive VarType : Type :=
| SLE_BOOL
| SLE_INT8 | SLE_UINT8
| SLE_INT16 | SLE_UINT16
| SLE_INT32 | SLE_UINT32
| SLE_INT64 | SLE_UINT64
| SLE_STR.

Global Instance VarType_eq_dec : EqDecision VarType.
Proof. solve_decision. Defined.

(** The type of the variable a descriptor of each primitive type refers to:
    [bool], an integer, or a [std::string]. *)
Definition VarOf (t : VarType) : Type :=
  match t with
  | SLE_BOOL => bool
  | SLE_STR => string
  | _ => Z
  end.

Definition SlCalcConvFileLen (t : VarType) : nat :=
  match t with
  | SLE_BOOL | SLE_INT8 | SLE_UINT8 => 1
  | SLE_INT16 | SLE_UINT16 => 2
  | SLE_INT32 | SLE_UINT32 => 4
  | SLE_INT64 | SLE_UINT64 => 8
  | SLE_STR => 0
  end%nat.

(** The one-byte type tag a table header records for a field. *)
Definition type_tag (t : VarType) : Z :=
  match t with
  | SLE_BOOL => 0
  | SLE_INT8 => 1 | SLE_UINT8 => 2
  | SLE_INT16 => 3 | SLE_UINT16 => 4
  | SLE_INT32 => 5 | SLE_UINT32 => 6
  | SLE_INT64 => 7 | SLE_UINT64 => 8
  | SLE_STR => 9
  end.

Definition VarType_of_tag (z : Z) : option VarType :=
  match z with
  | 0 => Some SLE_BOOL
  | 1 => Some SLE_INT8 | 2 => Some SLE_UINT8
  | 3 => Some SLE_INT16 | 4 => Some SLE_UINT16
  | 5 => Some SLE_INT32 | 6 => Some SLE_UINT32
  | 7 => Some SLE_INT64 | 8 => Some SLE_UINT64
  | 9 => Some SLE_STR
  | _ => None
  end.

(** Width of the length prefix of a string. *)
Definition SL_LEN_BYTES : nat := 4.

(** Modelled from the spec: the string writer of the engine is missing;
    strings are length-prefixed byte sequences bounded by a maximum
    configured length [max_len], and a string over the bound is
    corrupt-data. *)
Definition SlWriteString (max_len : Z) (s : string) : SlResult (list byte) :=
  let body := list_byte_of_string s in
  if Z.of_nat (length body) <=? max_len
  then SlOk (SlWriteUint SL_LEN_BYTES (Z.of_nat (length body)) ++ body)
  else SlErrorCorrupt "string too long".

(** Modelled from the spec: the string reader of the engine is missing; it
    reads the length, rejects one over [max_len] and one the stream cannot
    hold, and takes that many bytes. *)
Definition SlReadString (max_len : Z) (s : list byte)
  : SlResult (string * list byte) :=
  match SlReadUint SL_LEN_BYTES s with
  | SlErrorCorrupt m => SlErrorCorrupt m
  | SlOk (n, s') =>
      if max_len <? n then SlErrorCorrupt "string too long"
      else if Z.of_nat (length s') <? n
           then SlErrorCorrupt "read past the declared length"
           else SlOk (string_of_list_byte (take (Z.to_nat n) s'),
                      drop (Z.to_nat n) s')
  end.

(** Modelled from the spec: the dispatch of the engine on the primitive
    type is missing; booleans occupy one byte, integers their fixed width,
    strings a length prefix and their bytes. *)
Definition SlWriteValue (max_len : Z) (t : VarType)
  : VarOf t -> SlResult (list byte) :=
  match t return VarOf t -> SlResult (list byte) with
  | SLE_BOOL => fun b => SlOk (SlWriteUint 1 (if b then 1 else 0))
  | SLE_STR => fun s => SlWriteString max_len s
  | SLE_INT8 => fun z => SlOk (SlWriteUint 1 z)
  | SLE_UINT8 => fun z => SlOk (SlWriteUint 1 z)
  | SLE_INT16 => fun z => SlOk (SlWriteUint 2 z)
  | SLE_UINT16 => fun z => SlOk (SlWriteUint 2 z)
  | SLE_INT32 => fun z => SlOk (SlWriteUint 4 z)
  | SLE_UINT32 => fun z => SlOk (SlWriteUint 4 z)
  | SLE_INT64 => fun z => SlOk (SlWriteUint 8 z)
  | SLE_UINT64 => fun z => SlOk (SlWriteUint 8 z)
  end.

Definition SlReadInt (signed : bool) (w : nat) (s : list byte)
  : SlResult (Z * list byte) :=
  match SlReadUint w s with
  | SlErrorCorrupt m => SlErrorCorrupt m
  | SlOk (u, s') => SlOk (if signed then to_signed w u else u, s')
  end.

Definition SlReadBool (s : list byte) : SlResult (bool * list byte) :=
  match SlReadUint 1 s with
  | SlErrorCorrupt m => SlErrorCorrupt m
  | SlOk (u, s') =>
      if u =? 0 then SlOk (false, s')
      else if u =? 1 then SlOk (true, s')
      else SlErrorCorrupt "invalid boolean"
  end.

Definition SlReadValue (max_len : Z) (t : VarType) (s : list byte)
  : SlResult (VarOf t * list byte) :=
  match t return SlResult (VarOf t * list byte) with
  | SLE_BOOL => SlReadBool s
  | SLE_STR => SlReadString max_len s
  | SLE_INT8 => SlReadInt true 1 s
  | SLE_UINT8 => SlReadInt false 1 s
  | SLE_INT16 => SlReadInt true 2 s
  | SLE_UINT16 => SlReadInt false 2 s
  | SLE_INT32 => SlReadInt true 4 s
  | SLE_UINT32 => SlReadInt false 4 s
  | SLE_INT64 => SlReadInt true 8 s
  | SLE_UINT64 => SlReadInt false 8 s
  end.


(** ** Field descriptors and the record engine *)

(** The storage location of a descriptor: the variable it reads on save and
    overwrites on load, as a typed accessor on the record. *)
Record VarLens (Rec T : Type) : Type := mkVarLens {
  var_get : Rec -> T;
  var_set : T -> Rec -> Rec
}.
Arguments mkVarLens {Rec T} var_get var_set.
Arguments var_get {Rec T} _ _.
Arguments var_set {Rec T} _ _ _.

Record SaveLoad (Rec : Type) : Type := mkSaveLoad {
  name : string;
  conv : VarType;
  address : VarLens Rec (VarOf conv);
  version_from : Z;
  version_to : Z
}.
Arguments mkSaveLoad {Rec} name conv address version_from version_to.
Arguments name {Rec} _.
Arguments conv {Rec} _.
Arguments address {Rec} _.
Arguments version_from {Rec} _.
Arguments version_to {Rec} _.

Definition SL_MIN_VERSION : Z := 0.
Definition SLV_108 : Z := 108.
Definition SLV_136 : Z := 136.

(** Modelled from the spec: the gating test of the engine is missing; a
    field is active iff [validFrom <= activeVersion <= validUntil]. *)
Definition SlIsObjectValidInSavegame {Rec} (v : Z) (sld : SaveLoad Rec) : bool :=
  (version_from sld <=? v) && (v <=? version_to sld).

Definition default_value (t : VarType) : VarOf t :=
  match t return VarOf t with
  | SLE_BOOL => false
  | SLE_STR => EmptyString
  | _ => 0
  end.

(** The placeholder of a removed field: it reads the bytes of its encoding
    and stores them nowhere. *)
Definition SL_NULL {Rec} (max_version : Z) (n : string) (t : VarType)
  : SaveLoad Rec :=
  mkSaveLoad n t (mkVarLens (fun _ => default_value t) (fun _ r => r))
             SL_MIN_VERSION max_version.

Section RecordEngine.
Context {Rec : Type}.
Variable max_len : Z.
Variable v : Z.

Definition SlObjectMember_save (r : Rec) (sld : SaveLoad Rec)
  : SlResult (list byte) :=
  if SlIsObjectValidInSavegame v sld
  then SlWriteValue max_len (conv sld) (var_get (address sld) r)
  else SlOk [].

(** Modelled from the spec: [SlObject] is missing; in save direction it
    transcodes, in declared order, each descriptor whose range contains
    the active version, and skips the others. *)
Fixpoint SlObject_save (slt : list (SaveLoad Rec)) (r : Rec)
  : SlResult (list byte) :=
  match slt with
  | [] => SlOk []
  | sld :: slt' =>
      match SlObjectMember_save r sld with
      | SlErrorCorrupt m => SlErrorCorrupt m
      | SlOk bs =>
          match SlObject_save slt' r with
          | SlErrorCorrupt m => SlErrorCorrupt m
          | SlOk bs' => SlOk (bs ++ bs')
          end
      end
  end.

(** Modelled from the spec: [SlObject] is missing; in load direction the
    backing variable of each active descriptor is overwritten with the
    value read.  The record is returned as it stands also when a read
    fails: the variables written before the failure keep what they got. *)
Fixpoint SlObject_load (slt : list (SaveLoad Rec)) (r : Rec) (s : list byte)
  : Rec * SlResult (list byte) :=
  match slt with
  | [] => (r, SlOk s)
  | sld :: slt' =>
      if SlIsObjectValidInSavegame v sld
      then match SlReadValue max_len (conv sld) s with
           | SlErrorCorrupt m => (r, SlErrorCorrupt m)
           | SlOk (x, s') => SlObject_load slt' (var_set (address sld) x r) s'
           end
      else SlObject_load slt' r s
  end.
End RecordEngine.

(** ** Table headers and the compatibility resolver *)

Definition SlWriteHeaderEntry {Rec} (max_len : Z) (sld : SaveLoad Rec)
  : SlResult (list byte) :=
  match SlWriteString max_len (name sld) with
  | SlErrorCorrupt m => SlErrorCorrupt m
  | SlOk bs => SlOk (bs ++ SlWriteUint 1 (type_tag (conv sld)))
  end.

Fixpoint SlWriteHeaderEntries {Rec} (max_len : Z) (slt : list (SaveLoad Rec))
  : SlResult (list byte) :=
  match slt with
  | [] => SlOk []
  | sld :: slt' =>
      match SlWriteHeaderEntry max_len sld with
      | SlErrorCorrupt m => SlErrorCorrupt m
      | SlOk bs =>
          match SlWriteHeaderEntries max_len slt' with
          | SlErrorCorrupt m => SlErrorCorrupt m
          | SlOk bs' => SlOk (bs ++ bs')
          end
      end
  end.

(** Modelled from the spec: [SlTableHeader] is missing; it emits the
    descriptor table as a header, the field count and for each field its
    name (length, bytes) and its type tag. *)
Definition SlTableHeader {Rec} (max_len : Z) (slt : list (SaveLoad Rec))
  : SlResult (list byte) :=
  match SlWriteHeaderEntries max_len slt with
  | SlErrorCorrupt m => SlErrorCorrupt m
  | SlOk bs => SlOk (SlWriteUint 4 (Z.of_nat (length slt)) ++ bs)
  end.

Fixpoint SlReadHeaderEntries (max_len : Z) (n : nat) (s : list byte)
  : SlResult (list (string * VarType) * list byte) :=
  match n with
  | O => SlOk ([], s)
  | S n' =>
      match SlReadString max_len s with
      | SlErrorCorrupt m => SlErrorCorrupt m
      | SlOk (nm, s1) =>
          match SlReadUint 1 s1 with
          | SlErrorCorrupt m => SlErrorCorrupt m
          | SlOk (tag, s2) =>
              match VarType_of_tag tag with
              | None => SlErrorCorrupt "unknown field type"
              | Some t =>
                  match SlReadHeaderEntries max_len n' s2 with
                  | SlErrorCorrupt m => SlErrorCorrupt m
                  | SlOk (es, s3) => SlOk ((nm, t) :: es, s3)
                  end
              end
          end
      end
  end.

Definition SlReadTableHeader (max_len : Z) (s : list byte)
  : SlResult (list (string * VarType) * list byte) :=
  match SlReadUint 4 s with
  | SlErrorCorrupt m => SlErrorCorrupt m
  | SlOk (n, s') =>
      if Z.of_nat (length s') <? n
      then SlErrorCorrupt "read past the declared length"
      else SlReadHeaderEntries max_len (Z.to_nat n) s'
  end.

Definition SlFindField {Rec} (slt : list (SaveLoad Rec)) (n : string)
  : option (SaveLoad Rec) :=
  find (fun sld => bool_decide (name sld = n)) slt.

(** One name of a loaded header: the current descriptor of that name, else
    the placeholder when the compatibility history knows the name, else
    corrupt-data. *)
Definition SlResolveField {Rec} (max_version : Z) (slt : list (SaveLoad Rec))
    (slct : list string) (e : string * VarType) : SlResult (SaveLoad Rec) :=
  match SlFindField slt (fst e) with
  | Some sld => SlOk sld
  | None =>
      if bool_decide (fst e ∈ slct)
      then SlOk (SL_NULL max_version (fst e) (snd e))
      else SlErrorCorrupt "Field not found"
  end.

Fixpoint SlResolveTableHeader {Rec} (max_version : Z)
    (slt : list (SaveLoad Rec)) (slct : list string)
    (hdr : list (string * VarType)) : SlResult (list (SaveLoad Rec)) :=
  match hdr with
  | [] => SlOk []
  | e :: hdr' =>
      match SlResolveField max_version slt slct e with
      | SlErrorCorrupt m => SlErrorCorrupt m
      | SlOk sld =>
          match SlResolveTableHeader max_version slt slct hdr' with
          | SlErrorCorrupt m => SlErrorCorrupt m
          | SlOk tbl => SlOk (sld :: tbl)
          end
      end
  end.

(** Modelled from the spec: [SlCompatTableHeader] is missing; on load it
    reads the header the save recorded and resolves each listed name
    against the current table and the compatibility history. *)
Definition SlCompatTableHeader {Rec} (max_len max_version : Z)
    (slt : list (SaveLoad Rec)) (slct : list string) (s : list byte)
  : SlResult (list (SaveLoad Rec) * list byte) :=
  match SlReadTableHeader max_len s with
  | SlErrorCorrupt m => SlErrorCorrupt m
  | SlOk (hdr, s') =>
      match SlResolveTableHeader max_version slt slct hdr with
      | SlErrorCorrupt m => SlErrorCorrupt m
      | SlOk tbl => SlOk (tbl, s')
      end
  end.

(** ** Arrays of length-prefixed records *)

(** The bit pattern of the index that ends an array: [-1]. *)
Definition SL_ARRAY_END : Z := 4294967295.

(** Modelled from the spec: [SlSetArrayIndex] is missing; it emits the
    index of the record that follows. *)
Definition SlSetArrayIndex (index : Z) : list byte := SlWriteUint 4 index.

(** Modelled from the spec: [SlAutolength] is missing; it emits the byte
    length of the body its procedure writes, then the body. *)
Definition SlAutolength (body : list byte) : list byte :=
  SlWriteUint 4 (Z.of_nat (length body)) ++ body.

(** Modelled from the spec: [SlIterateArray] is missing; it reads an
    index, answers [-1] at the reserved sentinel, and otherwise opens the
    record of the declared length: the result is the index, the bytes of
    the record and the stream after it. *)
Definition SlIterateArray (s : list byte)
  : SlResult (Z * list byte * list byte) :=
  match SlReadUint 4 s with
  | SlErrorCorrupt m => SlErrorCorrupt m
  | SlOk (i, s1) =>
      if i =? SL_ARRAY_END then SlOk (-1, [], s1)
      else match SlReadUint 4 s1 with
           | SlErrorCorrupt m => SlErrorCorrupt m
           | SlOk (len, s2) =>
               if Z.of_nat (length s2) <? len
               then SlErrorCorrupt "read past the declared length"
               else SlOk (i, take (Z.to_nat len) s2, drop (Z.to_nat len) s2)
           end
  end.

(** ** The script configuration and the world the handler works on *)

Record ScriptInfo : Type := mkScriptInfo {
  info_name : string;
  info_version : Z
}.

(** What the handler takes from outside this file: constants of the build,
    the compatibility table of the chunk, the registry of the scripts
    available, and the save and load routines of a script instance.  The
    type [CompanyID] is declared outside this file as well: it is taken as
    an unsigned integer of [CompanyID_size] bytes, and [MAX_COMPANIES],
    which lines 83, 89 and 163 compare a [CompanyID] with, as one of its
    values. *)
Class Externals : Type := mkExternals {
  CompanyID_size : nat;
  MAX_COMPANIES : Z;
  MAX_COMPANIES_fits :
    (0 <=? MAX_COMPANIES) && (MAX_COMPANIES <? 256 ^ Z.of_nat CompanyID_size)
    = true;
  SLV_AI_LOCAL_CONFIG : Z;
  SL_MAX_VERSION : Z;
  SL_MAX_STRING : Z;
  _ai_company_sl_compat : list string;
  FindInfo : string -> Z -> bool -> option ScriptInfo;
  AIInstance_Load : Z -> list byte -> SlResult (option (list byte) * list byte);
  AIInstance_LoadEmpty : list byte -> SlResult (list byte);
  AI_Save : Z -> list byte
}.

Record AIConfig : Type := mkAIConfig {
  cfg_name : string;
  cfg_version : Z;
  cfg_info : option ScriptInfo;
  cfg_settings : string;
  cfg_to_load_data : option (list byte)
}.

(** A configuration as [std::make_unique<AIConfig>()] builds it. *)
Definition new_AIConfig : AIConfig := mkAIConfig "" (-1) None "" None.

(** Modelled from the spec: the class of the configuration is missing; a
    slot has a script when the registry gave it one, and its name and
    version are the ones it was configured with. *)
Definition HasScript (c : AIConfig) : bool :=
  match cfg_info c with Some _ => true | None => false end.

Definition GetName (c : AIConfig) : string := cfg_name c.
Definition GetVersion (c : AIConfig) : Z := cfg_version c.

(** Modelled from the spec: the class of the configuration is missing; the
    settings are an opaque string-encoded blob the engine copies verbatim. *)
Definition SettingsToString (c : AIConfig) : string := cfg_settings c.

Definition StringToSettings (s : string) (c : AIConfig) : AIConfig :=
  mkAIConfig (cfg_name c) (cfg_version c) (cfg_info c) s (cfg_to_load_data c).

Definition SetToLoadData (d : option (list byte)) (c : AIConfig) : AIConfig :=
  mkAIConfig (cfg_name c) (cfg_version c) (cfg_info c) (cfg_settings c) d.

(** Modelled from the spec: the class of the configuration is missing;
    [Change] with no name clears the slot, and with a name it selects the
    script the registry has for that name and version ([-1] asks for the
    latest version of the name), leaving the slot without a script when
    the registry has none. *)
Definition Change `{Externals} (n : option string) (version : Z)
    (force_exact_match : bool) (c : AIConfig) : AIConfig :=
  let info := match n with
              | Some nm => FindInfo nm version force_exact_match
              | None => None
              end in
  mkAIConfig (default EmptyString n)
             (match info with Some i => info_version i | None => -1 end)
             info EmptyString None.

Inductive GameMode : Type := GM_MENU | GM_NORMAL | GM_EDITOR | GM_BOOTSTRAP.

Global Instance GameMode_eq_dec : EqDecision GameMode.
Proof. solve_decision. Defined.

Record Company : Type := mkCompany {
  is_ai : bool;
  ai_config : option AIConfig
}.

(** The lines the handler writes with [Debug(script, 0, ...)], and the calls
    it makes into the script instance. *)
Inductive Event : Type :=
| DebugNoLongerAvailable (n : string) (version : Z)
| DebugSwitchedToRandom
| DebugLatestConfigured
| DebugRandomOtherLoaded
| DebugNoAIsAtSaving
| DebugRandomAvailableLoaded
| DebugLatestLoadedIncompatible
| CallLoadEmpty
| CallLoad (version : Z).

Definition is_debug (e : Event) : bool :=
  match e with
  | CallLoadEmpty | CallLoad _ => false
  | _ => true
  end.

(** The staging variables of the file. *)
Record Globals : Type := mkGlobals {
  _ai_saveload_name : string;
  _ai_saveload_version : Z;
  _ai_saveload_settings : string;
  _ai_saveload_is_random : bool
}.

Definition set_name (x : string) (g : Globals) : Globals :=
  mkGlobals x (_ai_saveload_version g) (_ai_saveload_settings g)
            (_ai_saveload_is_random g).

(** [_ai_saveload_version] is an [int]: the four bytes stored through a
    descriptor of type [SLE_UINT32] are read back as a signed number. *)
Definition set_version (x : Z) (g : Globals) : Globals :=
  mkGlobals (_ai_saveload_name g) (to_signed 4 x) (_ai_saveload_settings g)
            (_ai_saveload_is_random g).

Definition set_settings (x : string) (g : Globals) : Globals :=
  mkGlobals (_ai_saveload_name g) (_ai_saveload_version g) x
            (_ai_saveload_is_random g).

Definition set_is_random (x : bool) (g : Globals) : Globals :=
  mkGlobals (_ai_saveload_name g) (_ai_saveload_version g)
            (_ai_saveload_settings g) x.

Definition ref_name : VarLens Globals string :=
  mkVarLens _ai_saveload_name set_name.
Definition ref_version : VarLens Globals Z :=
  mkVarLens _ai_saveload_version set_version.
Definition ref_settings : VarLens Globals string :=
  mkVarLens _ai_saveload_settings set_settings.
Definition ref_is_random : VarLens Globals bool :=
  mkVarLens _ai_saveload_is_random set_is_random.

Definition SLEG_CONDVAR {Rec} (n : string) (t : VarType)
    (var : VarLens Rec (VarOf t)) (from to : Z) : SaveLoad Rec :=
  mkSaveLoad n t var from to.

Definition SLEG_CONDSSTR {Rec} (n : string) (var : VarLens Rec string)
    (from to : Z) : SaveLoad Rec :=
  mkSaveLoad n SLE_STR var from to.

Definition SLEG_SSTR `{Externals} {Rec} (n : string)
    (var : VarLens Rec string) : SaveLoad Rec :=
  SLEG_CONDSSTR n var SL_MIN_VERSION SL_MAX_VERSION.

Definition _ai_company_desc `{Externals} : list (SaveLoad Globals) :=
  [ SLEG_SSTR "name" ref_name;
    SLEG_SSTR "settings" ref_settings;
    SLEG_CONDVAR "version" SLE_UINT32 ref_version SLV_108 SL_MAX_VERSION;
    SLEG_CONDVAR "is_random" SLE_BOOL ref_is_random SLV_136 SLV_AI_LOCAL_CONFIG ].

Definition _ai_running_desc `{Externals} : list (SaveLoad Globals) :=
  [ SLEG_CONDSSTR "running_name" ref_name SLV_AI_LOCAL_CONFIG SL_MAX_VERSION;
    SLEG_CONDSSTR "running_settings" ref_settings SLV_AI_LOCAL_CONFIG SL_MAX_VERSION;
    SLEG_CONDVAR "running_version" SLE_UINT32 ref_version SLV_AI_LOCAL_CONFIG SL_MAX_VERSION ].

Record World : Type := mkWorld {
  globals : Globals;
  _sl_version : Z;
  _game_mode : GameMode;
  _networking : bool;
  _network_server : bool;
  game_ai_config : gmap Z AIConfig;
  companies : gmap Z Company;
  events : list Event
}.

Definition with_globals (g : Globals) (w : World) : World :=
  mkWorld g (_sl_version w) (_game_mode w) (_networking w) (_network_server w)
          (game_ai_config w) (companies w) (events w).

Definition with_game_ai_config (m : gmap Z AIConfig) (w : World) : World :=
  mkWorld (globals w) (_sl_version w) (_game_mode w) (_networking w)
          (_network_server w) m (companies w) (events w).

Definition with_companies (m : gmap Z Company) (w : World) : World :=
  mkWorld (globals w) (_sl_version w) (_game_mode w) (_networking w)
          (_network_server w) (game_ai_config w) m (events w).

Definition emit (es : list Event) (w : World) : World :=
  mkWorld (globals w) (_sl_version w) (_game_mode w) (_networking w)
          (_network_server w) (game_ai_config w) (companies w) (events w ++ es).

(** [AIConfig::GetConfig(index, AIConfig::SSS_FORCE_GAME)]: the slot of the
    company in the game settings, a fresh configuration when it is empty. *)
Definition GetConfig_FORCE_GAME (w : World) (index : Z) : AIConfig :=
  default new_AIConfig (game_ai_config w !! index).

(** Modelled from the spec: the pool of companies is missing; an index is
    a valid AI when a company of that index exists and is run by an AI. *)
Definition IsValidAiID (w : World) (index : Z) : bool :=
  match companies w !! index with
  | Some c => is_ai c
  | None => false
  end.

(** [AIConfig::GetConfig(index)] for a company that is a valid AI: the
    configuration the company owns, a fresh one when it owns none. *)
Definition GetConfig (w : World) (index : Z) : AIConfig :=
  match companies w !! index with
  | Some c => default new_AIConfig (ai_config c)
  | None => GetConfig_FORCE_GAME w index
  end.

(** The configuration a company owns, as [Load] replaces it. *)
Definition set_cfg (k : Z) (c : AIConfig) (m : gmap Z Company)
  : gmap Z Company :=
  match m !! k with
  | Some co => <[k := mkCompany (is_ai co) (Some c)]> m
  | None => m
  end.

(** [Company::Get(index)->ai_config = ...]. *)
Definition set_company_ai_config (index : Z) (c : AIConfig) (w : World)
  : World :=
  with_companies (set_cfg index c (companies w)) w.

(** ** The chunk handler *)

Section AIPL.
Context `{Externals}.

Definition SlObject_globals_load (slt : list (SaveLoad Globals)) (w : World)
    (s : list byte) : World * SlResult (list byte) :=
  let '(g, r) := SlObject_load SL_MAX_STRING (_sl_version w) slt (globals w) s in
  (with_globals g w, r).

Definition SlObject_globals_save (slt : list (SaveLoad Globals)) (w : World)
  : SlResult (list byte) :=
  SlObject_save SL_MAX_STRING (_sl_version w) slt (globals w).

Definition SaveReal_AIPL (index : Z) (w : World)
  : World * SlResult (list byte) :=
  let config := GetConfig_FORCE_GAME w index in
  let g := globals w in
  let g := if HasScript config
           then set_version (GetVersion config) (set_name (GetName config) g)
           else set_version (-1) (set_name EmptyString g) in
  let g := set_settings (SettingsToString config) g in
  let w := with_globals g w in
  match SlObject_globals_save _ai_company_desc w with
  | SlErrorCorrupt m => (w, SlErrorCorrupt m)
  | SlOk bs1 =>
      if negb (IsValidAiID w index) then (w, SlOk bs1)
      else
        (* If the AI was active, store its data too *)
        let config := GetConfig w index in
        let g := set_name (GetName config) (globals w) in
        let g := set_version (GetVersion config) g in
        let g := set_settings (SettingsToString config) g in
        let w := with_globals g w in
        match SlObject_globals_save _ai_running_desc w with
        | SlErrorCorrupt m => (w, SlErrorCorrupt m)
        | SlOk bs2 => (w, SlOk (bs1 ++ bs2 ++ AI_Save index))
        end
  end.

(** The body of the loop of [Save], from company [i] on, [n] companies
    to go. *)
Fixpoint AIPL_Save_loop (n : nat) (i : Z) (w : World)
  : World * SlResult (list byte) :=
  match n with
  | O => (w, SlOk [])
  | S n' =>
      match SaveReal_AIPL i w with
      | (w1, SlErrorCorrupt m) => (w1, SlErrorCorrupt m)
      | (w1, SlOk body) =>
          match AIPL_Save_loop n' (i + 1) w1 with
          | (w2, SlErrorCorrupt m) => (w2, SlErrorCorrupt m)
          | (w2, SlOk bs) =>
              (w2, SlOk (SlSetArrayIndex i ++ SlAutolength body ++ bs))
          end
      end
  end.

Definition AIPL_Save (w : World) : World * SlResult (list byte) :=
  match SlTableHeader SL_MAX_STRING _ai_company_desc with
  | SlErrorCorrupt m => (w, SlErrorCorrupt m)
  | SlOk hdr =>
      match AIPL_Save_loop (Z.to_nat MAX_COMPANIES) 0 w with
      | (w', SlErrorCorrupt m) => (w', SlErrorCorrupt m)
      | (w', SlOk bs) => (w', SlOk (hdr ++ bs))
      end
  end.

(** Modelled from the spec: the writer of a chunk is missing; the records
    of an array are followed by the reserved sentinel index. *)
Definition SlSaveChunk (w : World) : World * SlResult (list byte) :=
  match AIPL_Save w with
  | (w', SlErrorCorrupt m) => (w', SlErrorCorrupt m)
  | (w', SlOk bs) => (w', SlOk (bs ++ SlWriteUint 4 SL_ARRAY_END))
  end.

(** Lines 104 to 123 of [Load]: the configuration of the company slot from
    the staged name and version, with the lines written to the log. *)
Definition AIPL_configure (g : Globals) (config : AIConfig)
  : AIConfig * list Event :=
  if bool_decide (_ai_saveload_name g = EmptyString) || _ai_saveload_is_random g
  then (* A random AI. *)
    (Change None (-1) false config, [])
  else
    let config := Change (Some (_ai_saveload_name g)) (_ai_saveload_version g)
                         false config in
    if negb (HasScript config) then
      let config := Change (Some (_ai_saveload_name g)) (-1) false config in
      if negb (HasScript config) then
        if negb (bool_decide (_ai_saveload_name g = "%_dummy"))
        then (config, [DebugNoLongerAvailable (_ai_saveload_name g)
                                              (_ai_saveload_version g);
                       DebugSwitchedToRandom])
        else (config, [])
      else (config, [DebugNoLongerAvailable (_ai_saveload_name g)
                                            (_ai_saveload_version g);
                     DebugLatestConfigured])
    else (config, []).

(** Lines 131 to 153 of [Load]: the configuration of a running AI; the
    staged version comes back as well, since the block may reset it. *)
Definition AIPL_configure_running (g : Globals)
  : AIConfig * Globals * list Event :=
  let config := new_AIConfig in
  let config := Change (Some (_ai_saveload_name g)) (_ai_saveload_version g)
                       false config in
  if negb (HasScript config) then
    let config := Change (Some (_ai_saveload_name g)) (-1) false config in
    let es :=
      if negb (HasScript config) then
        if negb (bool_decide (_ai_saveload_name g = "%_dummy"))
        then [DebugNoLongerAvailable (_ai_saveload_name g)
                                     (_ai_saveload_version g);
              DebugRandomOtherLoaded]
        else [DebugNoAIsAtSaving; DebugRandomAvailableLoaded]
      else [DebugNoLongerAvailable (_ai_saveload_name g)
                                   (_ai_saveload_version g);
            DebugLatestLoadedIncompatible] in
    (config, set_version (-1) g, es)
  else (config, g, []).

(** The body of the loop of [Load] after the test of the index: one
    record, read from the bytes [s] of its declared length. *)
Definition AIPL_Load_record (slt : list (SaveLoad Globals)) (index : Z)
    (w : World) (s : list byte) : World * SlResult (list byte) :=
  let w := with_globals (set_is_random false (globals w)) w in
  let w := with_globals (set_version (-1) (globals w)) w in
  match SlObject_globals_load slt w s with
  | (w, SlErrorCorrupt m) => (w, SlErrorCorrupt m)
  | (w, SlOk s1) =>
      if bool_decide (_game_mode w = GM_MENU)
         || (_networking w && negb (_network_server w))
      then
        if IsValidAiID w index then
          match SlObject_globals_load _ai_running_desc w s1 with
          | (w, SlErrorCorrupt m) => (w, SlErrorCorrupt m)
          | (w, SlOk s2) =>
              match AIInstance_LoadEmpty s2 with
              | SlErrorCorrupt m => (emit [CallLoadEmpty] w, SlErrorCorrupt m)
              | SlOk s3 => (emit [CallLoadEmpty] w, SlOk s3)
              end
          end
        else (w, SlOk s1)
      else
        let config := GetConfig_FORCE_GAME w index in
        let '(config, es) := AIPL_configure (globals w) config in
        let config := StringToSettings (_ai_saveload_settings (globals w)) config in
        let w := emit es (with_game_ai_config
                             (<[index := config]> (game_ai_config w)) w) in
        if negb (IsValidAiID w index) then (w, SlOk s1)
        else
          (* Load the AI saved data *)
          match SlObject_globals_load _ai_running_desc w s1 with
          | (w, SlErrorCorrupt m) => (w, SlErrorCorrupt m)
          | (w, SlOk s2) =>
              let '(config, g, es) := AIPL_configure_running (globals w) in
              let w := emit es (with_globals g w) in
              let config :=
                StringToSettings (_ai_saveload_settings (globals w)) config in
              let w := set_company_ai_config index config w in
              let w := emit [CallLoad (_ai_saveload_version (globals w))] w in
              match AIInstance_Load (_ai_saveload_version (globals w)) s2 with
              | SlErrorCorrupt m => (w, SlErrorCorrupt m)
              | SlOk (data, s3) =>
                  (set_company_ai_config index (SetToLoadData data config) w,
                   SlOk s3)
              end
          end
  end.

(** The cast [(CompanyID)x] of line 88: the integer [SlIterateArray]
    returns, and the [-1] it is compared with, keep their low
    [CompanyID_size] bytes. *)
Definition to_CompanyID (x : Z) : Z := x mod 256 ^ Z.of_nat CompanyID_size.

(** The loop of [Load]: [SlIterateArray] until what it answers is, as a
    [CompanyID], the [-1] of that type.  Every turn takes an index off the
    stream, so the length of the stream bounds the turns; [fuel] counts them
    and [None] says it ran out. *)
Fixpoint AIPL_Load_loop (fuel : nat) (slt : list (SaveLoad Globals))
    (w : World) (s : list byte) : option (World * SlResult (list byte)) :=
  match fuel with
  | O => None
  | S fuel' =>
      match SlIterateArray s with
      | SlErrorCorrupt m => Some (w, SlErrorCorrupt m)
      | SlOk (raw, body, s') =>
          let index := to_CompanyID raw in
          if index =? to_CompanyID (-1) then Some (w, SlOk s')
          else if index >=? MAX_COMPANIES
               then Some (w, SlErrorCorrupt "Too many AI configs")
               else match AIPL_Load_record slt index w body with
                    | (w', SlErrorCorrupt m) => Some (w', SlErrorCorrupt m)
                    | (w', SlOk _) => AIPL_Load_loop fuel' slt w' s'
                    end
      end
  end.

(** Free all current data. *)
Definition AIPL_clear (w : World) : World :=
  foldl (fun w c =>
           with_game_ai_config
             (<[c := Change None (-1) false (GetConfig_FORCE_GAME w c)]>
                (game_ai_config w)) w)
        w (seqZ 0 MAX_COMPANIES).

Definition AIPL_Load (w : World) (s : list byte)
  : World * SlResult (list byte) :=
  match SlCompatTableHeader SL_MAX_STRING SL_MAX_VERSION _ai_company_desc
                            _ai_company_sl_compat s with
  | SlErrorCorrupt m => (w, SlErrorCorrupt m)
  | SlOk (slt, s1) =>
      default (w, SlErrorCorrupt "unreachable")
              (AIPL_Load_loop (S (length s1)) slt (AIPL_clear w) s1)
  end.
End AIPL.

(** ** What a round trip is stated with *)

(** The value a read returns for the bytes the writer produced from [x]:
    an integer comes back modulo the width of its encoding, read as signed
    or unsigned as the type says. *)
Definition file_value (t : VarType) : VarOf t -> VarOf t :=
  match t return VarOf t -> VarOf t with
  | SLE_BOOL => fun b => b
  | SLE_STR => fun s => s
  | SLE_INT8 => fun z => to_signed 1 (z mod 256 ^ 1)
  | SLE_UINT8 => fun z => z mod 256 ^ 1
  | SLE_INT16 => fun z => to_signed 2 (z mod 256 ^ 2)
  | SLE_UINT16 => fun z => z mod 256 ^ 2
  | SLE_INT32 => fun z => to_signed 4 (z mod 256 ^ 4)
  | SLE_UINT32 => fun z => z mod 256 ^ 4
  | SLE_INT64 => fun z => to_signed 8 (z mod 256 ^ 8)
  | SLE_UINT64 => fun z => z mod 256 ^ 8
  end.

(** Storing through [b] leaves what [a] refers to as it is. *)
Definition independent {Rec} (a b : SaveLoad Rec) : Prop :=
  forall (x : VarOf (conv b)) (r : Rec),
    var_get (address a) (var_set (address b) x r) = var_get (address a) r.

(** The descriptors of a table refer to variables that do not overlap. *)
Fixpoint table_wf {Rec} (slt : list (SaveLoad Rec)) : Prop :=
  match slt with
  | [] => True
  | sld :: slt' =>
      Forall (fun sld' => independent sld sld' /\ independent sld' sld) slt'
      /\ table_wf slt'
  end.

(** The field of [r] that [sld] refers to holds a value its variable takes
    back unchanged from the encoding of the descriptor. *)
Definition field_in_range {Rec} (sld : SaveLoad Rec) (r : Rec) : Prop :=
  forall r0 : Rec,
    var_get (address sld)
            (var_set (address sld)
                     (file_value (conv sld) (var_get (address sld) r)) r0)
    = var_get (address sld) r.

(** A record is populated within the range of the fields of [slt] that are
    active at version [v]. *)
Definition populated {Rec} (v : Z) (slt : list (SaveLoad Rec)) (r : Rec) : Prop :=
  Forall (fun sld => SlIsObjectValidInSavegame v sld = true ->
                     field_in_range sld r) slt.

(** What a record leaves in the staging variables of the conditional
    fields, at the version [v] of the file. *)
Definition staged_defaults `{Externals} (v : Z) (g : Globals) : Prop :=
  (~ (SLV_136 <= v <= SLV_AI_LOCAL_CONFIG) -> _ai_saveload_is_random g = false)
  /\ (~ (SLV_108 <= v <= SL_MAX_VERSION) -> _ai_saveload_version g = -1).

(** The records the loop of [Load] has read and applied without error: from
    world [w] at stream [s] it has come to world [w'] at stream [s']. *)
Inductive records_applied `{Externals} (slt : list (SaveLoad Globals))
  : World -> list byte -> World -> list byte -> Prop :=
| records_applied_nil (w : World) (s : list byte) :
    records_applied slt w s w s
| records_applied_cons (w : World) (s : list byte) (raw : Z)
    (body s1 r : list byte) (w1 w2 : World) (s2 : list byte) :
    SlIterateArray s = SlOk (raw, body, s1) ->
    to_CompanyID raw <> to_CompanyID (-1) ->
    to_CompanyID raw < MAX_COMPANIES ->
    AIPL_Load_record slt (to_CompanyID raw) w body = (w1, SlOk r) ->
    records_applied slt w1 s1 w2 s2 ->
    records_applied slt w s w2 s2.



(** ** What a reload is stated with *)

Definition apply_cfgs (l : list (Z * AIConfig)) (m : gmap Z Company)
  : gmap Z Company :=
  foldl (fun m kc => set_cfg (fst kc) (snd kc) m) m l.

(** The last configuration a list of replacements gives company [k]. *)
Definition last_cfg (l : list (Z * AIConfig)) (k : Z) : option AIConfig :=
  foldl (fun o kc => if bool_decide (fst kc = k) then Some (snd kc) else o)
        None l.



(** What records of a chunk do to a world: the staging variables they
    leave (none when no record was read), the slots they set, the
    configurations of companies they replace and the events they add. *)
Record Delta : Type := mkDelta {
  d_globals : option Globals;
  d_slots : list (Z * AIConfig);
  d_cfgs : list (Z * AIConfig);
  d_events : list Event
}.

Definition set_slots (l : list (Z * AIConfig)) (m : gmap Z AIConfig)
  : gmap Z AIConfig :=
  foldl (fun m kc => <[fst kc := snd kc]> m) m l.

Definition apply_delta (d : Delta) (w : World) : World :=
  mkWorld (default (globals w) (d_globals d)) (_sl_version w) (_game_mode w)
          (_networking w) (_network_server w)
          (set_slots (d_slots d) (game_ai_config w))
          (apply_cfgs (d_cfgs d) (companies w))
          (events w ++ d_events d).

Definition delta_app (d1 d2 : Delta) : Delta :=
  mkDelta (match d_globals d2 with Some g => Some g | None => d_globals d1 end)
          (d_slots d1 ++ d_slots d2) (d_cfgs d1 ++ d_cfgs d2)
          (d_events d1 ++ d_events d2).

(** What the body of the loop of [Load] does to a world, once the company
    fields are read into [g1]: the body again, returning the change instead
    of the changed world.  It takes from the world only the version of the
    file, the test on menu and network, whether the company is a valid AI,
    and the slot of the company. *)
Definition record_delta `{Externals} (v : Z) (menu valid : bool)
    (config0 : AIConfig) (index : Z) (g1 : Globals) (s1 : list byte)
  : Delta * SlResult (list byte) :=
  if menu then
    if valid then
      match SlObject_load SL_MAX_STRING v _ai_running_desc g1 s1 with
      | (g2, SlErrorCorrupt m) => (mkDelta (Some g2) [] [] [], SlErrorCorrupt m)
      | (g2, SlOk s2) =>
          (mkDelta (Some g2) [] [] [CallLoadEmpty],
           match AIInstance_LoadEmpty s2 with
           | SlOk s3 => SlOk s3
           | SlErrorCorrupt m => SlErrorCorrupt m
           end)
      end
    else (mkDelta (Some g1) [] [] [], SlOk s1)
  else
    let '(config, es) := AIPL_configure g1 config0 in
    let slot := (index, StringToSettings (_ai_saveload_settings g1) config) in
    if negb valid then (mkDelta (Some g1) [slot] [] es, SlOk s1)
    else
      match SlObject_load SL_MAX_STRING v _ai_running_desc g1 s1 with
      | (g2, SlErrorCorrupt m) =>
          (mkDelta (Some g2) [slot] [] es, SlErrorCorrupt m)
      | (g2, SlOk s2) =>
          let '(config', g3, es') := AIPL_configure_running g2 in
          let config' := StringToSettings (_ai_saveload_settings g3) config' in
          let es3 := es ++ es' ++ [CallLoad (_ai_saveload_version g3)] in
          match AIInstance_Load (_ai_saveload_version g3) s2 with
          | SlErrorCorrupt m =>
              (mkDelta (Some g3) [slot] [(index, config')] es3, SlErrorCorrupt m)
          | SlOk (data, s3) =>
              (mkDelta (Some g3) [slot]
                       [(index, config'); (index, SetToLoadData data config')]
                       es3, SlOk s3)
          end
      end.

(** ** A build to run the handler on *)

Definition example_FindInfo (n : string) (version : Z) (force : bool)
  : option ScriptInfo :=
  if bool_decide (n = "AdmiralAI")
  then if (version =? -1) || (version =? 25)
       then Some (mkScriptInfo "AdmiralAI" 25) else None
  else None.

Definition example_externals : Externals :=
  mkExternals 1 15 eq_refl 332 65535 65535 ["start_date"] example_FindInfo
    (fun version s => SlOk (if version =? -1 then None else Some s, []))
    (fun s => SlOk [])
    (fun _ => []).

Definition example_globals : Globals := mkGlobals "AdmiralAI" 25 "speed=3" true.

Definition example_world : World :=
  mkWorld (mkGlobals "stale" 7 "old" true) 200 GM_NORMAL false false
          (<[0 := mkAIConfig "AdmiralAI" 25 (Some (mkScriptInfo "AdmiralAI" 25))
                             "speed=3" None]> ∅)
          (<[1 := mkCompany true None]> ∅) [].

(** The staging variables as [Load] resets them before a record. *)
Definition reset_globals : Globals := mkGlobals "" (-1) "" false.

(** The bytes of the company record of [example_globals] at version 200. *)
Definition example_record_bytes : list byte :=
  match SlObject_save 65535 200 (@_ai_company_desc example_externals)
                      example_globals with
  | SlOk bs => bs
  | SlErrorCorrupt _ => []
  end.

(** The header [Save] writes for [_ai_company_desc]. *)
Definition example_header : list byte :=
  match SlTableHeader 65535 (@_ai_company_desc example_externals) with
  | SlOk bs => bs
  | SlErrorCorrupt _ => []
  end.

(** The company record that configures AdmiralAI, version 25, at version 200
    of the format. *)
Definition example_company_record : list byte :=
  match SlObject_save 65535 200 (@_ai_company_desc example_externals)
                      (mkGlobals "AdmiralAI" 25 "speed=3" false) with
  | SlOk bs => bs
  | SlErrorCorrupt _ => []
  end.

(** A chunk whose second index, 15, is beyond the companies of the build. *)
Definition example_bad_chunk : list byte :=
  example_header
  ++ SlSetArrayIndex 1 ++ SlAutolength example_company_record
  ++ SlSetArrayIndex 15 ++ SlAutolength []
  ++ SlWriteUint 4 SL_ARRAY_END.

(** A world loading a file of version 100, with values of an earlier record
    in the staging variables. *)
Definition example_old_world : World :=
  mkWorld (mkGlobals "stale" 7 "old" true) 100 GM_NORMAL false false ∅ ∅ [].

(** The company record of a save that had AdmiralAI in version 30, which
    the registry of the example does not have. *)
Definition example_unavailable_record : list byte :=
  match SlObject_save 65535 200 (@_ai_company_desc example_externals)
                      (mkGlobals "AdmiralAI" 30 "speed=3" false) with
  | SlOk bs => bs
  | SlErrorCorrupt _ => []
  end.

(** The world after the company fields of that record are read. *)
Definition example_after_fields : World :=
  fst (@SlObject_globals_load example_externals
         (@_ai_company_desc example_externals)
         (with_globals
            (set_version (-1)
               (globals (with_globals
                           (set_is_random false (globals example_world))
                           example_world)))
            (with_globals (set_is_random false (globals example_world))
                          example_world))
         example_unavailable_record).

(** The same record read for company 1, a running AI: the world once the
    slot of the company is configured, and once the fields of the running
    script are read. *)
Definition example_configured : World :=
  let '(config, es) :=
    @AIPL_configure example_externals (globals example_after_fields)
      (GetConfig_FORCE_GAME example_after_fields 1) in
  emit es
    (with_game_ai_config
       (<[1 := StringToSettings
                 (_ai_saveload_settings (globals example_after_fields)) config]>
          (game_ai_config example_after_fields)) example_after_fields).

Definition example_after_running : World :=
  fst (@SlObject_globals_load example_externals
         (@_ai_running_desc example_externals) example_configured []).

Definition example_running_result : World * SlResult (list byte) :=
  @AIPL_Load_record example_externals (@_ai_company_desc example_externals) 1
                    example_world example_unavailable_record.

(** A world loading a file of version 340, where company 1 is a running
    AI and the staging variables are fresh. *)
Definition example_new_world : World :=
  mkWorld reset_globals 340 GM_NORMAL false false ∅
          (<[1 := mkCompany true None]> ∅) [].



(** A chunk as [Save] lays it out, with the record of company 1 only. *)
Definition example_good_chunk : list byte :=
  example_header
  ++ SlSetArrayIndex 1 ++ SlAutolength example_company_record
  ++ SlWriteUint 4 SL_ARRAY_END.


(** ** What a save and its load are stated with *)

(** The test of [Load] on the menu and on a client of a network game. *)
Definition menu_or_client (w : World) : bool :=
  bool_decide (_game_mode w = GM_MENU)
  || (_networking w && negb (_network_server w)).

(** A slot whose script, if it has one, is the one the registry has for
    the name and version of the slot, the version being an [int]. *)
Definition registered `{Externals} (c : AIConfig) : Prop :=
  match cfg_info c with
  | Some i =>
      cfg_name c <> EmptyString
      /\ FindInfo (cfg_name c) (cfg_version c) false = Some i
      /\ info_version i = cfg_version c
      /\ - 2 ^ 31 <= cfg_version c < 2 ^ 31
  | None => True
  end.

(** The slot [c'] holds what the slot [c] held: the same script and
    settings, under the same name and version when there is a script, and
    no data to load. *)
Definition restored (c c' : AIConfig) : Prop :=
  cfg_info c' = cfg_info c
  /\ cfg_settings c' = cfg_settings c
  /\ cfg_to_load_data c' = None
  /\ (HasScript c = true ->
      cfg_name c' = cfg_name c /\ cfg_version c' = cfg_version c).

(** The staging variables as [SaveReal_AIPL] sets them for a slot. *)
Definition staged_slot (c : AIConfig) (g : Globals) : Globals :=
  mkGlobals (if HasScript c then GetName c else EmptyString)
            (to_signed 4 (if HasScript c then GetVersion c else -1))
            (SettingsToString c) (_ai_saveload_is_random g).

(** ** Worlds and records to save and load back *)

(** A world in the menu, with a script in slot 0 and company 1 a running
    AI. *)
Definition example_menu_world : World :=
  mkWorld reset_globals 340 GM_MENU false false
          (<[0 := mkAIConfig "AdmiralAI" 25 (Some (mkScriptInfo "AdmiralAI" 25))
                             "speed=3" None]> ∅)
          (<[1 := mkCompany true None]> ∅) [].

(** The staging variables once [example_unavailable_record] is read. *)
Definition example_unavailable_globals : Globals :=
  mkGlobals "AdmiralAI" 30 "speed=3" false.

(** A world saving at version 340, with AdmiralAI in slot 0 and no company
    started, and a fresh world loading at the same version. *)
Definition example_saved_world : World :=
  mkWorld reset_globals 340 GM_NORMAL false false
          (<[0 := mkAIConfig "AdmiralAI" 25 (Some (mkScriptInfo "AdmiralAI" 25))
                             "speed=3" None]> ∅)
          ∅ [].

Definition example_fresh_world : World :=
  mkWorld (mkGlobals "stale" 7 "old" true) 340 GM_NORMAL false false ∅ ∅ [].

(** The record [SaveReal_AIPL] writes for slot 0 of [example_saved_world],
    and the chunk written for the whole of it. *)
Definition example_slot_record : list byte :=
  match snd (@SaveReal_AIPL example_externals 0 example_saved_world) with
  | SlOk bs => bs
  | SlErrorCorrupt _ => []
  end.

Definition example_saved_chunk : list byte :=
  match snd (@SlSaveChunk example_externals example_saved_world) with
  | SlOk bs => bs
  | SlErrorCorrupt _ => []
  end.

(** A world saving at version 340 where company 1 runs AdmiralAI, and the
    record [SaveReal_AIPL] writes for it. *)
Definition example_running_world : World :=
  mkWorld reset_globals 340 GM_NORMAL false false ∅
          (<[1 := mkCompany true
                    (Some (mkAIConfig "AdmiralAI" 25
                                      (Some (mkScriptInfo "AdmiralAI" 25))
                                      "speed=3" None))]> ∅) [].

Definition example_running_slot_record : list byte :=
  match snd (@SaveReal_AIPL example_externals 1 example_running_world) with
  | SlOk bs => bs
  | SlErrorCorrupt _ => []
  end.

(** The company record of AdmiralAI at version 100 of the format, which has
    no field for the version of the script, and the staging variables once
    it is read. *)
Definition example_old_record : list byte :=
  match SlObject_save 65535 100 (@_ai_company_desc example_externals)
                      (mkGlobals "AdmiralAI" 30 "speed=3" false) with
  | SlOk bs => bs
  | SlErrorCorrupt _ => []
  end.

Definition example_old_globals : Globals :=
  mkGlobals "AdmiralAI" (-1) "speed=3" false.



(** * Properties *)

(** ** Bytes and fixed-width integers *)

Lemma Z_of_byte_range (b : byte) : 0 <= Z_of_byte b < 256.
Proof.
  unfold Z_of_byte. pose proof (Byte.to_N_bounded b). lia.
Qed.

Lemma Z_of_byte_of_Z (z : Z) : Z_of_byte (byte_of_Z z) = z mod 256.
Proof.
  unfold Z_of_byte, byte_of_Z.
  assert (Hr : 0 <= z mod 256 < 256) by (apply Z.mod_pos_bound; lia).
  destruct (Byte.of_N (Z.to_N (z mod 256))) as [b|] eqn:E.
  - apply Byte.to_of_N in E. simpl. rewrite E. lia.
  - apply Byte.of_N_None_iff in E. lia.
Qed.

Lemma SlReadUintAcc_write (w : nat) (acc z : Z) (rest : list byte) :
  SlReadUintAcc w acc (SlWriteUint w z ++ rest)
  = SlOk (acc * 256 ^ Z.of_nat w + z mod 256 ^ Z.of_nat w, rest).
Proof.
  revert acc. induction w as [|k IH]; intros acc.
  - simpl. rewrite Z.mod_1_r. do 2 f_equal. lia.
  - cbn [SlWriteUint SlReadUintAcc app]. rewrite IH, Z_of_byte_of_Z.
    do 2 f_equal.
    rewrite Nat2Z.inj_succ, Z.pow_succ_r by lia.
    assert (Hp : 0 < 256 ^ Z.of_nat k) by (apply Z.pow_pos_nonneg; lia).
    rewrite (Z.mul_comm 256 (256 ^ Z.of_nat k)).
    rewrite (Z.rem_mul_r z (256 ^ Z.of_nat k) 256) by lia.
    lia.
Qed.

Lemma SlReadUint_write (w : nat) (z : Z) (rest : list byte) :
  SlReadUint w (SlWriteUint w z ++ rest) = SlOk (z mod 256 ^ Z.of_nat w, rest).
Proof. unfold SlReadUint. rewrite SlReadUintAcc_write. do 2 f_equal. Qed.

Lemma SlReadUintAcc_length (w : nat) (acc : Z) (s : list byte) u s' :
  SlReadUintAcc w acc s = SlOk (u, s') -> length s = (w + length s')%nat.
Proof.
  revert acc s. induction w as [|k IH]; intros acc s E; simpl in E.
  - now inversion E.
  - destruct s as [|b s0]; [discriminate|].
    apply IH in E. simpl. lia.
Qed.

Lemma SlReadUint_length (w : nat) (s : list byte) u s' :
  SlReadUint w s = SlOk (u, s') -> length s = (w + length s')%nat.
Proof. apply SlReadUintAcc_length. Qed.

Lemma to_signed_mod (w : nat) (z : Z) :
  - (256 ^ Z.of_nat w) <= 2 * z < 256 ^ Z.of_nat w ->
  to_signed w (z mod 256 ^ Z.of_nat w) = z.
Proof.
  intros Hz. unfold to_signed. cbv zeta.
  assert (Hp : 0 < 256 ^ Z.of_nat w) by (apply Z.pow_pos_nonneg; lia).
  rewrite Z.mod_mod by lia.
  destruct (Z.ltb_spec (2 * (z mod 256 ^ Z.of_nat w)) (256 ^ Z.of_nat w)) as [L|L].
  - destruct (Z.neg_nonneg_cases z) as [Hn|Hn].
    + rewrite <- (Z.mod_add z 1) in L by lia.
      rewrite Z.mod_small in L by lia. lia.
    + apply Z.mod_small. lia.
  - destruct (Z.neg_nonneg_cases z) as [Hn|Hn].
    + rewrite <- (Z.mod_add z 1) by lia.
      rewrite Z.mod_small by lia. lia.
    + rewrite Z.mod_small in L by lia. lia.
Qed.


(** ** Strings and values *)

Lemma SlReadString_write (max_len : Z) (x : string) (bs rest : list byte) :
  max_len < 256 ^ 4 ->
  SlWriteString max_len x = SlOk bs ->
  SlReadString max_len (bs ++ rest) = SlOk (x, rest).
Proof.
  intros Hmax. unfold SlWriteString. cbv zeta.
  destruct (Z.leb_spec (Z.of_nat (length (list_byte_of_string x))) max_len)
    as [Hle|]; [|discriminate].
  intros E.
  replace bs with (SlWriteUint SL_LEN_BYTES
                     (Z.of_nat (length (list_byte_of_string x)))
                   ++ list_byte_of_string x) by congruence.
  clear E. unfold SlReadString.
  rewrite <- app_assoc, SlReadUint_write.
  change (Z.of_nat SL_LEN_BYTES) with 4.
  rewrite Z.mod_small by lia.
  destruct (Z.ltb_spec max_len (Z.of_nat (length (list_byte_of_string x))));
    [lia|].
  rewrite length_app.
  destruct (Z.ltb_spec
              (Z.of_nat (length (list_byte_of_string x) + length rest))
              (Z.of_nat (length (list_byte_of_string x)))); [lia|].
  rewrite Nat2Z.id, take_app_length, drop_app_length.
  now rewrite string_of_list_byte_of_string.
Qed.

Lemma SlReadInt_write (signed : bool) (w : nat) (z : Z) (rest : list byte) :
  SlReadInt signed w (SlWriteUint w z ++ rest)
  = SlOk (if signed then to_signed w (z mod 256 ^ Z.of_nat w)
          else z mod 256 ^ Z.of_nat w, rest).
Proof. unfold SlReadInt. now rewrite SlReadUint_write. Qed.

Lemma SlReadValue_write (max_len : Z) (t : VarType) (x : VarOf t)
    (bs rest : list byte) :
  max_len < 256 ^ 4 ->
  SlWriteValue max_len t x = SlOk bs ->
  SlReadValue max_len t (bs ++ rest) = SlOk (file_value t x, rest).
Proof.
  intros Hmax E.
  destruct t; cbn [SlWriteValue SlReadValue file_value] in *;
    try (match type of E with
         | SlOk ?b = _ => replace bs with b by congruence
         end; exact (SlReadInt_write _ _ _ _)).
  - replace bs with (SlWriteUint 1 (if x then 1 else 0)) by congruence.
    unfold SlReadBool. rewrite SlReadUint_write.
    destruct x; reflexivity.
  - now apply SlReadString_write.
Qed.

(** ** The record engine *)

Section RecordEngineFacts.
Context {Rec : Type}.
Variable max_len : Z.
Variable v : Z.

(** A load leaves alone every variable that no descriptor of the table
    stores to, whether it succeeds or fails. *)
Lemma SlObject_load_frame (slt : list (SaveLoad Rec)) (a : SaveLoad Rec) :
  Forall (fun sld => independent a sld) slt ->
  forall (r0 : Rec) (s : list byte),
    var_get (address a) (fst (SlObject_load max_len v slt r0 s))
    = var_get (address a) r0.
Proof.
  induction 1 as [|sld slt' Hind _ IH]; intros r0 s; [reflexivity|].
  cbn [SlObject_load].
  destruct (SlIsObjectValidInSavegame v sld); [|apply IH].
  destruct (SlReadValue max_len (conv sld) s) as [[x s']|m]; [|reflexivity].
  rewrite IH. apply Hind.
Qed.

Lemma SlObject_save_inv (sld : SaveLoad Rec) (slt : list (SaveLoad Rec))
    (r : Rec) (bs : list byte) :
  SlObject_save max_len v (sld :: slt) r = SlOk bs ->
  exists b1 b2,
    SlObjectMember_save max_len v r sld = SlOk b1
    /\ SlObject_save max_len v slt r = SlOk b2 /\ bs = b1 ++ b2.
Proof.
  cbn [SlObject_save].
  destruct (SlObjectMember_save max_len v r sld) as [b1|]; [|discriminate].
  destruct (SlObject_save max_len v slt r) as [b2|]; [|discriminate].
  intros [= <-]. now exists b1, b2.
Qed.
End RecordEngineFacts.

(** C1. Round trip of the record engine: for every table whose descriptors
    refer to variables that do not overlap, and every record populated within
    the range of its active fields, the bytes [SlObject] writes at version
    [v] are read back at the same version, to the last byte and without
    error, into a record whose active fields equal the originals exactly;
    the fields outside their version range keep what the record loaded into
    held.  The staging record of [_ai_company_desc] with name, settings,
    version and is_random is an instance. *)
Theorem SlObject_roundtrip {Rec : Type} (max_len v : Z)
    (slt : list (SaveLoad Rec)) (r r0 : Rec) (bs rest : list byte) :
  max_len < 256 ^ 4 ->
  table_wf slt ->
  populated v slt r ->
  SlObject_save max_len v slt r = SlOk bs ->
  exists r' : Rec,
    SlObject_load max_len v slt r0 (bs ++ rest) = (r', SlOk rest)
    /\ (forall sld, sld ∈ slt ->
          var_get (address sld) r'
          = if SlIsObjectValidInSavegame v sld
            then var_get (address sld) r
            else var_get (address sld) r0).
Proof.
  intros Hmax. revert r0 bs.
  induction slt as [|sld slt IH]; intros r0 bs Hwf Hpop Hsave.
  - injection Hsave as <-. exists r0. split; [reflexivity|].
    intros sld Hin. inversion Hin.
  - destruct Hwf as [Hind Hwf]. inversion Hpop as [|? ? Hhd Htl]; subst.
    apply SlObject_save_inv in Hsave as (b1 & b2 & Hm & Hs & ->).
    unfold SlObjectMember_save in Hm. cbn [SlObject_load].
    destruct (SlIsObjectValidInSavegame v sld) eqn:Hact.
    + rewrite <- app_assoc.
      rewrite (SlReadValue_write _ _ _ _ (b2 ++ rest) Hmax Hm).
      set (r1 := var_set (address sld)
                         (file_value (conv sld) (var_get (address sld) r)) r0).
      destruct (IH r1 b2 Hwf Htl Hs) as (r' & Hload & Hfields).
      exists r'. split; [exact Hload|].
      intros sld' Hin. apply elem_of_cons in Hin as [->|Hin].
      * rewrite Hact.
        pose proof (SlObject_load_frame max_len v slt sld) as Hfr.
        specialize (Hfr (Forall_impl _ _ _ Hind (fun _ H => proj1 H)) r1
                        (b2 ++ rest)).
        rewrite Hload in Hfr. cbn [fst] in Hfr. rewrite Hfr.
        apply (Hhd eq_refl).
      * rewrite (Hfields sld' Hin).
        destruct (SlIsObjectValidInSavegame v sld'); [reflexivity|].
        rewrite Forall_forall in Hind. apply (Hind sld' Hin).
    + injection Hm as <-. cbn [app].
      destruct (IH r0 b2 Hwf Htl Hs) as (r' & Hload & Hfields).
      exists r'. split; [exact Hload|].
      intros sld' Hin. apply elem_of_cons in Hin as [->|Hin].
      * rewrite Hact.
        pose proof (SlObject_load_frame max_len v slt sld) as Hfr.
        specialize (Hfr (Forall_impl _ _ _ Hind (fun _ H => proj1 H)) r0
                        (b2 ++ rest)).
        rewrite Hload in Hfr. exact Hfr.
      * exact (Hfields sld' Hin).
Qed.

Lemma SlObject_roundtrip_witness :
  exists r' : Globals,
    SlObject_load 65535 200 (@_ai_company_desc example_externals)
                  reset_globals (example_record_bytes ++ [])
    = (r', SlOk [])
    /\ (forall sld, sld ∈ @_ai_company_desc example_externals ->
          var_get (address sld) r'
          = if SlIsObjectValidInSavegame 200 sld
            then var_get (address sld) example_globals
            else var_get (address sld) reset_globals).
Proof.
  apply (SlObject_roundtrip 65535 200 (@_ai_company_desc example_externals)
                            example_globals reset_globals
                            example_record_bytes []).
  - lia.
  - simpl. repeat split; repeat constructor; intros x r; reflexivity.
  - repeat constructor; intros _ r0; reflexivity.
  - vm_compute. reflexivity.
Defined.

(** The variables of [_ai_company_desc] do not overlap. *)
Lemma ai_company_desc_wf `{Externals} : table_wf _ai_company_desc.
Proof.
  unfold _ai_company_desc. cbn [table_wf].
  repeat split; repeat constructor; intros x r; reflexivity.
Qed.

(** Every staging record whose version is an [int] is populated within the
    range of the fields of [_ai_company_desc], at every version: the [int]
    goes through the four bytes of [SLE_UINT32] unchanged. *)
Lemma ai_company_desc_populated `{Externals} (v : Z) (g : Globals) :
  - 2 ^ 31 <= _ai_saveload_version g < 2 ^ 31 ->
  populated v _ai_company_desc g.
Proof.
  intros Hint. unfold populated, _ai_company_desc.
  repeat constructor; intros _ r0; try reflexivity.
  cbn. apply (to_signed_mod 4). cbn. lia.
Qed.

(** ** Version gating *)

Lemma SlWriteValue_nonempty (max_len : Z) (t : VarType) (x : VarOf t)
    (bs : list byte) :
  SlWriteValue max_len t x = SlOk bs -> bs <> [].
Proof.
  destruct t; cbn [SlWriteValue]; try (intros [= <-]; discriminate).
  unfold SlWriteString. cbv zeta.
  destruct (_ <=? _); [intros [= <-]; discriminate | discriminate].
Qed.

Lemma SlObject_save_active {Rec} (max_len v : Z) (slt : list (SaveLoad Rec))
    (r : Rec) :
  SlObject_save max_len v slt r
  = SlObject_save max_len v (List.filter (SlIsObjectValidInSavegame v) slt) r.
Proof.
  induction slt as [|sld slt IH]; [reflexivity|].
  cbn [List.filter SlObject_save]. unfold SlObjectMember_save.
  destruct (SlIsObjectValidInSavegame v sld) eqn:Hact.
  - cbn [SlObject_save]. unfold SlObjectMember_save. now rewrite Hact, IH.
  - rewrite <- IH. now destruct (SlObject_save max_len v slt r).
Qed.

Lemma SlObject_load_active {Rec} (max_len v : Z) (slt : list (SaveLoad Rec))
    (r : Rec) (s : list byte) :
  SlObject_load max_len v slt r s
  = SlObject_load max_len v (List.filter (SlIsObjectValidInSavegame v) slt) r s.
Proof.
  revert r s. induction slt as [|sld slt IH]; intros r s; [reflexivity|].
  cbn [List.filter SlObject_load].
  destruct (SlIsObjectValidInSavegame v sld) eqn:Hact; [|apply IH].
  cbn [SlObject_load]. rewrite Hact.
  destruct (SlReadValue max_len (conv sld) s) as [[x s']|m]; [apply IH|reflexivity].
Qed.

(** The bytes [SlObject] writes are read back into the active fields. *)
Lemma SlObject_load_save {Rec : Type} (max_len v : Z)
    (slt : list (SaveLoad Rec)) (r r0 : Rec) (bs rest : list byte) :
  max_len < 256 ^ 4 ->
  table_wf slt ->
  populated v slt r ->
  SlObject_save max_len v slt r = SlOk bs ->
  exists r' : Rec,
    SlObject_load max_len v slt r0 (bs ++ rest) = (r', SlOk rest)
    /\ (forall sld, sld ∈ slt ->
          var_get (address sld) r'
          = if SlIsObjectValidInSavegame v sld
            then var_get (address sld) r
            else var_get (address sld) r0).
Proof.
  intros Hmax. revert r0 bs.
  induction slt as [|sld slt IH]; intros r0 bs Hwf Hpop Hsave.
  - injection Hsave as <-. exists r0. split; [reflexivity|].
    intros sld Hin. inversion Hin.
  - destruct Hwf as [Hind Hwf]. inversion Hpop as [|? ? Hhd Htl]; subst.
    apply SlObject_save_inv in Hsave as (b1 & b2 & Hm & Hs & ->).
    unfold SlObjectMember_save in Hm. cbn [SlObject_load].
    pose proof (SlObject_load_frame max_len v slt sld
                  (Forall_impl _ _ _ Hind (fun _ Hp => proj1 Hp))) as Hfr.
    destruct (SlIsObjectValidInSavegame v sld) eqn:Hact.
    + rewrite <- app_assoc.
      rewrite (SlReadValue_write _ _ _ _ (b2 ++ rest) Hmax Hm).
      set (r1 := var_set (address sld)
                         (file_value (conv sld) (var_get (address sld) r)) r0).
      destruct (IH r1 b2 Hwf Htl Hs) as (r' & Hload & Hfields).
      exists r'. split; [exact Hload|].
      intros sld' Hin. apply elem_of_cons in Hin as [->|Hin].
      * rewrite Hact. specialize (Hfr r1 (b2 ++ rest)).
        rewrite Hload in Hfr. cbn [fst] in Hfr. rewrite Hfr.
        apply (Hhd eq_refl).
      * rewrite (Hfields sld' Hin).
        destruct (SlIsObjectValidInSavegame v sld'); [reflexivity|].
        rewrite Forall_forall in Hind. apply (Hind sld' Hin).
    + replace b1 with (@nil byte) by congruence. cbn [app].
      destruct (IH r0 b2 Hwf Htl Hs) as (r' & Hload & Hfields).
      exists r'. split; [exact Hload|].
      intros sld' Hin. apply elem_of_cons in Hin as [->|Hin].
      * rewrite Hact. specialize (Hfr r0 (b2 ++ rest)).
        rewrite Hload in Hfr. exact Hfr.
      * exact (Hfields sld' Hin).
Qed.

(** C2. Version gating: a descriptor is active at version [v] iff
    [version_from <= v <= version_to], in save direction at the target
    version and in load direction at the version of the file.  A descriptor
    in range is transcoded: on save it writes the bytes of its variable, at
    least one, and on load it reads them back into its variable and takes
    them off the stream; one out of range writes nothing, reads nothing and
    leaves its variable alone; [SlObject] does so for each descriptor of
    its table.  For [_ai_company_desc]: the stream of a record is the one of
    "name" and "settings", then the four bytes of "version" exactly when
    [108 <= v <= SL_MAX_VERSION], then the byte of "is_random" exactly when
    [136 <= v <= SLV_AI_LOCAL_CONFIG]; and a load of that stream takes the
    version and the flag of the record saved exactly at those versions, and
    keeps the ones the variables held at the others. *)
Theorem version_gating `{Externals} {Rec : Type} (max_len v : Z)
    (slt : list (SaveLoad Rec)) (sld : SaveLoad Rec) (r r0 : Rec)
    (s rest : list byte) (g g0 : Globals) :
  (SlIsObjectValidInSavegame v sld = true
   <-> version_from sld <= v <= version_to sld)
  /\ (version_from sld <= v <= version_to sld ->
      SlObjectMember_save max_len v r sld
      = SlWriteValue max_len (conv sld) (var_get (address sld) r)
      /\ forall bs, SlObjectMember_save max_len v r sld = SlOk bs ->
           bs <> []
           /\ (max_len < 256 ^ 4 ->
               SlObject_load max_len v [sld] r0 (bs ++ rest)
               = (var_set (address sld)
                          (file_value (conv sld) (var_get (address sld) r)) r0,
                  SlOk rest)))
  /\ (~ (version_from sld <= v <= version_to sld) ->
      SlObjectMember_save max_len v r sld = SlOk []
      /\ SlObject_load max_len v [sld] r s = (r, SlOk s))
  /\ SlObject_save max_len v slt r
     = SlObject_save max_len v
         (List.filter (SlIsObjectValidInSavegame v) slt) r
  /\ SlObject_load max_len v slt r s
     = SlObject_load max_len v
         (List.filter (SlIsObjectValidInSavegame v) slt) r s
  /\ SlObject_save max_len v _ai_company_desc g
     = match SlObject_save max_len v
               [SLEG_SSTR "name" ref_name; SLEG_SSTR "settings" ref_settings]
               g with
       | SlOk a =>
           SlOk (a
                 ++ (if (108 <=? v) && (v <=? SL_MAX_VERSION)
                     then SlWriteUint 4 (_ai_saveload_version g) else [])
                 ++ (if (136 <=? v) && (v <=? SLV_AI_LOCAL_CONFIG)
                     then SlWriteUint 1 (if _ai_saveload_is_random g
                                         then 1 else 0)
                     else []))
       | SlErrorCorrupt m => SlErrorCorrupt m
       end
  /\ (forall bs,
        max_len < 256 ^ 4 ->
        - 2 ^ 31 <= _ai_saveload_version g < 2 ^ 31 ->
        SlObject_save max_len v _ai_company_desc g = SlOk bs ->
        exists g' : Globals,
          SlObject_load max_len v _ai_company_desc g0 (bs ++ rest)
          = (g', SlOk rest)
          /\ _ai_saveload_version g'
             = (if (108 <=? v) && (v <=? SL_MAX_VERSION)
                then _ai_saveload_version g else _ai_saveload_version g0)
          /\ _ai_saveload_is_random g'
             = (if (136 <=? v) && (v <=? SLV_AI_LOCAL_CONFIG)
                then _ai_saveload_is_random g
                else _ai_saveload_is_random g0)).
Proof.
  assert (Hrule : SlIsObjectValidInSavegame v sld = true
                  <-> version_from sld <= v <= version_to sld).
  { unfold SlIsObjectValidInSavegame. rewrite andb_true_iff, !Z.leb_le. tauto. }
  split; [exact Hrule|].
  split; [|split; [|split; [|split; [|split]]]].
  - intros Hin. apply Hrule in Hin.
    unfold SlObjectMember_save. rewrite Hin. split; [reflexivity|].
    intros bs Hbs. split; [exact (SlWriteValue_nonempty _ _ _ _ Hbs)|].
    intros Hmax. cbn [SlObject_load]. rewrite Hin.
    now rewrite (SlReadValue_write max_len _ _ bs rest Hmax Hbs).
  - intros Hout.
    assert (Hina : SlIsObjectValidInSavegame v sld = false).
    { destruct (SlIsObjectValidInSavegame v sld) eqn:E; [|reflexivity].
      exfalso. apply Hout. now apply Hrule. }
    unfold SlObjectMember_save. cbn [SlObject_load]. now rewrite Hina.
  - apply SlObject_save_active.
  - apply SlObject_load_active.
  - unfold _ai_company_desc. cbn [SlObject_save].
    destruct (SlObjectMember_save max_len v g (SLEG_SSTR "name" ref_name))
      as [a1|m]; [|reflexivity].
    destruct (SlObjectMember_save max_len v g
                (SLEG_SSTR "settings" ref_settings)) as [a2|m]; [|reflexivity].
    unfold SlObjectMember_save, SlIsObjectValidInSavegame.
    cbn [version_from version_to conv address SLEG_CONDVAR var_get
         ref_version ref_is_random SlWriteValue].
    unfold SLV_108, SLV_136.
    destruct ((108 <=? v) && (v <=? SL_MAX_VERSION));
      destruct ((136 <=? v) && (v <=? SLV_AI_LOCAL_CONFIG));
      now rewrite ?app_nil_r, <- ?app_assoc.
  - intros bs Hmax Hint Hsave.
    destruct (SlObject_load_save max_len v _ai_company_desc g g0 bs rest
                Hmax ai_company_desc_wf (ai_company_desc_populated v g Hint)
                Hsave) as (g' & E & Hf).
    exists g'. split; [exact E|]. split.
    + specialize (Hf (SLEG_CONDVAR "version" SLE_UINT32 ref_version SLV_108
                                   SL_MAX_VERSION)).
      unfold SlIsObjectValidInSavegame in Hf.
      cbn [version_from version_to SLEG_CONDVAR] in Hf.
      apply Hf. unfold _ai_company_desc.
      apply list_elem_of_further, list_elem_of_further, list_elem_of_here.
    + specialize (Hf (SLEG_CONDVAR "is_random" SLE_BOOL ref_is_random SLV_136
                                   SLV_AI_LOCAL_CONFIG)).
      unfold SlIsObjectValidInSavegame in Hf.
      cbn [version_from version_to SLEG_CONDVAR] in Hf.
      apply Hf. unfold _ai_company_desc.
      apply list_elem_of_further, list_elem_of_further, list_elem_of_further,
        list_elem_of_here.
Qed.

(** ** Header resolution *)

Lemma SlFindField_Some {Rec} (slt : list (SaveLoad Rec)) (n : string)
    (sld : SaveLoad Rec) :
  SlFindField slt n = Some sld -> sld ∈ slt /\ name sld = n.
Proof.
  unfold SlFindField. intros E. apply find_some in E as [Hin Hn].
  split; [now apply list_elem_of_In | now apply bool_decide_eq_true in Hn].
Qed.

Lemma SlFindField_None {Rec} (slt : list (SaveLoad Rec)) (n : string) :
  SlFindField slt n = None <-> forall sld, sld ∈ slt -> name sld <> n.
Proof.
  unfold SlFindField. split.
  - intros E sld Hin. apply list_elem_of_In in Hin.
    pose proof (find_none _ _ E sld Hin) as Hn. cbv beta in Hn.
    now apply bool_decide_eq_false in Hn.
  - intros Hall. induction slt as [|sld slt IH]; [reflexivity|].
    cbn [find]. rewrite bool_decide_eq_false_2.
    + apply IH. intros sld' Hin. apply Hall. now right.
    + apply Hall. now left.
Qed.

(** A name of a header is known when the current table or the
    compatibility history has it. *)
Lemma SlResolveField_ok {Rec} (max_version : Z) (slt : list (SaveLoad Rec))
    (slct : list string) (e : string * VarType) :
  (exists sld, SlResolveField max_version slt slct e = SlOk sld)
  <-> ((exists sld, sld ∈ slt /\ name sld = fst e) \/ fst e ∈ slct).
Proof.
  unfold SlResolveField.
  destruct (SlFindField slt (fst e)) as [sld|] eqn:Ef.
  - apply SlFindField_Some in Ef. split; eauto.
  - destruct (bool_decide_reflect (fst e ∈ slct)) as [Hin|Hnin].
    + split; eauto.
    + split; [intros [sld [=]]|].
      intros [(sld & Hin & Hn)|Hin]; [|contradiction].
      exfalso. exact (proj1 (SlFindField_None slt (fst e)) Ef sld Hin Hn).
Qed.

Lemma SlReadUintAcc_skip (w : nat) (acc : Z) (s : list byte) u s' :
  SlReadUintAcc w acc s = SlOk (u, s') -> s' = drop w s.
Proof.
  revert acc s. induction w as [|k IH]; intros acc s E; simpl in E.
  - now inversion E.
  - destruct s as [|b s0]; [discriminate|]. apply IH in E. exact E.
Qed.

(** A successful read of a fixed-width primitive takes exactly the bytes of
    its width off the stream. *)
Lemma SlReadValue_fixed (max_len : Z) (t : VarType) (s : list byte)
    (x : VarOf t) (s' : list byte) :
  t <> SLE_STR ->
  SlReadValue max_len t s = SlOk (x, s') ->
  s' = drop (SlCalcConvFileLen t) s
  /\ length s = (SlCalcConvFileLen t + length s')%nat.
Proof.
  intros Ht E.
  assert (Hu : exists u, SlReadUint (SlCalcConvFileLen t) s = SlOk (u, s')).
  { destruct t; try contradiction; cbn [SlReadValue SlCalcConvFileLen] in *;
      unfold SlReadInt, SlReadBool in E;
      match type of E with
      | context [SlReadUint ?w s] =>
          destruct (SlReadUint w s) as [[u s1]|] eqn:Eu; [|discriminate]
      end.
    - exists u. destruct (u =? 0); [now inversion E|].
      destruct (u =? 1); [now inversion E|discriminate].
    - exists u. now inversion E.
    - exists u. now inversion E.
    - exists u. now inversion E.
    - exists u. now inversion E.
    - exists u. now inversion E.
    - exists u. now inversion E.
    - exists u. now inversion E.
    - exists u. now inversion E. }
  destruct Hu as [u Hu]. split.
  - exact (SlReadUintAcc_skip _ _ _ _ _ Hu).
  - exact (SlReadUint_length _ _ _ _ Hu).
Qed.

Lemma SlResolveTableHeader_ok {Rec} (max_version : Z)
    (slt : list (SaveLoad Rec)) (slct : list string)
    (hdr : list (string * VarType)) :
  (exists tbl, SlResolveTableHeader max_version slt slct hdr = SlOk tbl)
  <-> Forall (fun e => (exists sld, sld ∈ slt /\ name sld = fst e)
                       \/ fst e ∈ slct) hdr.
Proof.
  induction hdr as [|e hdr IH]; cbn [SlResolveTableHeader].
  - split; eauto.
  - rewrite Forall_cons. rewrite <- IH, <- (SlResolveField_ok max_version).
    destruct (SlResolveField max_version slt slct e) as [sld|m].
    + destruct (SlResolveTableHeader max_version slt slct hdr) as [tbl|m].
      * split; eauto.
      * split; [intros [? [=]]|intros [_ [? [=]]]].
    + split; [intros [? [=]]|intros [[? [=]] _]].
Qed.

Lemma SlResolveTableHeader_bind {Rec} (max_version : Z)
    (slt : list (SaveLoad Rec)) (slct : list string)
    (hdr : list (string * VarType)) (tbl : list (SaveLoad Rec)) :
  SlResolveTableHeader max_version slt slct hdr = SlOk tbl ->
  Forall2 (fun e sld =>
             SlFindField slt (fst e) = Some sld
             \/ (SlFindField slt (fst e) = None /\ fst e ∈ slct
                 /\ sld = SL_NULL max_version (fst e) (snd e))) hdr tbl.
Proof.
  revert tbl. induction hdr as [|e hdr IH]; intros tbl;
    cbn [SlResolveTableHeader].
  - intros [= <-]. constructor.
  - destruct (SlResolveField max_version slt slct e) as [sld|m] eqn:Ee;
      [|discriminate].
    destruct (SlResolveTableHeader max_version slt slct hdr) as [tbl'|m];
      [|discriminate].
    intros [= <-]. constructor; [|now apply IH].
    unfold SlResolveField in Ee.
    destruct (SlFindField slt (fst e)) as [sld'|]; [left; congruence|].
    destruct (bool_decide_reflect (fst e ∈ slct)); [|discriminate].
    right. repeat split; [assumption|congruence].
Qed.

(** C4. Header resolution: it succeeds iff every listed name is the name
    of a descriptor of the current table or an entry of the compatibility
    history, and fails with corrupt-data otherwise; on success each name is
    bound to the current descriptor of that name, else to the placeholder
    of the type the header records; loading through the placeholder leaves
    the whole record as it was and takes off the stream what a field of
    that encoding takes, for a fixed-width type exactly its width. *)
Theorem header_resolution {Rec : Type} (max_len max_version v : Z)
    (slt : list (SaveLoad Rec)) (slct : list string)
    (hdr : list (string * VarType)) :
  ((exists tbl, SlResolveTableHeader max_version slt slct hdr = SlOk tbl)
   <-> Forall (fun e => (exists sld, sld ∈ slt /\ name sld = fst e)
                        \/ fst e ∈ slct) hdr)
  /\ ((exists e, e ∈ hdr /\ (forall sld, sld ∈ slt -> name sld <> fst e)
                 /\ fst e ∉ slct)
      -> exists m, SlResolveTableHeader max_version slt slct hdr
                   = SlErrorCorrupt m)
  /\ (forall tbl,
        SlResolveTableHeader max_version slt slct hdr = SlOk tbl ->
        Forall2 (fun e sld =>
                   SlFindField slt (fst e) = Some sld
                   \/ (SlFindField slt (fst e) = None /\ fst e ∈ slct
                       /\ sld = SL_NULL max_version (fst e) (snd e)))
                hdr tbl)
  /\ (forall (n : string) (t : VarType) (r : Rec) (s : list byte),
        0 <= v <= max_version ->
        SlObject_load max_len v [SL_NULL max_version n t] r s
        = (r, match SlReadValue max_len t s with
              | SlOk (_, s') => SlOk s'
              | SlErrorCorrupt m => SlErrorCorrupt m
              end)
        /\ (t <> SLE_STR ->
            forall x s', SlReadValue max_len t s = SlOk (x, s') ->
                         s' = drop (SlCalcConvFileLen t) s
                         /\ length s = (SlCalcConvFileLen t + length s')%nat)).
Proof.
  split; [apply SlResolveTableHeader_ok|].
  split; [|split; [apply SlResolveTableHeader_bind|]].
  - intros (e & Hin & Hcur & Hcompat).
    destruct (SlResolveTableHeader max_version slt slct hdr) as [tbl|m] eqn:E;
      [|eauto].
    exfalso.
    assert (Hall : Forall (fun e => (exists sld, sld ∈ slt /\ name sld = fst e)
                                    \/ fst e ∈ slct) hdr)
      by (apply (proj1 (SlResolveTableHeader_ok max_version slt slct hdr));
          eauto).
    rewrite Forall_forall in Hall.
    destruct (Hall e Hin) as [(sld & Hs & Hn)|Hc]; [|contradiction].
    exact (Hcur sld Hs Hn).
  - intros n t r s Hv. split.
    + cbn [SlObject_load]. unfold SlIsObjectValidInSavegame, SL_NULL.
      cbn [version_from version_to conv address var_set]. unfold SL_MIN_VERSION.
      destruct (Z.leb_spec 0 v); [|lia].
      destruct (Z.leb_spec v max_version); [|lia]. cbn [andb].
      now destruct (SlReadValue max_len t s) as [[x s']|m].
    + intros Ht x s'. now apply SlReadValue_fixed.
Qed.

(** ** The staging variables across a record *)

(** A load keeps every observation of the record that no active descriptor
    of the table disturbs, whether it succeeds or fails. *)
Lemma SlObject_load_preserves {Rec T : Type} (max_len v : Z) (f : Rec -> T)
    (slt : list (SaveLoad Rec)) :
  Forall (fun sld => SlIsObjectValidInSavegame v sld = true ->
                     forall x r, f (var_set (address sld) x r) = f r) slt ->
  forall (r : Rec) (s : list byte),
    f (fst (SlObject_load max_len v slt r s)) = f r.
Proof.
  induction 1 as [|sld slt' Hhd _ IH]; intros r s; [reflexivity|].
  cbn [SlObject_load].
  destruct (SlIsObjectValidInSavegame v sld) eqn:Hact; [|apply IH].
  destruct (SlReadValue max_len (conv sld) s) as [[x s']|m]; [|reflexivity].
  rewrite IH. now apply Hhd.
Qed.

Section StagingFacts.
Context `{Externals}.

Lemma globals_set_company_ai_config (index : Z) (c : AIConfig) (w : World) :
  globals (set_company_ai_config index c w) = globals w.
Proof. reflexivity. Qed.

Lemma SlObject_globals_load_fst (slt : list (SaveLoad Globals)) (w : World)
    (s : list byte) :
  fst (SlObject_globals_load slt w s)
  = with_globals
      (fst (SlObject_load SL_MAX_STRING (_sl_version w) slt (globals w) s)) w.
Proof.
  unfold SlObject_globals_load.
  now destruct (SlObject_load SL_MAX_STRING (_sl_version w) slt (globals w) s).
Qed.

(** The table a header resolves to holds descriptors of the current table
    and placeholders only. *)
Lemma SlCompatTableHeader_members {Rec} (max_len max_version : Z)
    (cur : list (SaveLoad Rec)) (slct : list string) (s s1 : list byte)
    (slt : list (SaveLoad Rec)) :
  SlCompatTableHeader max_len max_version cur slct s = SlOk (slt, s1) ->
  Forall (fun sld => sld ∈ cur
                     \/ exists n t, sld = SL_NULL max_version n t) slt.
Proof.
  unfold SlCompatTableHeader.
  destruct (SlReadTableHeader max_len s) as [[hdr s']|]; [|discriminate].
  destruct (SlResolveTableHeader max_version cur slct hdr) as [tbl|] eqn:E;
    [|discriminate].
  intros [= <- <-]. apply SlResolveTableHeader_bind in E.
  induction E as [|e sld hdr tbl Hb _ IH]; constructor; [|exact IH].
  destruct Hb as [Hf|(_ & _ & ->)]; [|right; eauto].
  left. now apply SlFindField_Some in Hf.
Qed.

(** Outside the range of "is_random" no descriptor of a resolved table
    stores to [_ai_saveload_is_random]. *)
Lemma company_load_is_random (v : Z) (slt : list (SaveLoad Globals))
    (g : Globals) (s : list byte) :
  Forall (fun sld => sld ∈ _ai_company_desc
                     \/ exists n t, sld = SL_NULL SL_MAX_VERSION n t) slt ->
  ~ (SLV_136 <= v <= SLV_AI_LOCAL_CONFIG) ->
  _ai_saveload_is_random (fst (SlObject_load SL_MAX_STRING v slt g s))
  = _ai_saveload_is_random g.
Proof.
  intros Hmem Hv. apply SlObject_load_preserves.
  eapply Forall_impl; [exact Hmem|]. clear Hmem.
  intros sld [Hin|(n & t & ->)] Hact x r; [|reflexivity].
  unfold _ai_company_desc in Hin.
  repeat (apply elem_of_cons in Hin as [->|Hin]); try reflexivity.
  - exfalso. apply Hv. unfold SlIsObjectValidInSavegame in Hact.
    cbn [version_from version_to SLEG_CONDVAR] in Hact.
    apply andb_true_iff in Hact as [H1 H2].
    apply Z.leb_le in H1, H2. lia.
  - inversion Hin.
Qed.

Lemma company_load_version (v : Z) (slt : list (SaveLoad Globals))
    (g : Globals) (s : list byte) :
  Forall (fun sld => sld ∈ _ai_company_desc
                     \/ exists n t, sld = SL_NULL SL_MAX_VERSION n t) slt ->
  ~ (SLV_108 <= v <= SL_MAX_VERSION) ->
  _ai_saveload_version (fst (SlObject_load SL_MAX_STRING v slt g s))
  = _ai_saveload_version g.
Proof.
  intros Hmem Hv. apply SlObject_load_preserves.
  eapply Forall_impl; [exact Hmem|]. clear Hmem.
  intros sld [Hin|(n & t & ->)] Hact x r; [|reflexivity].
  unfold _ai_company_desc in Hin.
  repeat (apply elem_of_cons in Hin as [->|Hin]); try reflexivity.
  - exfalso. apply Hv. unfold SlIsObjectValidInSavegame in Hact.
    cbn [version_from version_to SLEG_CONDVAR] in Hact.
    apply andb_true_iff in Hact as [H1 H2].
    apply Z.leb_le in H1, H2. lia.
  - inversion Hin.
Qed.

Lemma running_load_is_random (v : Z) (g : Globals) (s : list byte) :
  _ai_saveload_is_random (fst (SlObject_load SL_MAX_STRING v _ai_running_desc g s))
  = _ai_saveload_is_random g.
Proof.
  apply SlObject_load_preserves. unfold _ai_running_desc.
  repeat constructor; intros _ x r; reflexivity.
Qed.

Lemma running_load_version (v : Z) (g : Globals) (s : list byte) :
  ~ (SLV_AI_LOCAL_CONFIG <= v <= SL_MAX_VERSION) ->
  _ai_saveload_version (fst (SlObject_load SL_MAX_STRING v _ai_running_desc g s))
  = _ai_saveload_version g.
Proof.
  intros Hv. apply SlObject_load_preserves. unfold _ai_running_desc.
  repeat constructor; intros Hact x r; try reflexivity.
  exfalso. apply Hv. unfold SlIsObjectValidInSavegame in Hact.
  cbn [version_from version_to SLEG_CONDVAR] in Hact.
  apply andb_true_iff in Hact as [H1 H2].
  apply Z.leb_le in H1, H2. lia.
Qed.
End StagingFacts.

Section RecordFacts.
Context `{Externals}.

Lemma SlObject_globals_load_version (slt : list (SaveLoad Globals))
    (w : World) (s : list byte) :
  _sl_version (fst (SlObject_globals_load slt w s)) = _sl_version w.
Proof. now rewrite SlObject_globals_load_fst. Qed.

Lemma staged_defaults_company (slt : list (SaveLoad Globals)) (w : World)
    (s : list byte) :
  Forall (fun sld => sld ∈ _ai_company_desc
                     \/ exists n t, sld = SL_NULL SL_MAX_VERSION n t) slt ->
  staged_defaults (_sl_version w) (globals w) ->
  staged_defaults (_sl_version w)
                  (globals (fst (SlObject_globals_load slt w s))).
Proof.
  intros Hmem [Hr Hv]. rewrite SlObject_globals_load_fst. cbn [globals with_globals].
  split; intros Hn.
  - rewrite company_load_is_random by assumption. now apply Hr.
  - rewrite company_load_version by assumption. now apply Hv.
Qed.

Lemma staged_defaults_running (w : World) (s : list byte) :
  SLV_136 <= SLV_AI_LOCAL_CONFIG ->
  staged_defaults (_sl_version w) (globals w) ->
  staged_defaults (_sl_version w)
    (globals (fst (SlObject_globals_load _ai_running_desc w s))).
Proof.
  intros Hc [Hr Hv]. rewrite SlObject_globals_load_fst. cbn [globals with_globals].
  split; intros Hn.
  - rewrite running_load_is_random. now apply Hr.
  - rewrite running_load_version; [now apply Hv|].
    unfold SLV_136, SLV_108 in *. lia.
Qed.

Lemma staged_defaults_configure_running (v : Z) (g : Globals) :
  staged_defaults v g ->
  staged_defaults v (snd (fst (AIPL_configure_running g))).
Proof.
  intros [Hr Hv]. unfold AIPL_configure_running. cbv zeta.
  destruct (negb (HasScript _)); cbn [fst snd]; [|now split].
  split; intros Hn; cbn; [now apply Hr|reflexivity].
Qed.
End RecordFacts.

(** C9. The staging variables do not leak between records: whatever the
    previous record (or anything else) left in them, once the body of the
    loop of [Load] has run on a record, with the table the header resolved
    to, [_ai_saveload_is_random] is [false] when the version of the file is
    outside the range of "is_random", and [_ai_saveload_version] is [-1]
    when it is outside the range of "version"; this holds whether the body
    completes or raises. *)
Theorem staging_does_not_leak `{Externals} (w : World) (s0 s1 s : list byte)
    (slt : list (SaveLoad Globals)) (index : Z) :
  SLV_136 <= SLV_AI_LOCAL_CONFIG ->
  SlCompatTableHeader SL_MAX_STRING SL_MAX_VERSION _ai_company_desc
                      _ai_company_sl_compat s0 = SlOk (slt, s1) ->
  (~ (SLV_136 <= _sl_version w <= SLV_AI_LOCAL_CONFIG) ->
   _ai_saveload_is_random (globals (fst (AIPL_Load_record slt index w s)))
   = false)
  /\ (~ (SLV_108 <= _sl_version w <= SL_MAX_VERSION) ->
      _ai_saveload_version (globals (fst (AIPL_Load_record slt index w s)))
      = -1).
Proof.
  intros Hc Hhdr. apply SlCompatTableHeader_members in Hhdr.
  change (staged_defaults (_sl_version w)
            (globals (fst (AIPL_Load_record slt index w s)))).
  unfold AIPL_Load_record. cbv zeta.
  set (w0 := with_globals _ (with_globals _ w)).
  assert (H0 : staged_defaults (_sl_version w0) (globals w0)) by (split; reflexivity).
  change (_sl_version w) with (_sl_version w0).
  pose proof (staged_defaults_company slt w0 s Hhdr H0) as H1.
  pose proof (SlObject_globals_load_version slt w0 s) as V1.
  destruct (SlObject_globals_load slt w0 s) as [w1 [s2|m]]; cbn [fst] in *;
    [|exact H1].
  rewrite <- V1 in *. clear H0 V1.
  destruct (bool_decide (_game_mode w1 = GM_MENU)
            || _networking w1 && negb (_network_server w1)).
  - destruct (IsValidAiID w1 index); [|exact H1].
    pose proof (staged_defaults_running w1 s2 Hc H1) as H2.
    destruct (SlObject_globals_load _ai_running_desc w1 s2) as [w2 [s3|m]];
      cbn [fst] in *; [|exact H2].
    destruct (AIInstance_LoadEmpty s3); exact H2.
  - destruct (AIPL_configure (globals w1) (GetConfig_FORCE_GAME w1 index))
      as [config es].
    set (w2 := emit es _).
    change (staged_defaults (_sl_version w2) (globals w2)) in H1.
    change (_sl_version w1) with (_sl_version w2).
    destruct (negb (IsValidAiID w2 index)); [exact H1|].
    pose proof (staged_defaults_running w2 s2 Hc H1) as H2.
    pose proof (SlObject_globals_load_version _ai_running_desc w2 s2) as V2.
    destruct (SlObject_globals_load _ai_running_desc w2 s2) as [w3 [s3|m]];
      cbn [fst] in *; [|exact H2].
    rewrite <- V2 in *.
    pose proof (staged_defaults_configure_running _ _ H2) as H3.
    destruct (AIPL_configure_running (globals w3)) as [[config' g'] es'].
    cbn [fst snd] in H3. cbn [globals emit with_globals].
    rewrite !globals_set_company_ai_config. cbn [globals emit with_globals].
    destruct (AIInstance_Load (_ai_saveload_version g') s3) as [[data s4]|m];
      cbn [fst];
      repeat progress (rewrite ?globals_set_company_ai_config;
                       cbn [globals emit with_globals]);
      exact H3.
Qed.

Lemma staging_does_not_leak_witness :
  (~ (SLV_136 <= _sl_version example_old_world
      <= @SLV_AI_LOCAL_CONFIG example_externals) ->
   _ai_saveload_is_random
     (globals (fst (@AIPL_Load_record example_externals
                      (@_ai_company_desc example_externals) 0
                      example_old_world [])))
   = false)
  /\ (~ (SLV_108 <= _sl_version example_old_world
         <= @SL_MAX_VERSION example_externals) ->
      _ai_saveload_version
        (globals (fst (@AIPL_Load_record example_externals
                         (@_ai_company_desc example_externals) 0
                         example_old_world [])))
      = -1).
Proof.
  apply (@staging_does_not_leak example_externals example_old_world
           example_header [] [] (@_ai_company_desc example_externals) 0).
  - unfold SLV_136. simpl. lia.
  - reflexivity.
Defined.

(** ** The loop of [Load] *)

Section LoopFacts.
Context `{Externals}.

Lemma MAX_COMPANIES_range :
  0 <= MAX_COMPANIES < 256 ^ Z.of_nat CompanyID_size.
Proof.
  pose proof MAX_COMPANIES_fits as Hfit.
  apply andb_true_iff in Hfit as [Hlo Hhi].
  apply Z.leb_le in Hlo. apply Z.ltb_lt in Hhi. lia.
Qed.

Lemma to_CompanyID_range (x : Z) :
  0 <= to_CompanyID x < 256 ^ Z.of_nat CompanyID_size.
Proof. unfold to_CompanyID. apply Z.mod_pos_bound. lia. Qed.

Lemma to_CompanyID_minus_one :
  to_CompanyID (-1) = 256 ^ Z.of_nat CompanyID_size - 1.
Proof.
  unfold to_CompanyID.
  assert (Hpos : 0 < 256 ^ Z.of_nat CompanyID_size) by lia.
  symmetry. apply (Z.mod_unique _ _ (-1)); lia.
Qed.

(** A company of the build is its own [CompanyID], and not the [-1] of the
    type. *)
Lemma to_CompanyID_company (x : Z) :
  0 <= x < MAX_COMPANIES ->
  to_CompanyID x = x /\ to_CompanyID x <> to_CompanyID (-1).
Proof.
  intros Hx. pose proof MAX_COMPANIES_range as Hr.
  assert (E : to_CompanyID x = x) by (unfold to_CompanyID; apply Z.mod_small; lia).
  split; [exact E|]. rewrite E, to_CompanyID_minus_one. lia.
Qed.

Lemma SlIterateArray_shrinks (s : list byte) (index : Z)
    (body s' : list byte) :
  SlIterateArray s = SlOk (index, body, s') ->
  (length s' < length s)%nat.
Proof.
  unfold SlIterateArray.
  destruct (SlReadUint 4 s) as [[i s1]|] eqn:E1; [|discriminate].
  apply SlReadUint_length in E1.
  destruct (i =? SL_ARRAY_END); [intros [= _ _ <-]; lia|].
  destruct (SlReadUint 4 s1) as [[len s2]|] eqn:E2; [|discriminate].
  apply SlReadUint_length in E2.
  destruct (Z.of_nat (length s2) <? len); [discriminate|].
  intros [= _ _ <-]. rewrite length_drop. lia.
Qed.

(** The loop comes to an end: with more fuel than the stream has bytes it
    never runs out. *)
Lemma AIPL_Load_loop_total (fuel : nat) (slt : list (SaveLoad Globals))
    (w : World) (s : list byte) :
  (length s < fuel)%nat ->
  exists r, AIPL_Load_loop fuel slt w s = Some r.
Proof.
  revert w s. induction fuel as [|fuel IH]; intros w s Hf; [lia|].
  cbn [AIPL_Load_loop].
  destruct (SlIterateArray s) as [[[index body] s']|m] eqn:E; [|eauto].
  apply SlIterateArray_shrinks in E. cbv zeta.
  destruct (to_CompanyID index =? to_CompanyID (-1)); [eauto|].
  destruct (to_CompanyID index >=? MAX_COMPANIES); [eauto|].
  destruct (AIPL_Load_record slt (to_CompanyID index) w body)
    as [w' [r|m]]; [|eauto].
  apply IH. lia.
Qed.

Lemma AIPL_Load_loop_fuel (fuel fuel' : nat) (slt : list (SaveLoad Globals))
    (w : World) (s : list byte) r :
  AIPL_Load_loop fuel slt w s = Some r ->
  (fuel <= fuel')%nat ->
  AIPL_Load_loop fuel' slt w s = Some r.
Proof.
  revert fuel' w s. induction fuel as [|fuel IH]; intros fuel' w s E Hle;
    [discriminate|].
  destruct fuel' as [|fuel']; [lia|]. cbn [AIPL_Load_loop] in *.
  destruct (SlIterateArray s) as [[[index body] s']|m]; [|exact E].
  cbv zeta in *.
  destruct (to_CompanyID index =? to_CompanyID (-1)); [exact E|].
  destruct (to_CompanyID index >=? MAX_COMPANIES); [exact E|].
  destruct (AIPL_Load_record slt (to_CompanyID index) w body)
    as [w' [r'|m]]; [|exact E].
  apply IH; [exact E|lia].
Qed.

(** [Load] is the loop run to its end on the cleared world. *)
Lemma AIPL_Load_unfold (w : World) (s s1 : list byte)
    (slt : list (SaveLoad Globals)) (fuel : nat) r :
  SlCompatTableHeader SL_MAX_STRING SL_MAX_VERSION _ai_company_desc
                      _ai_company_sl_compat s = SlOk (slt, s1) ->
  AIPL_Load_loop fuel slt (AIPL_clear w) s1 = Some r ->
  AIPL_Load w s = r.
Proof.
  intros Hh E. unfold AIPL_Load. rewrite Hh.
  destruct (AIPL_Load_loop_total (S (length s1)) slt (AIPL_clear w) s1)
    as [r' E']; [lia|].
  rewrite E'. change (r' = r).
  destruct (Nat.le_ge_cases fuel (S (length s1))) as [Hle|Hle].
  - rewrite (AIPL_Load_loop_fuel _ _ _ _ _ _ E Hle) in E'. congruence.
  - rewrite (AIPL_Load_loop_fuel _ _ _ _ _ _ E' Hle) in E. congruence.
Qed.

Lemma AIPL_Load_loop_too_many (fuel : nat) (slt : list (SaveLoad Globals))
    (w : World) (s : list byte) (raw : Z) (body s' : list byte) :
  SlIterateArray s = SlOk (raw, body, s') ->
  to_CompanyID raw <> to_CompanyID (-1) ->
  MAX_COMPANIES <= to_CompanyID raw ->
  AIPL_Load_loop (S fuel) slt w s
  = Some (w, SlErrorCorrupt "Too many AI configs").
Proof.
  intros E Hs Hm. cbn [AIPL_Load_loop]. rewrite E. cbv zeta.
  destruct (Z.eqb_spec (to_CompanyID raw) (to_CompanyID (-1)));
    [contradiction|].
  destruct (Z.geb_spec (to_CompanyID raw) MAX_COMPANIES); [reflexivity|lia].
Qed.

Lemma AIPL_Load_loop_applied (slt : list (SaveLoad Globals))
    (w : World) (s : list byte) (w' : World) (s' : list byte) :
  records_applied slt w s w' s' ->
  forall fuel r,
    AIPL_Load_loop fuel slt w' s' = Some r ->
    exists fuel', AIPL_Load_loop fuel' slt w s = Some r.
Proof.
  induction 1 as [w s|w s index body s1 r0 w1 w2 s2 Hit Hs Hm Hrec _ IH];
    intros fuel r E; [eauto|].
  destruct (IH fuel r E) as [fuel' E'].
  exists (S fuel'). cbn [AIPL_Load_loop]. rewrite Hit. cbv zeta.
  destruct (Z.eqb_spec (to_CompanyID index) (to_CompanyID (-1)));
    [contradiction|].
  destruct (Z.geb_spec (to_CompanyID index) MAX_COMPANIES); [lia|].
  now rewrite Hrec.
Qed.
End LoopFacts.




(** C8, as the code has it. A corrupt-data failure stops [Load] at once and
    reaches the caller, and the handler rolls nothing back: when the index
    read after some records is, as a [CompanyID], neither the [-1] of the
    type nor below [MAX_COMPANIES], [Load] returns corrupt-data
    together with the world in which the slots have been cleared and those
    records applied; nothing of the failing record or of what follows it is
    read. *)
Theorem corrupt_index_aborts_without_rollback `{Externals} (w : World)
    (s s1 : list byte) (slt : list (SaveLoad Globals)) (wk : World)
    (sk : list byte) (raw : Z) (body s' : list byte) :
  SlCompatTableHeader SL_MAX_STRING SL_MAX_VERSION _ai_company_desc
                      _ai_company_sl_compat s = SlOk (slt, s1) ->
  records_applied slt (AIPL_clear w) s1 wk sk ->
  SlIterateArray sk = SlOk (raw, body, s') ->
  to_CompanyID raw <> to_CompanyID (-1) ->
  MAX_COMPANIES <= to_CompanyID raw ->
  AIPL_Load w s = (wk, SlErrorCorrupt "Too many AI configs").
Proof.
  intros Hh Happ Hit Hs Hm.
  pose proof (AIPL_Load_loop_too_many 0 slt wk sk raw body s' Hit Hs Hm) as E.
  destruct (AIPL_Load_loop_applied slt _ _ _ _ Happ _ _ E) as [fuel E'].
  exact (AIPL_Load_unfold w s s1 slt fuel _ Hh E').
Qed.

Lemma corrupt_index_aborts_without_rollback_witness :
  @AIPL_Load example_externals example_world example_bad_chunk
  = (fst (@AIPL_Load_record example_externals
            (@_ai_company_desc example_externals) 1
            (@AIPL_clear example_externals example_world)
            example_company_record),
     SlErrorCorrupt "Too many AI configs").
Proof.
  apply (@corrupt_index_aborts_without_rollback example_externals
           example_world example_bad_chunk
           (SlSetArrayIndex 1 ++ SlAutolength example_company_record
            ++ SlSetArrayIndex 15 ++ SlAutolength []
            ++ SlWriteUint 4 SL_ARRAY_END)
           (@_ai_company_desc example_externals)
           (fst (@AIPL_Load_record example_externals
                   (@_ai_company_desc example_externals) 1
                   (@AIPL_clear example_externals example_world)
                   example_company_record))
           (SlSetArrayIndex 15 ++ SlAutolength [] ++ SlWriteUint 4 SL_ARRAY_END)
           15 [] (SlWriteUint 4 SL_ARRAY_END)).
  - reflexivity.
  - apply (@records_applied_cons example_externals _ _ _ 1
             example_company_record
             (SlSetArrayIndex 15 ++ SlAutolength []
              ++ SlWriteUint 4 SL_ARRAY_END) []
             (fst (@AIPL_Load_record example_externals
                     (@_ai_company_desc example_externals) 1
                     (@AIPL_clear example_externals example_world)
                     example_company_record))).
    + vm_compute. reflexivity.
    + vm_compute. discriminate.
    + vm_compute. reflexivity.
    + vm_compute. reflexivity.
    + apply records_applied_nil.
  - vm_compute. reflexivity.
  - vm_compute. discriminate.
  - vm_compute. discriminate.
Defined.

(** C8 as the specification states it does not hold: on
    [example_bad_chunk] the load
    raises corrupt-data at the bound check of the second index, and by then
    the slot of company 0, configured before the load, has been cleared and
    the slot of company 1 has taken the first record. *)
Lemma corrupt_load_commits_partially :
  snd (@AIPL_Load example_externals example_world example_bad_chunk)
  = SlErrorCorrupt "Too many AI configs"
  /\ option_map cfg_name (game_ai_config example_world !! 0) = Some "AdmiralAI"
  /\ option_map cfg_name
       (game_ai_config
          (fst (@AIPL_Load example_externals example_world example_bad_chunk))
        !! 0) = Some EmptyString
  /\ option_map cfg_name (game_ai_config example_world !! 1) = None
  /\ option_map cfg_name
       (game_ai_config
          (fst (@AIPL_Load example_externals example_world example_bad_chunk))
        !! 1) = Some "AdmiralAI".
Proof. vm_compute. repeat split; reflexivity. Qed.

(** ** Scripts that are no longer available *)

Section FallbackFacts.
Context `{Externals}.

Lemma HasScript_Change (n : string) (version : Z) (c : AIConfig) :
  HasScript (Change (Some n) version false c)
  = match FindInfo n version false with Some _ => true | None => false end.
Proof. unfold HasScript, Change. cbn. reflexivity. Qed.

End FallbackFacts.



Lemma lookup_set_cfg (k j : Z) (c : AIConfig) (m : gmap Z Company) :
  set_cfg k c m !! j
  = if bool_decide (k = j)
    then option_map (fun co => mkCompany (is_ai co) (Some c)) (m !! j)
    else m !! j.
Proof.
  unfold set_cfg. destruct (bool_decide_reflect (k = j)) as [->|Hne].
  - destruct (m !! j) as [co|] eqn:E; cbn; [now rewrite lookup_insert_eq|exact E].
  - destruct (m !! k) as [co|]; [now rewrite lookup_insert_ne|reflexivity].
Qed.

Lemma AIPL_configure_running_unavailable `{Externals} (g : Globals)
    (i : ScriptInfo) :
  FindInfo (_ai_saveload_name g) (_ai_saveload_version g) false = None ->
  FindInfo (_ai_saveload_name g) (-1) false = Some i ->
  AIPL_configure_running g
  = (Change (Some (_ai_saveload_name g)) (-1) false new_AIConfig,
     set_version (-1) g,
     [DebugNoLongerAvailable (_ai_saveload_name g) (_ai_saveload_version g);
      DebugLatestLoadedIncompatible]).
Proof.
  intros Hf Hl. unfold AIPL_configure_running. cbv zeta.
  rewrite !HasScript_Change, Hf, Hl. reflexivity.
Qed.

Lemma events_set_company_ai_config (index : Z) (c : AIConfig) (w : World) :
  events (set_company_ai_config index c w) = events w.
Proof. reflexivity. Qed.

(** C10. A running AI whose saved name and version the registry does not
    have, while it has a latest version of the name: the latest version is
    configured for the company, the staged version is set to [-1], and
    [AIInstance::Load] is called once, after that, with [-1]; what the
    record returns is what that call returns. *)
Theorem substitute_gets_no_saved_data `{Externals}
    (slt : list (SaveLoad Globals)) (index : Z) (w w1 w2 w3 : World)
    (s s1 s2 : list byte) (config : AIConfig) (es : list Event)
    (i : ScriptInfo) :
  SlObject_globals_load slt
    (with_globals
       (set_version (-1)
          (globals (with_globals (set_is_random false (globals w)) w)))
       (with_globals (set_is_random false (globals w)) w)) s
  = (w1, SlOk s1) ->
  bool_decide (_game_mode w1 = GM_MENU)
  || (_networking w1 && negb (_network_server w1)) = false ->
  AIPL_configure (globals w1) (GetConfig_FORCE_GAME w1 index) = (config, es) ->
  w2 = emit es
         (with_game_ai_config
            (<[index := StringToSettings (_ai_saveload_settings (globals w1))
                                         config]>
               (game_ai_config w1)) w1) ->
  IsValidAiID w2 index = true ->
  SlObject_globals_load _ai_running_desc w2 s1 = (w3, SlOk s2) ->
  FindInfo (_ai_saveload_name (globals w3))
           (_ai_saveload_version (globals w3)) false = None ->
  FindInfo (_ai_saveload_name (globals w3)) (-1) false = Some i ->
  events (fst (AIPL_Load_record slt index w s))
  = events w3
    ++ [DebugNoLongerAvailable (_ai_saveload_name (globals w3))
                               (_ai_saveload_version (globals w3));
        DebugLatestLoadedIncompatible]
    ++ [CallLoad (-1)]
  /\ _ai_saveload_version (globals (fst (AIPL_Load_record slt index w s))) = -1
  /\ snd (AIPL_Load_record slt index w s)
     = match AIInstance_Load (-1) s2 with
       | SlOk (_, s3) => SlOk s3
       | SlErrorCorrupt m => SlErrorCorrupt m
       end
  /\ option_map (fun co => option_map cfg_info (ai_config co))
                (companies (fst (AIPL_Load_record slt index w s)) !! index)
     = option_map (fun _ => Some (Some i)) (companies w3 !! index).
Proof.
  intros Hload Hmode Hcfg -> Hai Hrun Hf Hl.
  unfold AIPL_Load_record. cbv zeta.
  rewrite Hload, Hmode, Hcfg. cbv zeta. rewrite Hai. cbn [negb].
  rewrite Hrun, (AIPL_configure_running_unavailable _ i Hf Hl).
  cbn [globals emit with_globals].
  rewrite !globals_set_company_ai_config. cbn [globals emit with_globals].
  change (_ai_saveload_version (set_version (-1) (globals w3))) with (-1).
  destruct (AIInstance_Load (-1) s2) as [[data s3]|m]; cbn [fst snd];
    repeat progress (rewrite ?globals_set_company_ai_config,
                       ?events_set_company_ai_config;
                     cbn [globals events emit with_globals]);
    (split; [now rewrite <- app_assoc|]);
    (split; [reflexivity|]); (split; [reflexivity|]).
  - unfold set_company_ai_config.
    cbn [companies with_companies emit with_globals].
    rewrite !lookup_set_cfg, bool_decide_eq_true_2 by reflexivity.
    destruct (companies w3 !! index) as [co|]; cbn; [|reflexivity].
    now rewrite Hl.
  - unfold set_company_ai_config.
    cbn [companies with_companies emit with_globals].
    rewrite !lookup_set_cfg, bool_decide_eq_true_2 by reflexivity.
    destruct (companies w3 !! index) as [co|]; cbn; [|reflexivity].
    now rewrite Hl.
Qed.

Lemma substitute_gets_no_saved_data_witness :
  events (fst example_running_result)
  = events example_after_running
    ++ [DebugNoLongerAvailable
          (_ai_saveload_name (globals example_after_running))
          (_ai_saveload_version (globals example_after_running));
        DebugLatestLoadedIncompatible]
    ++ [CallLoad (-1)]
  /\ _ai_saveload_version (globals (fst example_running_result)) = -1
  /\ snd example_running_result
     = match @AIInstance_Load example_externals (-1) [] with
       | SlOk (_, s3) => SlOk s3
       | SlErrorCorrupt m => SlErrorCorrupt m
       end
  /\ option_map (fun co => option_map cfg_info (ai_config co))
                (companies (fst example_running_result) !! 1)
     = option_map (fun _ => Some (Some (mkScriptInfo "AdmiralAI" 25)))
                  (companies example_after_running !! 1).
Proof.
  apply (@substitute_gets_no_saved_data example_externals
           (@_ai_company_desc example_externals) 1 example_world
           example_after_fields example_configured example_after_running
           example_unavailable_record [] []
           (fst (@AIPL_configure example_externals
                   (globals example_after_fields)
                   (GetConfig_FORCE_GAME example_after_fields 1)))
           (snd (@AIPL_configure example_externals
                   (globals example_after_fields)
                   (GetConfig_FORCE_GAME example_after_fields 1)))
           (mkScriptInfo "AdmiralAI" 25)).
  - vm_compute. reflexivity.
  - vm_compute. reflexivity.
  - vm_compute. reflexivity.
  - vm_compute. reflexivity.
  - vm_compute. reflexivity.
  - vm_compute. reflexivity.
  - vm_compute. reflexivity.
  - vm_compute. reflexivity.
Defined.

(** ** Arrays *)

Lemma SlIterateArray_record (index : Z) (body rest : list byte) :
  0 <= index < SL_ARRAY_END ->
  Z.of_nat (length body) < 256 ^ 4 ->
  SlIterateArray (SlSetArrayIndex index ++ SlAutolength body ++ rest)
  = SlOk (index, body, rest).
Proof.
  intros Hi Hb. unfold SlIterateArray, SlSetArrayIndex, SlAutolength, SL_ARRAY_END in *.
  rewrite SlReadUint_write. change (Z.of_nat 4) with 4.
  rewrite Z.mod_small by lia.
  destruct (Z.eqb_spec index 4294967295); [lia|].
  rewrite <- app_assoc, SlReadUint_write. change (Z.of_nat 4) with 4.
  rewrite Z.mod_small by lia.
  rewrite length_app.
  destruct (Z.ltb_spec (Z.of_nat (length body + length rest))
                       (Z.of_nat (length body))); [lia|].
  now rewrite Nat2Z.id, take_app_length, drop_app_length.
Qed.

Lemma SlIterateArray_end (rest : list byte) :
  SlIterateArray (SlWriteUint 4 SL_ARRAY_END ++ rest) = SlOk (-1, [], rest).
Proof.
  unfold SlIterateArray. rewrite SlReadUint_write. reflexivity.
Qed.



(** ** Loading twice *)

Section ReloadEngineFacts.
Context {Rec : Type}.
Variable max_len : Z.
Variable v : Z.



End ReloadEngineFacts.

Section ReloadFacts.
Context `{Externals}.

Lemma Globals_eq (ga gb : Globals) :
  _ai_saveload_name ga = _ai_saveload_name gb ->
  _ai_saveload_version ga = _ai_saveload_version gb ->
  _ai_saveload_settings ga = _ai_saveload_settings gb ->
  _ai_saveload_is_random ga = _ai_saveload_is_random gb ->
  ga = gb.
Proof. destruct ga, gb; cbn; congruence. Qed.


End ReloadFacts.

(** ** Replacing the configurations of companies *)

Lemma apply_cfgs_app (l1 l2 : list (Z * AIConfig)) (m : gmap Z Company) :
  apply_cfgs (l1 ++ l2) m = apply_cfgs l2 (apply_cfgs l1 m).
Proof. unfold apply_cfgs. apply foldl_app. Qed.

Lemma last_cfg_snoc (l : list (Z * AIConfig)) (kc : Z * AIConfig) (j : Z) :
  last_cfg (l ++ [kc]) j
  = if bool_decide (fst kc = j) then Some (snd kc) else last_cfg l j.
Proof. unfold last_cfg. now rewrite foldl_app. Qed.

Lemma lookup_apply_cfgs (l : list (Z * AIConfig)) (m : gmap Z Company) (j : Z) :
  apply_cfgs l m !! j
  = option_map (fun co => mkCompany (is_ai co)
                            (match last_cfg l j with
                             | Some c => Some c
                             | None => ai_config co
                             end)) (m !! j).
Proof.
  induction l as [|[k c] l IH] using rev_ind.
  - cbn. destruct (m !! j) as [[ia cfg]|]; reflexivity.
  - rewrite apply_cfgs_app, last_cfg_snoc. cbn [apply_cfgs foldl fst snd].
    rewrite lookup_set_cfg, IH.
    destruct (bool_decide (k = j)); [|reflexivity].
    now destruct (m !! j).
Qed.




(** ** What a record does to a world *)

Lemma World_eq (a b : World) :
  globals a = globals b -> _sl_version a = _sl_version b ->
  _game_mode a = _game_mode b -> _networking a = _networking b ->
  _network_server a = _network_server b ->
  game_ai_config a = game_ai_config b -> companies a = companies b ->
  events a = events b -> a = b.
Proof. destruct a, b; cbn; congruence. Qed.

Lemma apply_delta_app (d1 d2 : Delta) (w : World) :
  apply_delta d2 (apply_delta d1 w) = apply_delta (delta_app d1 d2) w.
Proof.
  unfold apply_delta, delta_app.
  cbn [globals _sl_version _game_mode _networking _network_server
       game_ai_config companies events d_globals d_slots d_cfgs d_events].
  f_equal.
  - now destruct (d_globals d2).
  - unfold set_slots. now rewrite foldl_app.
  - now rewrite apply_cfgs_app.
  - now rewrite app_assoc.
Qed.


Lemma SlObject_globals_load_eq `{Externals} (slt : list (SaveLoad Globals))
    (w : World) (s : list byte) :
  SlObject_globals_load slt w s
  = (with_globals
       (fst (SlObject_load SL_MAX_STRING (_sl_version w) slt (globals w) s)) w,
     snd (SlObject_load SL_MAX_STRING (_sl_version w) slt (globals w) s)).
Proof.
  unfold SlObject_globals_load.
  now destruct (SlObject_load SL_MAX_STRING (_sl_version w) slt (globals w) s).
Qed.

Ltac world_eq :=
  apply World_eq;
  cbn [globals _sl_version _game_mode _networking _network_server
       game_ai_config companies events with_globals with_game_ai_config
       with_companies set_company_ai_config emit apply_delta
       d_globals d_slots d_cfgs d_events default from_option id
       apply_cfgs set_slots foldl fst snd];
  rewrite <- ?app_assoc, ?app_nil_r; try reflexivity.

(** The body of the loop is [record_delta] applied to the world. *)
Lemma AIPL_Load_record_delta `{Externals} (slt : list (SaveLoad Globals))
    (index : Z) (w : World) (s : list byte) :
  AIPL_Load_record slt index w s
  = match SlObject_load SL_MAX_STRING (_sl_version w) slt
            (set_version (-1) (set_is_random false (globals w))) s with
    | (g1, SlErrorCorrupt m) => (with_globals g1 w, SlErrorCorrupt m)
    | (g1, SlOk s1) =>
        let '(d, r) :=
          record_delta (_sl_version w)
            (bool_decide (_game_mode w = GM_MENU)
             || (_networking w && negb (_network_server w)))
            (IsValidAiID w index) (GetConfig_FORCE_GAME w index) index g1 s1 in
        (apply_delta d w, r)
    end.
Proof.
  unfold AIPL_Load_record, record_delta. cbv zeta.
  rewrite !SlObject_globals_load_eq.
  cbn [globals _sl_version _game_mode _networking _network_server
       with_globals fst snd].
  destruct (SlObject_load SL_MAX_STRING (_sl_version w) slt
              (set_version (-1) (set_is_random false (globals w))) s)
    as [g1 [s1|m]]; cbn [fst snd]; [|reflexivity].
  unfold IsValidAiID, GetConfig_FORCE_GAME.
  cbn [globals _sl_version _game_mode _networking _network_server
       game_ai_config companies with_globals with_game_ai_config emit fst snd].
  destruct (bool_decide (_game_mode w = GM_MENU)
            || _networking w && negb (_network_server w)).
  - destruct (match companies w !! index with
              | Some c => is_ai c | None => false end).
    + rewrite SlObject_globals_load_eq. cbn [globals _sl_version with_globals].
      destruct (SlObject_load SL_MAX_STRING (_sl_version w) _ai_running_desc
                              g1 s1) as [g2 [s2|m]]; cbn [fst snd].
      * destruct (AIInstance_LoadEmpty s2); f_equal; try world_eq.
      * f_equal; try world_eq.
    + f_equal; try world_eq.
  - destruct (AIPL_configure g1
                (default new_AIConfig (game_ai_config w !! index)))
      as [config es].
    destruct (match companies w !! index with
              | Some c => is_ai c | None => false end); cbn [negb].
    + rewrite SlObject_globals_load_eq.
      cbn [globals _sl_version with_globals with_game_ai_config emit].
      destruct (SlObject_load SL_MAX_STRING (_sl_version w) _ai_running_desc
                              g1 s1) as [g2 [s2|m]]; cbn [fst snd].
      * cbn [globals _sl_version with_globals with_game_ai_config emit].
        destruct (AIPL_configure_running g2) as [[config' g3] es'].
        cbn [globals with_globals with_game_ai_config with_companies
             set_company_ai_config emit].
        destruct (AIInstance_Load (_ai_saveload_version g3) s2)
          as [[data s3]|m]; f_equal; try world_eq.
      * f_equal; try world_eq.
    + f_equal; try world_eq.
Qed.

Section ReloadLoopFacts.
Context `{Externals}.

Lemma record_delta_shape (v : Z) (menu valid : bool) (config0 : AIConfig)
    (index : Z) (g1 : Globals) (s1 : list byte) :
  Forall (fun kc => fst kc = index)
         (d_slots (fst (record_delta v menu valid config0 index g1 s1))).
Proof.
  unfold record_delta. cbv zeta.
  destruct menu.
  - destruct valid; [|constructor].
    destruct (SlObject_load SL_MAX_STRING v _ai_running_desc g1 s1)
      as [g2 [s2|m]]; constructor.
  - destruct (AIPL_configure g1 config0) as [config es].
    destruct valid; cbn [negb]; [|repeat constructor].
    destruct (SlObject_load SL_MAX_STRING v _ai_running_desc g1 s1)
      as [g2 [s2|m]]; [|repeat constructor].
    destruct (AIPL_configure_running g2) as [[config' g3] es'].
    destruct (AIInstance_Load (_ai_saveload_version g3) s2) as [[data s3]|m];
      repeat constructor.
Qed.

End ReloadLoopFacts.

Lemma SlReadUintAcc_nonneg (w : nat) (acc : Z) (s : list byte) u s' :
  0 <= acc -> SlReadUintAcc w acc s = SlOk (u, s') -> 0 <= u.
Proof.
  revert acc s. induction w as [|k IH]; intros acc s Hacc E; simpl in E.
  - inversion E. now subst.
  - destruct s as [|b s0]; [discriminate|].
    apply IH in E; [exact E|]. pose proof (Z_of_byte_range b). lia.
Qed.

Lemma SlIterateArray_index (s : list byte) (index : Z) (body s' : list byte) :
  SlIterateArray s = SlOk (index, body, s') -> index = -1 \/ 0 <= index.
Proof.
  unfold SlIterateArray.
  destruct (SlReadUint 4 s) as [[i s1]|] eqn:E1; [|discriminate].
  apply SlReadUintAcc_nonneg in E1; [|lia].
  destruct (i =? SL_ARRAY_END); [intros [= <- _ _]; now left|].
  destruct (SlReadUint 4 s1) as [[len s2]|]; [|discriminate].
  destruct (Z.of_nat (length s2) <? len); [discriminate|].
  intros [= <- _ _]. now right.
Qed.

Section ReloadLoop.
Context `{Externals}.

End ReloadLoop.

Section ClearFacts.
Context `{Externals}.

Lemma lookup_set_slots_other (l : list (Z * AIConfig)) (m : gmap Z AIConfig)
    (k : Z) :
  Forall (fun kc => fst kc <> k) l -> set_slots l m !! k = m !! k.
Proof.
  unfold set_slots. revert m. induction l as [|[j c] l IH]; intros m Hl;
    [reflexivity|].
  cbn [foldl fst snd]. inversion Hl as [|? ? Hj Hl']; subst.
  rewrite IH by assumption. now apply lookup_insert_ne.
Qed.

(** Clearing the slots of a list of companies touches nothing else. *)
Lemma AIPL_clear_fold (l : list Z) (w : World) :
  let w' := foldl (fun w c =>
                     with_game_ai_config
                       (<[c := Change None (-1) false (GetConfig_FORCE_GAME w c)]>
                          (game_ai_config w)) w) w l in
  globals w' = globals w /\ _sl_version w' = _sl_version w
  /\ _game_mode w' = _game_mode w /\ _networking w' = _networking w
  /\ _network_server w' = _network_server w
  /\ companies w' = companies w /\ events w' = events w
  /\ forall k, game_ai_config w' !! k
               = if bool_decide (k ∈ l) then Some new_AIConfig
                 else game_ai_config w !! k.
Proof.
  induction l as [|c l IH] using rev_ind; cbv zeta in *.
  - repeat split.
  - rewrite foldl_app. cbn [foldl].
    destruct IH as (Hg & Hv & Hm & Hn & Hs & Hc & He & Hl).
    cbn [globals _sl_version _game_mode _networking _network_server
         game_ai_config companies events with_game_ai_config].
    repeat split; try assumption.
    intros k. destruct (decide (c = k)) as [->|Hne].
    + rewrite lookup_insert_eq, bool_decide_eq_true_2; [reflexivity|].
      apply elem_of_app. right. now left.
    + rewrite lookup_insert_ne, Hl by assumption.
      rewrite (bool_decide_ext (k ∈ l ++ [c]) (k ∈ l)); [reflexivity|].
      rewrite elem_of_app, list_elem_of_singleton.
      split; [|tauto]. intros [Hin| ->]; [exact Hin|contradiction].
Qed.

End ClearFacts.




(** ** What [Load] leaves alone *)

Section LoadFrame.
Context `{Externals}.

Lemma record_delta_cfgs_shape (v : Z) (menu valid : bool) (config0 : AIConfig)
    (index : Z) (g1 : Globals) (s1 : list byte) :
  Forall (fun kc => fst kc = index)
         (d_cfgs (fst (record_delta v menu valid config0 index g1 s1))).
Proof.
  unfold record_delta. cbv zeta.
  destruct menu.
  - destruct valid; [|constructor].
    destruct (SlObject_load SL_MAX_STRING v _ai_running_desc g1 s1)
      as [g2 [s2|m]]; constructor.
  - destruct (AIPL_configure g1 config0) as [config es].
    destruct valid; cbn [negb]; [|repeat constructor].
    destruct (SlObject_load SL_MAX_STRING v _ai_running_desc g1 s1)
      as [g2 [s2|m]]; [|repeat constructor].
    destruct (AIPL_configure_running g2) as [[config' g3] es'].
    destruct (AIInstance_Load (_ai_saveload_version g3) s2) as [[data s3]|m];
      repeat constructor.
Qed.

Lemma record_delta_menu (v : Z) (valid : bool) (config0 : AIConfig)
    (index : Z) (g1 : Globals) (s1 : list byte) :
  d_slots (fst (record_delta v true valid config0 index g1 s1)) = []
  /\ d_cfgs (fst (record_delta v true valid config0 index g1 s1)) = [].
Proof.
  unfold record_delta.
  destruct valid; [|now split].
  destruct (SlObject_load SL_MAX_STRING v _ai_running_desc g1 s1)
    as [g2 [s2|m]]; now split.
Qed.

(** Whatever a record does, and whether it can be read or not, it is a
    change of the staging variables, of the slot of its index and of the
    configuration of the company of its index, and an addition to the log. *)
Lemma AIPL_Load_record_any (slt : list (SaveLoad Globals)) (index : Z)
    (w : World) (s : list byte) :
  exists d : Delta,
    fst (AIPL_Load_record slt index w s) = apply_delta d w
    /\ Forall (fun kc => fst kc = index) (d_slots d)
    /\ Forall (fun kc => fst kc = index) (d_cfgs d)
    /\ (menu_or_client w = true -> d_slots d = [] /\ d_cfgs d = []).
Proof.
  rewrite AIPL_Load_record_delta.
  destruct (SlObject_load SL_MAX_STRING (_sl_version w) slt
              (set_version (-1) (set_is_random false (globals w))) s)
    as [g1 [s1|m]].
  - pose proof (record_delta_shape (_sl_version w) (menu_or_client w)
                  (IsValidAiID w index) (GetConfig_FORCE_GAME w index)
                  index g1 s1) as Hs.
    pose proof (record_delta_cfgs_shape (_sl_version w) (menu_or_client w)
                  (IsValidAiID w index) (GetConfig_FORCE_GAME w index)
                  index g1 s1) as Hc.
    pose proof (record_delta_menu (_sl_version w)
                  (IsValidAiID w index) (GetConfig_FORCE_GAME w index)
                  index g1 s1) as Hm.
    unfold menu_or_client in *.
    destruct (bool_decide (_game_mode w = GM_MENU)
              || _networking w && negb (_network_server w)) eqn:Em.
    + destruct (record_delta (_sl_version w) true (IsValidAiID w index)
                  (GetConfig_FORCE_GAME w index) index g1 s1) as [d r].
      exists d. cbn [fst] in *. repeat split; try assumption; apply Hm.
    + destruct (record_delta (_sl_version w) false (IsValidAiID w index)
                  (GetConfig_FORCE_GAME w index) index g1 s1) as [d r].
      exists d. cbn [fst] in *. repeat split; try assumption; discriminate.
  - exists (mkDelta (Some g1) [] [] []). cbn [fst d_slots d_cfgs].
    repeat split; try constructor. world_eq.
Qed.

Lemma menu_or_client_apply_delta (d : Delta) (w : World) :
  menu_or_client (apply_delta d w) = menu_or_client w.
Proof. reflexivity. Qed.

(** The same for the loop, with the indices within the companies of the
    build. *)
Lemma AIPL_Load_loop_any (fuel : nat) (slt : list (SaveLoad Globals))
    (w w' : World) (s : list byte) (r : SlResult (list byte)) :
  AIPL_Load_loop fuel slt w s = Some (w', r) ->
  exists d : Delta,
    w' = apply_delta d w
    /\ Forall (fun kc => 0 <= fst kc < MAX_COMPANIES) (d_slots d)
    /\ Forall (fun kc => 0 <= fst kc < MAX_COMPANIES) (d_cfgs d)
    /\ (menu_or_client w = true -> d_slots d = [] /\ d_cfgs d = []).
Proof.
  assert (Hid : forall w, apply_delta (mkDelta None [] [] []) w = w)
    by (intros w0; world_eq).
  assert (Hnone : forall w0 : World, exists d : Delta,
             w0 = apply_delta d w0
             /\ Forall (fun kc => 0 <= fst kc < MAX_COMPANIES) (d_slots d)
             /\ Forall (fun kc => 0 <= fst kc < MAX_COMPANIES) (d_cfgs d)
             /\ (menu_or_client w0 = true -> d_slots d = [] /\ d_cfgs d = [])).
  { intros w0. exists (mkDelta None [] [] []). rewrite Hid.
    repeat split; constructor. }
  revert w s. induction fuel as [|fuel IH]; intros w s Hloop; [discriminate|].
  cbn [AIPL_Load_loop] in Hloop.
  destruct (SlIterateArray s) as [[[raw body] s1]|m] eqn:Eit.
  2:{ injection Hloop as <- _. apply Hnone. }
  cbv zeta in Hloop.
  pose proof (to_CompanyID_range raw) as Hidx.
  set (index := to_CompanyID raw) in *.
  destruct (Z.eqb_spec index (to_CompanyID (-1))) as [Heq|Hne].
  { injection Hloop as <- _. apply Hnone. }
  destruct (Z.geb_spec index MAX_COMPANIES) as [Hge|Hlt].
  { injection Hloop as <- _. apply Hnone. }
  destruct (AIPL_Load_record_any slt index w body)
    as (d1 & E1 & Hs1 & Hc1 & Hm1).
  assert (Hrange : forall l : list (Z * AIConfig),
             Forall (fun kc => fst kc = index) l ->
             Forall (fun kc => 0 <= fst kc < MAX_COMPANIES) l).
  { intros l Hl. eapply Forall_impl; [exact Hl|]. cbv beta.
    intros kc Hk. rewrite Hk. lia. }
  destruct (AIPL_Load_record slt index w body) as [w1 [r1|m]] eqn:Erec;
    cbn [fst] in E1; subst w1.
  - destruct (IH _ _ Hloop) as (d2 & -> & Hs2 & Hc2 & Hm2).
    exists (delta_app d1 d2). rewrite apply_delta_app.
    cbn [delta_app d_slots d_cfgs].
    split; [reflexivity|]. split; [apply Forall_app; auto|].
    split; [apply Forall_app; auto|]. intros Hmenu.
    destruct (Hm1 Hmenu) as [-> ->]. now destruct (Hm2 Hmenu) as [-> ->].
  - injection Hloop as <- _. exists d1.
    split; [reflexivity|]. split; [auto|]. split; [auto|exact Hm1].
Qed.

(** And for [Load]: when the header cannot be resolved the world is as it
    was; otherwise it is the cleared world changed by the records. *)
Lemma AIPL_Load_any (w : World) (s : list byte) :
  fst (AIPL_Load w s) = w
  \/ exists d : Delta,
       fst (AIPL_Load w s) = apply_delta d (AIPL_clear w)
       /\ Forall (fun kc => 0 <= fst kc < MAX_COMPANIES) (d_slots d)
       /\ Forall (fun kc => 0 <= fst kc < MAX_COMPANIES) (d_cfgs d)
       /\ (menu_or_client w = true -> d_slots d = [] /\ d_cfgs d = []).
Proof.
  unfold AIPL_Load.
  destruct (SlCompatTableHeader SL_MAX_STRING SL_MAX_VERSION _ai_company_desc
              _ai_company_sl_compat s) as [[slt s1]|m]; [|now left].
  right.
  destruct (AIPL_Load_loop_total (S (length s1)) slt (AIPL_clear w) s1)
    as [[w' r] E]; [lia|].
  rewrite E. cbn [default from_option id fst].
  destruct (AIPL_Load_loop_any _ _ _ _ _ _ E) as (d & -> & Hs & Hc & Hm).
  exists d. split; [reflexivity|]. split; [exact Hs|]. split; [exact Hc|].
  intros Hmenu. apply Hm. rewrite <- Hmenu. unfold menu_or_client, AIPL_clear.
  pose proof (AIPL_clear_fold (seqZ 0 MAX_COMPANIES) w)
    as (_ & _ & Hm' & Hn' & Hs' & _). cbv zeta in *.
  now rewrite Hm', Hn', Hs'.
Qed.
End LoadFrame.

Lemma last_cfg_other (l : list (Z * AIConfig)) (k : Z) :
  Forall (fun kc => fst kc <> k) l -> last_cfg l k = None.
Proof.
  induction l as [|kc l IH] using rev_ind; intros Hl; [reflexivity|].
  apply Forall_app in Hl as [Hl Hkc]. rewrite last_cfg_snoc.
  rewrite bool_decide_eq_false_2 by (now inversion Hkc). now apply IH.
Qed.

Lemma lookup_apply_cfgs_other (l : list (Z * AIConfig)) (m : gmap Z Company)
    (k : Z) :
  Forall (fun kc => fst kc <> k) l -> apply_cfgs l m !! k = m !! k.
Proof.
  intros Hl. rewrite lookup_apply_cfgs, (last_cfg_other l k Hl).
  now destruct (m !! k) as [[ia cfg]|].
Qed.

Lemma lookup_apply_cfgs_is_ai (l : list (Z * AIConfig)) (m : gmap Z Company)
    (k : Z) :
  option_map is_ai (apply_cfgs l m !! k) = option_map is_ai (m !! k).
Proof. rewrite lookup_apply_cfgs. now destruct (m !! k). Qed.

(** X1. [Load] keeps its hands off everything but the slots and the
    configurations of the companies of the build, whatever the stream holds
    and whether it succeeds or raises: the version of the file and the
    settings of the session are as before, no company appears, disappears
    or changes between AI and human, a slot or company whose index is not
    in [0, MAX_COMPANIES) is untouched, and the log is only added to. *)
Theorem AIPL_Load_frame `{Externals} (w : World) (s : list byte) :
  _sl_version (fst (AIPL_Load w s)) = _sl_version w
  /\ _game_mode (fst (AIPL_Load w s)) = _game_mode w
  /\ _networking (fst (AIPL_Load w s)) = _networking w
  /\ _network_server (fst (AIPL_Load w s)) = _network_server w
  /\ (forall k, option_map is_ai (companies (fst (AIPL_Load w s)) !! k)
                = option_map is_ai (companies w !! k))
  /\ (forall k, ~ (0 <= k < MAX_COMPANIES) ->
                game_ai_config (fst (AIPL_Load w s)) !! k
                = game_ai_config w !! k
                /\ companies (fst (AIPL_Load w s)) !! k = companies w !! k)
  /\ (exists es, events (fst (AIPL_Load w s)) = events w ++ es).
Proof.
  destruct (AIPL_Load_any w s) as [->|(d & -> & Hs & Hc & _)].
  { repeat split; try reflexivity. exists []. now rewrite app_nil_r. }
  pose proof (AIPL_clear_fold (seqZ 0 MAX_COMPANIES) w)
    as (Hg & Hv & Hm & Hn & Hsv & Hco & He & Hl).
  cbv zeta in *. fold (AIPL_clear w) in *.
  cbn [_sl_version _game_mode _networking _network_server game_ai_config
       companies events apply_delta].
  rewrite Hv, Hm, Hn, Hsv, Hco, He.
  split; [reflexivity|]. split; [reflexivity|]. split; [reflexivity|].
  split; [reflexivity|]. split; [|split].
  - intros k. apply lookup_apply_cfgs_is_ai.
  - intros k Hk. split.
    + rewrite lookup_set_slots_other.
      * rewrite Hl. rewrite bool_decide_eq_false_2; [reflexivity|].
        rewrite elem_of_seqZ. lia.
      * eapply Forall_impl; [exact Hs|]. cbv beta. intros kc Hr Heq. lia.
    + apply lookup_apply_cfgs_other.
      eapply Forall_impl; [exact Hc|]. cbv beta. intros kc Hr Heq. lia.
  - now exists (d_events d).
Qed.

(** X2. In the menu, and on a client of a network game, [Load] configures
    nothing: the companies are exactly as they were, and each slot is either
    as it was or the cleared one. *)
Theorem AIPL_Load_menu `{Externals} (w : World) (s : list byte) :
  menu_or_client w = true ->
  companies (fst (AIPL_Load w s)) = companies w
  /\ (forall k, game_ai_config (fst (AIPL_Load w s)) !! k
                = game_ai_config w !! k
                \/ game_ai_config (fst (AIPL_Load w s)) !! k
                   = Some new_AIConfig).
Proof.
  intros Hmenu.
  destruct (AIPL_Load_any w s) as [->|(d & -> & _ & _ & Hm)]; [now auto|].
  destruct (Hm Hmenu) as [Es Ec].
  pose proof (AIPL_clear_fold (seqZ 0 MAX_COMPANIES) w)
    as (_ & _ & _ & _ & _ & Hco & _ & Hl).
  cbv zeta in *. fold (AIPL_clear w) in *.
  cbn [game_ai_config companies apply_delta]. rewrite Es, Ec, Hco.
  split; [reflexivity|]. intros k. cbn [set_slots foldl]. rewrite Hl.
  destruct (bool_decide (k ∈ seqZ 0 MAX_COMPANIES)); auto.
Qed.

Lemma AIPL_Load_menu_witness :
  companies (fst (@AIPL_Load example_externals example_menu_world
                    example_good_chunk))
  = companies example_menu_world
  /\ (forall k,
        game_ai_config (fst (@AIPL_Load example_externals example_menu_world
                               example_good_chunk)) !! k
        = game_ai_config example_menu_world !! k
        \/ game_ai_config (fst (@AIPL_Load example_externals example_menu_world
                                  example_good_chunk)) !! k
           = Some new_AIConfig).
Proof.
  apply (@AIPL_Load_menu example_externals example_menu_world
           example_good_chunk).
  reflexivity.
Defined.

(** ** What [Save] leaves alone *)

Section SaveFrame.
Context `{Externals}.

Lemma staged_for_save (n : string) (v : Z) (st : string) (g : Globals) :
  set_settings st (set_version v (set_name n g))
  = mkGlobals n (to_signed 4 v) st (_ai_saveload_is_random g).
Proof. reflexivity. Qed.

(** [SaveReal_AIPL] assigns the staged name, version and settings before it
    reads them, and never assigns [_ai_saveload_is_random]. *)
Lemma SaveReal_AIPL_staging (index : Z) (w : World) (g0 : Globals) :
  _ai_saveload_is_random g0 = _ai_saveload_is_random (globals w) ->
  SaveReal_AIPL index (with_globals g0 w) = SaveReal_AIPL index w.
Proof.
  intros Hr. unfold SaveReal_AIPL. cbv zeta.
  change (GetConfig_FORCE_GAME (with_globals g0 w) index)
    with (GetConfig_FORCE_GAME w index).
  cbn [globals with_globals].
  destruct (HasScript (GetConfig_FORCE_GAME w index));
    rewrite !staged_for_save, Hr; reflexivity.
Qed.

Lemma SaveReal_AIPL_fst (index : Z) (w : World) :
  exists g, fst (SaveReal_AIPL index w) = with_globals g w
            /\ _ai_saveload_is_random g = _ai_saveload_is_random (globals w).
Proof.
  unfold SaveReal_AIPL. cbv zeta.
  set (g1 := set_settings _ _).
  assert (Hg1 : _ai_saveload_is_random g1 = _ai_saveload_is_random (globals w)).
  { subst g1. now destruct (HasScript (GetConfig_FORCE_GAME w index)). }
  destruct (SlObject_globals_save _ai_company_desc (with_globals g1 w));
    [|now exists g1].
  destruct (negb (IsValidAiID (with_globals g1 w) index)); [now exists g1|].
  set (g2 := set_settings _ _).
  assert (Hg2 : _ai_saveload_is_random g2 = _ai_saveload_is_random (globals w))
    by (subst g2; exact Hg1).
  destruct (SlObject_globals_save _ai_running_desc _); now exists g2.
Qed.

Lemma AIPL_Save_loop_fst (n : nat) (i : Z) (w : World) :
  exists g, fst (AIPL_Save_loop n i w) = with_globals g w
            /\ _ai_saveload_is_random g = _ai_saveload_is_random (globals w).
Proof.
  revert i w. induction n as [|n IH]; intros i w.
  - exists (globals w). split; [|reflexivity]. cbn. now destruct w.
  - cbn [AIPL_Save_loop].
    destruct (SaveReal_AIPL_fst i w) as (g1 & E1 & Hr1).
    destruct (SaveReal_AIPL i w) as [w1 [body|m]]; cbn [fst] in E1; subst w1;
      [|now exists g1].
    destruct (IH (i + 1) (with_globals g1 w)) as (g2 & E2 & Hr2).
    destruct (AIPL_Save_loop n (i + 1) (with_globals g1 w)) as [w2 [bs|m]];
      cbn [fst] in *; subst w2; exists g2; split; try reflexivity;
      now rewrite Hr2.
Qed.

Lemma AIPL_Save_loop_staging (n : nat) (i : Z) (w : World) (g0 : Globals) :
  _ai_saveload_is_random g0 = _ai_saveload_is_random (globals w) ->
  snd (AIPL_Save_loop n i (with_globals g0 w)) = snd (AIPL_Save_loop n i w).
Proof.
  intros Hr. destruct n as [|n]; [reflexivity|].
  cbn [AIPL_Save_loop]. now rewrite SaveReal_AIPL_staging.
Qed.
End SaveFrame.

(** X3. [Save] changes nothing but the staged name, version and settings:
    the slots, the companies, the log and the settings of the session are as
    before, and so is [_ai_saveload_is_random], which no line of the save
    path assigns. *)
Theorem AIPL_Save_frame `{Externals} (w : World) :
  game_ai_config (fst (AIPL_Save w)) = game_ai_config w
  /\ companies (fst (AIPL_Save w)) = companies w
  /\ events (fst (AIPL_Save w)) = events w
  /\ _sl_version (fst (AIPL_Save w)) = _sl_version w
  /\ _game_mode (fst (AIPL_Save w)) = _game_mode w
  /\ _ai_saveload_is_random (globals (fst (AIPL_Save w)))
     = _ai_saveload_is_random (globals w).
Proof.
  unfold AIPL_Save.
  destruct (SlTableHeader SL_MAX_STRING _ai_company_desc);
    [|now repeat split].
  destruct (AIPL_Save_loop_fst (Z.to_nat MAX_COMPANIES) 0 w) as (g & E & Hr).
  destruct (AIPL_Save_loop (Z.to_nat MAX_COMPANIES) 0 w) as [w' [bs|m]];
    cbn [fst] in *; subst w'; now repeat split.
Qed.

(** X4. What [Save] writes does not depend on the name, version and settings
    left in the staging variables: two worlds that differ only in those
    give the same bytes, or the same error. *)
Theorem AIPL_Save_ignores_staging `{Externals} (w : World) (g0 : Globals) :
  _ai_saveload_is_random g0 = _ai_saveload_is_random (globals w) ->
  snd (AIPL_Save (with_globals g0 w)) = snd (AIPL_Save w).
Proof.
  intros Hr. unfold AIPL_Save.
  destruct (SlTableHeader SL_MAX_STRING _ai_company_desc); [|reflexivity].
  pose proof (AIPL_Save_loop_staging (Z.to_nat MAX_COMPANIES) 0 w g0 Hr) as E.
  destruct (AIPL_Save_loop (Z.to_nat MAX_COMPANIES) 0 (with_globals g0 w))
    as [w1 [b1|m1]];
    destruct (AIPL_Save_loop (Z.to_nat MAX_COMPANIES) 0 w) as [w2 [b2|m2]];
    cbn [snd] in *; congruence.
Qed.

Lemma AIPL_Save_ignores_staging_witness :
  snd (@AIPL_Save example_externals
         (with_globals (mkGlobals "left" 3 "over" true) example_world))
  = snd (@AIPL_Save example_externals example_world).
Proof.
  apply (@AIPL_Save_ignores_staging example_externals example_world
           (mkGlobals "left" 3 "over" true)).
  reflexivity.
Defined.

(** ** What [Save] writes for each company *)

Section SaveBodies.
Context `{Externals}.


End SaveBodies.




(** ** Which script a record configures *)

Section ConfigureFacts.
Context `{Externals}.

Lemma AIPL_configure_info (g : Globals) (config : AIConfig) :
  cfg_info (fst (AIPL_configure g config))
  = if bool_decide (_ai_saveload_name g = EmptyString)
       || _ai_saveload_is_random g
    then None
    else match FindInfo (_ai_saveload_name g) (_ai_saveload_version g) false with
         | Some i => Some i
         | None => FindInfo (_ai_saveload_name g) (-1) false
         end.
Proof.
  unfold AIPL_configure. cbv zeta.
  destruct (bool_decide (_ai_saveload_name g = EmptyString)
            || _ai_saveload_is_random g); [reflexivity|].
  rewrite !HasScript_Change.
  destruct (FindInfo (_ai_saveload_name g) (_ai_saveload_version g) false)
    as [i|] eqn:Ei; cbn [negb]; [cbn; now rewrite Ei|].
  destruct (FindInfo (_ai_saveload_name g) (-1) false) as [j|] eqn:Ej;
    cbn [negb].
  - cbn. now rewrite Ej.
  - destruct (negb (bool_decide (_ai_saveload_name g = "%_dummy")));
      cbn; now rewrite Ej.
Qed.

Lemma AIPL_configure_other (g : Globals) (config : AIConfig) :
  cfg_settings (fst (AIPL_configure g config)) = EmptyString
  /\ cfg_to_load_data (fst (AIPL_configure g config)) = None.
Proof.
  unfold AIPL_configure. cbv zeta.
  destruct (bool_decide (_ai_saveload_name g = EmptyString)
            || _ai_saveload_is_random g); [now split|].
  destruct (negb (HasScript _)); [|now split].
  destruct (negb (HasScript _)); [|now split].
  destruct (negb (bool_decide _)); now split.
Qed.

Lemma record_delta_slots (v : Z) (valid : bool) (config0 : AIConfig)
    (index : Z) (g1 : Globals) (s1 : list byte) :
  d_slots (fst (record_delta v false valid config0 index g1 s1))
  = [(index, StringToSettings (_ai_saveload_settings g1)
                              (fst (AIPL_configure g1 config0)))].
Proof.
  unfold record_delta. cbv zeta.
  destruct (AIPL_configure g1 config0) as [config es].
  destruct valid; cbn [negb]; [|reflexivity].
  destruct (SlObject_load SL_MAX_STRING v _ai_running_desc g1 s1)
    as [g2 [s2|m]]; [|reflexivity].
  destruct (AIPL_configure_running g2) as [[config' g3] es'].
  now destruct (AIInstance_Load (_ai_saveload_version g3) s2) as [[data s3]|m].
Qed.
End ConfigureFacts.

(** X5. Which script a record gives the slot of its company, outside the
    menu and once the company fields are read: none when the staged name is
    empty or the record is marked random; otherwise the saved version when
    the registry has it, else the latest version of the name, else none.
    The slot takes the settings of the record and holds no data to load. *)
Theorem slot_after_record `{Externals} (slt : list (SaveLoad Globals))
    (index : Z) (w : World) (s s1 : list byte) (g1 : Globals) :
  SlObject_load SL_MAX_STRING (_sl_version w) slt
    (set_version (-1) (set_is_random false (globals w))) s = (g1, SlOk s1) ->
  menu_or_client w = false ->
  exists c : AIConfig,
    game_ai_config (fst (AIPL_Load_record slt index w s)) !! index = Some c
    /\ cfg_info c
       = (if bool_decide (_ai_saveload_name g1 = EmptyString)
             || _ai_saveload_is_random g1
          then None
          else match FindInfo (_ai_saveload_name g1)
                              (_ai_saveload_version g1) false with
               | Some i => Some i
               | None => FindInfo (_ai_saveload_name g1) (-1) false
               end)
    /\ cfg_settings c = _ai_saveload_settings g1
    /\ cfg_to_load_data c = None.
Proof.
  intros Hload Hmenu. rewrite AIPL_Load_record_delta, Hload.
  unfold menu_or_client in Hmenu. rewrite Hmenu.
  pose proof (record_delta_slots (_sl_version w) (IsValidAiID w index)
                (GetConfig_FORCE_GAME w index) index g1 s1) as Hs.
  destruct (record_delta (_sl_version w) false (IsValidAiID w index)
              (GetConfig_FORCE_GAME w index) index g1 s1) as [d r].
  cbn [fst] in *. cbn [game_ai_config apply_delta]. rewrite Hs.
  cbn [set_slots foldl fst snd]. rewrite lookup_insert_eq.
  eexists. split; [reflexivity|].
  cbn [cfg_info cfg_settings cfg_to_load_data StringToSettings].
  split; [apply AIPL_configure_info|]. split; [reflexivity|].
  apply AIPL_configure_other.
Qed.

Lemma slot_after_record_witness :
  exists c : AIConfig,
    game_ai_config
      (fst (@AIPL_Load_record example_externals
              (@_ai_company_desc example_externals) 0 example_world
              example_unavailable_record)) !! 0 = Some c
    /\ cfg_info c
       = (if bool_decide (_ai_saveload_name example_unavailable_globals
                          = EmptyString)
             || _ai_saveload_is_random example_unavailable_globals
          then None
          else match @FindInfo example_externals
                       (_ai_saveload_name example_unavailable_globals)
                       (_ai_saveload_version example_unavailable_globals)
                       false with
               | Some i => Some i
               | None => @FindInfo example_externals
                           (_ai_saveload_name example_unavailable_globals)
                           (-1) false
               end)
    /\ cfg_settings c = _ai_saveload_settings example_unavailable_globals
    /\ cfg_to_load_data c = None.
Proof.
  apply (@slot_after_record example_externals
           (@_ai_company_desc example_externals) 0 example_world
           example_unavailable_record [] example_unavailable_globals).
  - vm_compute. reflexivity.
  - reflexivity.
Defined.

Lemma AIPL_configure_running_outcome `{Externals} (g : Globals) :
  cfg_info (fst (fst (AIPL_configure_running g)))
  = match FindInfo (_ai_saveload_name g) (_ai_saveload_version g) false with
    | Some i => Some i
    | None => FindInfo (_ai_saveload_name g) (-1) false
    end
  /\ snd (fst (AIPL_configure_running g))
     = match FindInfo (_ai_saveload_name g) (_ai_saveload_version g) false with
       | Some _ => g
       | None => set_version (-1) g
       end
  /\ forallb is_debug (snd (AIPL_configure_running g)) = true
  /\ cfg_to_load_data (fst (fst (AIPL_configure_running g))) = None.
Proof.
  unfold AIPL_configure_running. cbv zeta. rewrite !HasScript_Change.
  destruct (FindInfo (_ai_saveload_name g) (_ai_saveload_version g) false)
    as [i|] eqn:Ei; cbn [negb fst snd].
  - cbn. now rewrite Ei.
  - destruct (FindInfo (_ai_saveload_name g) (-1) false) as [j|] eqn:Ej;
      cbn [negb].
    + cbn. now rewrite Ej.
    + destruct (negb (bool_decide (_ai_saveload_name g = "%_dummy")));
        cbn; now rewrite Ej.
Qed.

(** The record of a company that is a running AI, once its fields are
    read. *)
Lemma running_record_facts `{Externals} (slt : list (SaveLoad Globals))
    (index : Z) (w : World) (s s1 s2 : list byte) (g1 g2 : Globals)
    (co : Company) :
  SlObject_load SL_MAX_STRING (_sl_version w) slt
    (set_version (-1) (set_is_random false (globals w))) s = (g1, SlOk s1) ->
  menu_or_client w = false ->
  companies w !! index = Some co ->
  is_ai co = true ->
  SlObject_load SL_MAX_STRING (_sl_version w) _ai_running_desc g1 s1
  = (g2, SlOk s2) ->
  let exact := FindInfo (_ai_saveload_name g2) (_ai_saveload_version g2) false in
  let v' := match exact with Some _ => _ai_saveload_version g2 | None => -1 end in
  snd (AIPL_Load_record slt index w s)
  = match AIInstance_Load v' s2 with
    | SlOk (_, s3) => SlOk s3
    | SlErrorCorrupt m => SlErrorCorrupt m
    end
  /\ _ai_saveload_version (globals (fst (AIPL_Load_record slt index w s))) = v'
  /\ (exists es, events (fst (AIPL_Load_record slt index w s))
                 = events w ++ es ++ [CallLoad v']
                 /\ forallb is_debug es = true)
  /\ (exists c, companies (fst (AIPL_Load_record slt index w s)) !! index
                = Some (mkCompany true (Some c))
                /\ cfg_info c
                   = match exact with
                     | Some i => Some i
                     | None => FindInfo (_ai_saveload_name g2) (-1) false
                     end
                /\ cfg_settings c = _ai_saveload_settings g2
                /\ cfg_to_load_data c
                   = match AIInstance_Load v' s2 with
                     | SlOk (data, _) => data
                     | SlErrorCorrupt _ => None
                     end).
Proof.
  intros Hload Hmenu Hco Hai Hrun. cbv zeta.
  rewrite AIPL_Load_record_delta, Hload.
  unfold menu_or_client in Hmenu. rewrite Hmenu.
  assert (Hvalid : IsValidAiID w index = true)
    by (unfold IsValidAiID; now rewrite Hco).
  rewrite Hvalid. unfold record_delta. cbv zeta.
  destruct (AIPL_configure g1 (GetConfig_FORCE_GAME w index)) as [config es]
    eqn:Ecfg.
  cbn [negb]. rewrite Hrun.
  pose proof (AIPL_configure_running_outcome g2) as (Hinfo & Hg3 & Hes & Hdata).
  destruct (AIPL_configure_running g2) as [[config' g3] es'].
  cbn [fst snd] in Hinfo, Hg3, Hes, Hdata.
  assert (Hv3 : _ai_saveload_version g3
                = match FindInfo (_ai_saveload_name g2)
                                 (_ai_saveload_version g2) false with
                  | Some _ => _ai_saveload_version g2
                  | None => -1
                  end).
  { rewrite Hg3. now destruct (FindInfo _ _ false). }
  assert (Hs3 : _ai_saveload_settings g3 = _ai_saveload_settings g2).
  { rewrite Hg3. now destruct (FindInfo _ _ false). }
  assert (Hes0 : forallb is_debug es = true).
  { pose proof (f_equal snd Ecfg) as E. cbn [snd] in E. rewrite <- E.
    unfold AIPL_configure. cbv zeta.
    repeat match goal with
           | |- context [if ?b then _ else _] => destruct b
           end; reflexivity. }
  rewrite <- Hv3.
  destruct (AIInstance_Load (_ai_saveload_version g3) s2) as [[data s3]|m];
    cbn [fst snd globals events companies apply_delta d_globals d_cfgs
         d_events default from_option id];
    (split; [reflexivity|]); (split; [reflexivity|]); split.
  - exists (es ++ es'). split; [now rewrite <- app_assoc|].
    rewrite forallb_app, Hes0, Hes. reflexivity.
  - cbn [apply_cfgs foldl fst snd]. rewrite !lookup_set_cfg.
    rewrite !bool_decide_eq_true_2 by reflexivity. rewrite Hco.
    cbn [option_map is_ai]. rewrite Hai. eexists. split; [reflexivity|].
    cbn [cfg_info cfg_settings cfg_to_load_data SetToLoadData StringToSettings].
    rewrite Hinfo, Hs3. now repeat split.
  - exists (es ++ es'). split; [now rewrite <- app_assoc|].
    rewrite forallb_app, Hes0, Hes. reflexivity.
  - cbn [apply_cfgs foldl fst snd]. rewrite !lookup_set_cfg.
    rewrite !bool_decide_eq_true_2 by reflexivity. rewrite Hco.
    cbn [option_map is_ai]. rewrite Hai. eexists. split; [reflexivity|].
    cbn [cfg_info cfg_settings cfg_to_load_data SetToLoadData StringToSettings].
    rewrite Hinfo, Hs3, Hdata. now repeat split.
Qed.

(** X6. What a record does for a company that is a running AI, outside the
    menu and once its fields are read: the company gets the saved version of
    the script when the registry has it, else the latest version of the
    name, else none; [AIInstance::Load] is the last call of the record and
    receives the saved version exactly when the registry has that version,
    and [-1] otherwise; the data it returns is what the configuration of the
    company holds to load. *)
Theorem running_record_outcome `{Externals} (slt : list (SaveLoad Globals))
    (index : Z) (w : World) (s s1 s2 : list byte) (g1 g2 : Globals)
    (co : Company) :
  SlObject_load SL_MAX_STRING (_sl_version w) slt
    (set_version (-1) (set_is_random false (globals w))) s = (g1, SlOk s1) ->
  menu_or_client w = false ->
  companies w !! index = Some co ->
  is_ai co = true ->
  SlObject_load SL_MAX_STRING (_sl_version w) _ai_running_desc g1 s1
  = (g2, SlOk s2) ->
  let exact := FindInfo (_ai_saveload_name g2) (_ai_saveload_version g2) false in
  let v' := match exact with Some _ => _ai_saveload_version g2 | None => -1 end in
  snd (AIPL_Load_record slt index w s)
  = match AIInstance_Load v' s2 with
    | SlOk (_, s3) => SlOk s3
    | SlErrorCorrupt m => SlErrorCorrupt m
    end
  /\ _ai_saveload_version (globals (fst (AIPL_Load_record slt index w s))) = v'
  /\ (exists es, events (fst (AIPL_Load_record slt index w s))
                 = events w ++ es ++ [CallLoad v']
                 /\ forallb is_debug es = true)
  /\ (exists c, companies (fst (AIPL_Load_record slt index w s)) !! index
                = Some (mkCompany true (Some c))
                /\ cfg_info c
                   = match exact with
                     | Some i => Some i
                     | None => FindInfo (_ai_saveload_name g2) (-1) false
                     end
                /\ cfg_settings c = _ai_saveload_settings g2
                /\ cfg_to_load_data c
                   = match AIInstance_Load v' s2 with
                     | SlOk (data, _) => data
                     | SlErrorCorrupt _ => None
                     end).
Proof.
  exact (running_record_facts slt index w s s1 s2 g1 g2 co).
Qed.

Lemma running_record_outcome_witness :
  let exact := @FindInfo example_externals
                 (_ai_saveload_name example_unavailable_globals)
                 (_ai_saveload_version example_unavailable_globals) false in
  let v' := match exact with
            | Some _ => _ai_saveload_version example_unavailable_globals
            | None => -1
            end in
  snd example_running_result
  = match @AIInstance_Load example_externals v' [] with
    | SlOk (_, s3) => SlOk s3
    | SlErrorCorrupt m => SlErrorCorrupt m
    end
  /\ _ai_saveload_version (globals (fst example_running_result)) = v'
  /\ (exists es, events (fst example_running_result)
                 = events example_world ++ es ++ [CallLoad v']
                 /\ forallb is_debug es = true)
  /\ (exists c, companies (fst example_running_result) !! 1
                = Some (mkCompany true (Some c))
                /\ cfg_info c
                   = match exact with
                     | Some i => Some i
                     | None => @FindInfo example_externals
                                 (_ai_saveload_name example_unavailable_globals)
                                 (-1) false
                     end
                /\ cfg_settings c
                   = _ai_saveload_settings example_unavailable_globals
                /\ cfg_to_load_data c
                   = match @AIInstance_Load example_externals v' [] with
                     | SlOk (data, _) => data
                     | SlErrorCorrupt _ => None
                     end).
Proof.
  apply (@running_record_outcome example_externals
           (@_ai_company_desc example_externals) 1 example_world
           example_unavailable_record [] [] example_unavailable_globals
           example_unavailable_globals (mkCompany true None)).
  - vm_compute. reflexivity.
  - reflexivity.
  - reflexivity.
  - reflexivity.
  - vm_compute. reflexivity.
Defined.

(** ** The header [Save] writes *)

Lemma VarType_of_type_tag (t : VarType) :
  VarType_of_tag (type_tag t mod 256 ^ Z.of_nat 1) = Some t.
Proof. now destruct t. Qed.

Lemma SlWriteHeaderEntries_cons {Rec} (max_len : Z) (sld : SaveLoad Rec)
    (slt : list (SaveLoad Rec)) (bs : list byte) :
  SlWriteHeaderEntries max_len (sld :: slt) = SlOk bs ->
  exists b1 b2,
    SlWriteString max_len (name sld) = SlOk b1
    /\ SlWriteHeaderEntries max_len slt = SlOk b2
    /\ bs = (b1 ++ SlWriteUint 1 (type_tag (conv sld))) ++ b2.
Proof.
  cbn [SlWriteHeaderEntries]. unfold SlWriteHeaderEntry.
  destruct (SlWriteString max_len (name sld)) as [b1|]; [|discriminate].
  destruct (SlWriteHeaderEntries max_len slt) as [b2|]; [|discriminate].
  intros E. exists b1, b2. repeat split. congruence.
Qed.

Lemma SlReadHeaderEntries_write {Rec} (max_len : Z)
    (slt : list (SaveLoad Rec)) (bs rest : list byte) :
  max_len < 256 ^ 4 ->
  SlWriteHeaderEntries max_len slt = SlOk bs ->
  SlReadHeaderEntries max_len (length slt) (bs ++ rest)
  = SlOk (map (fun sld => (name sld, conv sld)) slt, rest)
  /\ (length slt <= length bs)%nat.
Proof.
  intros Hmax. revert bs. induction slt as [|sld slt IH]; intros bs E.
  - cbn in E. injection E as <-. split; [reflexivity|cbn; lia].
  - apply SlWriteHeaderEntries_cons in E as (b1 & b2 & E1 & E2 & ->).
    destruct (IH b2 E2) as [IHr IHl]. split.
    + cbn [length SlReadHeaderEntries map].
      rewrite <- !app_assoc.
      rewrite (SlReadString_write max_len (name sld) b1 _ Hmax E1).
      rewrite SlReadUint_write, VarType_of_type_tag, IHr. reflexivity.
    + rewrite !length_app. cbn [length SlWriteUint]. lia.
Qed.

Lemma SlReadTableHeader_write {Rec} (max_len : Z)
    (slt : list (SaveLoad Rec)) (bs rest : list byte) :
  max_len < 256 ^ 4 ->
  Z.of_nat (length slt) < 256 ^ 4 ->
  SlTableHeader max_len slt = SlOk bs ->
  SlReadTableHeader max_len (bs ++ rest)
  = SlOk (map (fun sld => (name sld, conv sld)) slt, rest).
Proof.
  intros Hmax Hlen. unfold SlTableHeader.
  destruct (SlWriteHeaderEntries max_len slt) as [b|] eqn:E; [|discriminate].
  intros Hbs.
  replace bs with (SlWriteUint 4 (Z.of_nat (length slt)) ++ b) by congruence.
  destruct (SlReadHeaderEntries_write max_len slt b rest Hmax E) as [Hr Hl].
  unfold SlReadTableHeader. rewrite <- app_assoc, SlReadUint_write.
  change (Z.of_nat 4) with 4. rewrite Z.mod_small by lia.
  rewrite length_app.
  destruct (Z.ltb_spec (Z.of_nat (length b + length rest))
                       (Z.of_nat (length slt))); [lia|].
  now rewrite Nat2Z.id.
Qed.

(** In a table with unique names a name finds its own descriptor. *)
Lemma SlFindField_self {Rec} (slt : list (SaveLoad Rec)) (sld : SaveLoad Rec)
    (i : nat) :
  NoDup (map name slt) ->
  slt !! i = Some sld ->
  SlFindField slt (name sld) = Some sld.
Proof.
  unfold SlFindField. revert i. induction slt as [|d slt IH]; intros i Hnd Hi;
    [discriminate|].
  apply NoDup_cons in Hnd as [Hnotin Hnd]. cbn [find].
  destruct i as [|i]; cbn in Hi.
  - injection Hi as ->. now rewrite bool_decide_eq_true_2.
  - rewrite bool_decide_eq_false_2; [now apply (IH i)|].
    intros Heq. apply Hnotin. rewrite Heq.
    apply list_elem_of_fmap. exists sld. split; [reflexivity|].
    now apply list_elem_of_lookup_2 in Hi.
Qed.

Lemma SlResolveTableHeader_self {Rec} (max_version : Z)
    (slt l : list (SaveLoad Rec)) (slct : list string) :
  NoDup (map name slt) ->
  (forall sld, sld ∈ l -> exists i, slt !! i = Some sld) ->
  SlResolveTableHeader max_version slt slct
    (map (fun sld => (name sld, conv sld)) l) = SlOk l.
Proof.
  intros Hnd. induction l as [|sld l IH]; intros Hl; [reflexivity|].
  cbn [map SlResolveTableHeader]. unfold SlResolveField. cbn [fst snd].
  destruct (Hl sld) as [i Hi]; [now left|].
  rewrite (SlFindField_self slt sld i Hnd Hi).
  rewrite IH; [reflexivity|]. intros d Hd. apply Hl. now right.
Qed.

(** The header [SlTableHeader] writes for a table with unique names is
    resolved to the very table, whatever the compatibility history holds. *)
Lemma SlCompatTableHeader_write {Rec} (max_len max_version : Z)
    (slt : list (SaveLoad Rec)) (slct : list string) (bs rest : list byte) :
  max_len < 256 ^ 4 ->
  Z.of_nat (length slt) < 256 ^ 4 ->
  NoDup (map name slt) ->
  SlTableHeader max_len slt = SlOk bs ->
  SlCompatTableHeader max_len max_version slt slct (bs ++ rest)
  = SlOk (slt, rest).
Proof.
  intros Hmax Hlen Hnd E. unfold SlCompatTableHeader.
  rewrite (SlReadTableHeader_write max_len slt bs rest Hmax Hlen E).
  rewrite SlResolveTableHeader_self; [reflexivity|exact Hnd|].
  intros sld Hin. now apply list_elem_of_lookup_1.
Qed.

Lemma ai_company_desc_names `{Externals} :
  NoDup (map name _ai_company_desc).
Proof.
  cbn. repeat (apply NoDup_cons; split; [|]); try apply NoDup_nil_2;
    intros Hin; repeat (apply elem_of_cons in Hin as [Hin|Hin];
                        [discriminate|]); inversion Hin.
Qed.

Lemma AIPL_header_written `{Externals} :
  9 <= SL_MAX_STRING ->
  exists hdr, SlTableHeader SL_MAX_STRING _ai_company_desc = SlOk hdr.
Proof.
  intros Hmax. unfold SlTableHeader, _ai_company_desc.
  cbn [SlWriteHeaderEntries]. unfold SlWriteHeaderEntry, SlWriteString.
  cbn [name SLEG_SSTR SLEG_CONDSSTR SLEG_CONDVAR list_byte_of_string length].
  cbv zeta.
  repeat match goal with
         | |- context [Z.leb ?a ?b] =>
             destruct (Z.leb_spec a b); [|cbn in *; lia]
         end.
  eexists. reflexivity.
Qed.

(** X7. [Load] accepts the header [Save] writes: when names of nine bytes
    fit the bound on strings, [SlTableHeader] on [_ai_company_desc]
    succeeds, and [SlCompatTableHeader] resolves what it wrote to
    [_ai_company_desc] itself, with nothing taken from the compatibility
    table and the stream left at the first record. *)
Theorem AIPL_header_roundtrip `{Externals} (rest : list byte) :
  9 <= SL_MAX_STRING < 256 ^ 4 ->
  exists hdr,
    SlTableHeader SL_MAX_STRING _ai_company_desc = SlOk hdr
    /\ SlCompatTableHeader SL_MAX_STRING SL_MAX_VERSION _ai_company_desc
                           _ai_company_sl_compat (hdr ++ rest)
       = SlOk (_ai_company_desc, rest).
Proof.
  intros [Hlo Hhi]. destruct (AIPL_header_written Hlo) as [hdr E].
  exists hdr. split; [exact E|].
  apply SlCompatTableHeader_write; try assumption.
  - cbn. lia.
  - apply ai_company_desc_names.
Qed.

Lemma AIPL_header_roundtrip_witness :
  exists hdr,
    SlTableHeader (@SL_MAX_STRING example_externals)
                  (@_ai_company_desc example_externals) = SlOk hdr
    /\ SlCompatTableHeader (@SL_MAX_STRING example_externals)
                           (@SL_MAX_VERSION example_externals)
                           (@_ai_company_desc example_externals)
                           (@_ai_company_sl_compat example_externals)
                           (hdr ++ example_company_record)
       = SlOk (@_ai_company_desc example_externals, example_company_record).
Proof.
  apply (@AIPL_header_roundtrip example_externals example_company_record).
  simpl. lia.
Defined.

(** ** Saving a slot and loading it back *)

Section SlotRoundTrip.
Context `{Externals}.

(** The company fields of a staging record, written at a version from 108
    on and read back at the same version. *)
Lemma company_record_load_save (v : Z) (g g0 : Globals) (bs rest : list byte) :
  SL_MAX_STRING < 256 ^ 4 ->
  SLV_108 <= v <= SL_MAX_VERSION ->
  - 2 ^ 31 <= _ai_saveload_version g < 2 ^ 31 ->
  SlObject_save SL_MAX_STRING v _ai_company_desc g = SlOk bs ->
  SlObject_load SL_MAX_STRING v _ai_company_desc g0 (bs ++ rest)
  = (mkGlobals (_ai_saveload_name g) (_ai_saveload_version g)
               (_ai_saveload_settings g)
               (if (SLV_136 <=? v) && (v <=? SLV_AI_LOCAL_CONFIG)
                then _ai_saveload_is_random g
                else _ai_saveload_is_random g0),
     SlOk rest).
Proof.
  intros Hmax Hv Hint Hsave.
  destruct (SlObject_load_save SL_MAX_STRING v _ai_company_desc g g0 bs rest
              Hmax ai_company_desc_wf (ai_company_desc_populated v g Hint)
              Hsave) as (g' & -> & Hf).
  f_equal. unfold SLV_108 in Hv.
  assert (Hact : forall from, from <= 108 ->
             (from <=? v) && (v <=? SL_MAX_VERSION) = true).
  { intros from Hfrom. apply andb_true_iff. rewrite !Z.leb_le. lia. }
  apply Globals_eq; cbn [_ai_saveload_name _ai_saveload_version
                         _ai_saveload_settings _ai_saveload_is_random].
  - specialize (Hf (SLEG_SSTR "name" ref_name)).
    unfold SlIsObjectValidInSavegame in Hf.
    cbn [version_from version_to SLEG_SSTR SLEG_CONDSSTR] in Hf.
    rewrite (Hact SL_MIN_VERSION) in Hf by (unfold SL_MIN_VERSION; lia).
    apply Hf. unfold _ai_company_desc. apply list_elem_of_here.
  - specialize (Hf (SLEG_CONDVAR "version" SLE_UINT32 ref_version SLV_108
                                 SL_MAX_VERSION)).
    unfold SlIsObjectValidInSavegame in Hf.
    cbn [version_from version_to SLEG_CONDVAR] in Hf.
    rewrite (Hact SLV_108) in Hf by (unfold SLV_108; lia).
    apply Hf. unfold _ai_company_desc.
    apply list_elem_of_further, list_elem_of_further, list_elem_of_here.
  - specialize (Hf (SLEG_SSTR "settings" ref_settings)).
    unfold SlIsObjectValidInSavegame in Hf.
    cbn [version_from version_to SLEG_SSTR SLEG_CONDSSTR] in Hf.
    rewrite (Hact SL_MIN_VERSION) in Hf by (unfold SL_MIN_VERSION; lia).
    apply Hf. unfold _ai_company_desc.
    apply list_elem_of_further, list_elem_of_here.
  - specialize (Hf (SLEG_CONDVAR "is_random" SLE_BOOL ref_is_random SLV_136
                                 SLV_AI_LOCAL_CONFIG)).
    unfold SlIsObjectValidInSavegame in Hf.
    cbn [version_from version_to SLEG_CONDVAR] in Hf.
    apply Hf. unfold _ai_company_desc.
    apply list_elem_of_further, list_elem_of_further, list_elem_of_further,
      list_elem_of_here.
Qed.
End SlotRoundTrip.

Section SlotRoundTrip2.
Context `{Externals}.

(** For a company that is not a running AI, [SaveReal_AIPL] writes the
    company fields of the slot and nothing else. *)
Lemma SaveReal_AIPL_not_ai (index : Z) (w : World) :
  IsValidAiID w index = false ->
  SaveReal_AIPL index w
  = (with_globals (staged_slot (GetConfig_FORCE_GAME w index) (globals w)) w,
     SlObject_save SL_MAX_STRING (_sl_version w) _ai_company_desc
       (staged_slot (GetConfig_FORCE_GAME w index) (globals w))).
Proof.
  intros Hai. unfold SaveReal_AIPL. cbv zeta.
  assert (Hg : set_settings (SettingsToString (GetConfig_FORCE_GAME w index))
                 (if HasScript (GetConfig_FORCE_GAME w index)
                  then set_version (GetVersion (GetConfig_FORCE_GAME w index))
                         (set_name (GetName (GetConfig_FORCE_GAME w index))
                                   (globals w))
                  else set_version (-1) (set_name EmptyString (globals w)))
               = staged_slot (GetConfig_FORCE_GAME w index) (globals w)).
  { unfold staged_slot.
    now destruct (HasScript (GetConfig_FORCE_GAME w index)). }
  rewrite Hg. unfold SlObject_globals_save. cbn [globals _sl_version with_globals].
  change (IsValidAiID (with_globals _ w) index) with (IsValidAiID w index).
  rewrite Hai. cbn [negb].
  now destruct (SlObject_save SL_MAX_STRING (_sl_version w) _ai_company_desc _).
Qed.

Lemma AIPL_configure_exact (g : Globals) (config : AIConfig) (i : ScriptInfo) :
  _ai_saveload_name g <> EmptyString ->
  _ai_saveload_is_random g = false ->
  FindInfo (_ai_saveload_name g) (_ai_saveload_version g) false = Some i ->
  AIPL_configure g config
  = (mkAIConfig (_ai_saveload_name g) (info_version i) (Some i) EmptyString None,
     []).
Proof.
  intros Hn Hr Hf. unfold AIPL_configure. cbv zeta.
  rewrite bool_decide_eq_false_2 by assumption. rewrite Hr. cbn [orb].
  rewrite HasScript_Change, Hf. cbn [negb]. unfold Change. now rewrite Hf.
Qed.

Lemma AIPL_configure_random (g : Globals) (config : AIConfig) :
  _ai_saveload_name g = EmptyString ->
  AIPL_configure g config = (new_AIConfig, []).
Proof.
  intros Hn. unfold AIPL_configure. cbv zeta.
  now rewrite bool_decide_eq_true_2 by assumption.
Qed.

(** What [Load] makes of the record [SaveReal_AIPL] wrote for a slot. *)
Lemma AIPL_Load_record_saved (index : Z) (w w' : World) (body : list byte) :
  SL_MAX_STRING < 256 ^ 4 ->
  SLV_108 <= _sl_version w <= SL_MAX_VERSION ->
  (SLV_136 <= _sl_version w <= SLV_AI_LOCAL_CONFIG ->
   _ai_saveload_is_random (globals w) = false) ->
  registered (GetConfig_FORCE_GAME w index) ->
  SlObject_save SL_MAX_STRING (_sl_version w) _ai_company_desc
    (staged_slot (GetConfig_FORCE_GAME w index) (globals w)) = SlOk body ->
  _sl_version w' = _sl_version w ->
  menu_or_client w' = false ->
  IsValidAiID w' index = false ->
  exists (g' : Globals) (c' : AIConfig),
    AIPL_Load_record _ai_company_desc index w' body
    = (apply_delta (mkDelta (Some g') [(index, c')] [] []) w', SlOk [])
    /\ restored (GetConfig_FORCE_GAME w index) c'.
Proof.
  intros Hmax Hv Hrand Hreg Hsave Hver Hmenu Hai.
  set (c := GetConfig_FORCE_GAME w index) in *.
  assert (Hint : - 2 ^ 31 <= _ai_saveload_version (staged_slot c (globals w))
                 < 2 ^ 31).
  { unfold staged_slot. cbn [_ai_saveload_version].
    pose proof (Z.mod_pos_bound (if HasScript c then GetVersion c else -1)
                  (256 ^ Z.of_nat 4) ltac:(cbn; lia)) as Hb.
    unfold to_signed. cbv zeta.
    destruct (_ <? _) eqn:E; [apply Z.ltb_lt in E|apply Z.ltb_ge in E];
      cbn in *; lia. }
  pose proof (company_record_load_save (_sl_version w)
                (staged_slot c (globals w))
                (set_version (-1) (set_is_random false (globals w')))
                body [] Hmax Hv Hint Hsave) as Hload.
  rewrite app_nil_r in Hload.
  rewrite AIPL_Load_record_delta, Hver, Hload.
  unfold menu_or_client in Hmenu. rewrite Hmenu, Hai.
  set (g' := mkGlobals _ _ _ _).
  assert (Hr' : _ai_saveload_is_random g' = false).
  { subst g'. cbn [_ai_saveload_is_random staged_slot set_version
                   set_is_random].
    destruct (Z.leb_spec SLV_136 (_sl_version w));
      destruct (Z.leb_spec (_sl_version w) SLV_AI_LOCAL_CONFIG);
      cbn [andb]; try reflexivity.
    apply Hrand. lia. }
  unfold record_delta. cbv zeta. cbn [negb].
  unfold registered in Hreg. fold c in Hreg.
  destruct (cfg_info c) as [i|] eqn:Ei.
  - destruct Hreg as (Hname & Hfind & Hiv & Hcv).
    assert (Hhas : HasScript c = true) by (unfold HasScript; now rewrite Ei).
    assert (Hn' : _ai_saveload_name g' = cfg_name c)
      by (subst g'; cbn; now rewrite Hhas).
    assert (Hv' : _ai_saveload_version g' = cfg_version c).
    { subst g'. cbn [_ai_saveload_version staged_slot]. rewrite Hhas.
      unfold GetVersion.
      rewrite <- (to_signed_mod 4 (cfg_version c)) at 2 by (cbn; lia).
      unfold to_signed. cbv zeta. now rewrite Z.mod_mod by (cbn; lia). }
    rewrite (AIPL_configure_exact g' _ i); [| | |];
      [|now rewrite Hn'|exact Hr'|now rewrite Hn', Hv'].
    exists g'. eexists. split; [reflexivity|].
    unfold restored.
    cbn [cfg_info cfg_settings cfg_to_load_data cfg_name cfg_version
         StringToSettings].
    rewrite Ei, Hn', Hiv. subst g'. cbn. now repeat split.
  - assert (Hhas : HasScript c = false) by (unfold HasScript; now rewrite Ei).
    assert (Hn' : _ai_saveload_name g' = EmptyString)
      by (subst g'; cbn; now rewrite Hhas).
    rewrite (AIPL_configure_random g' _ Hn').
    exists g'. eexists. split; [reflexivity|].
    unfold restored.
    cbn [cfg_info cfg_settings cfg_to_load_data cfg_name cfg_version
         StringToSettings new_AIConfig].
    rewrite Ei, Hhas. subst g'. cbn. repeat split; discriminate.
Qed.
End SlotRoundTrip2.

(** X8. A slot survives [SaveReal_AIPL] and the body of the loop of [Load]:
    for a company that is not a running AI, at a version of the format from
    108 on, with [_ai_saveload_is_random] not left set where it is saved,
    and a slot whose script the registry has, the record written for the
    slot is read to its last byte by a load outside the menu and leaves in
    the slot of the company the same script and settings. *)
Theorem slot_save_load `{Externals} (index : Z) (w w1 w' : World)
    (body : list byte) :
  SL_MAX_STRING < 256 ^ 4 ->
  SLV_108 <= _sl_version w <= SL_MAX_VERSION ->
  (SLV_136 <= _sl_version w <= SLV_AI_LOCAL_CONFIG ->
   _ai_saveload_is_random (globals w) = false) ->
  IsValidAiID w index = false ->
  registered (GetConfig_FORCE_GAME w index) ->
  SaveReal_AIPL index w = (w1, SlOk body) ->
  _sl_version w' = _sl_version w ->
  menu_or_client w' = false ->
  IsValidAiID w' index = false ->
  exists (w'' : World) (c' : AIConfig),
    AIPL_Load_record _ai_company_desc index w' body = (w'', SlOk [])
    /\ game_ai_config w'' !! index = Some c'
    /\ restored (GetConfig_FORCE_GAME w index) c'.
Proof.
  intros Hmax Hv Hrand Hai Hreg Hsave Hver Hmenu Hai'.
  rewrite (SaveReal_AIPL_not_ai index w Hai) in Hsave.
  assert (Hbody : SlObject_save SL_MAX_STRING (_sl_version w) _ai_company_desc
                    (staged_slot (GetConfig_FORCE_GAME w index) (globals w))
                  = SlOk body) by congruence.
  destruct (AIPL_Load_record_saved index w w' body Hmax Hv Hrand Hreg Hbody
              Hver Hmenu Hai') as (g' & c' & Hrec & Hres).
  eexists. exists c'. split; [exact Hrec|]. split; [|exact Hres].
  cbn [game_ai_config apply_delta d_slots set_slots foldl fst snd].
  apply lookup_insert_eq.
Qed.

Lemma slot_save_load_witness :
  exists (w'' : World) (c' : AIConfig),
    @AIPL_Load_record example_externals (@_ai_company_desc example_externals)
                      0 example_fresh_world example_slot_record
    = (w'', SlOk [])
    /\ game_ai_config w'' !! 0 = Some c'
    /\ restored (GetConfig_FORCE_GAME example_saved_world 0) c'.
Proof.
  apply (@slot_save_load example_externals 0 example_saved_world
           (fst (@SaveReal_AIPL example_externals 0 example_saved_world))
           example_fresh_world example_slot_record).
  - simpl. lia.
  - vm_compute. split; discriminate.
  - intros _. reflexivity.
  - reflexivity.
  - vm_compute. repeat split; discriminate.
  - vm_compute. reflexivity.
  - reflexivity.
  - reflexivity.
  - reflexivity.
Defined.

Section ChunkRoundTrip.
Context `{Externals}.

Lemma SlWriteString_length (max_len : Z) (x : string) (bs : list byte) :
  SlWriteString max_len x = SlOk bs -> Z.of_nat (length bs) <= max_len + 4.
Proof.
  unfold SlWriteString. cbv zeta.
  destruct (Z.leb_spec (Z.of_nat (length (list_byte_of_string x))) max_len)
    as [Hle|]; [|discriminate].
  intros E.
  replace bs with (SlWriteUint SL_LEN_BYTES
                     (Z.of_nat (length (list_byte_of_string x)))
                   ++ list_byte_of_string x) by congruence.
  rewrite length_app. cbn [length SlWriteUint SL_LEN_BYTES]. lia.
Qed.

Lemma company_record_length (v : Z) (g : Globals) (bs : list byte) :
  0 <= SL_MAX_STRING ->
  SlObject_save SL_MAX_STRING v _ai_company_desc g = SlOk bs ->
  Z.of_nat (length bs) <= 2 * SL_MAX_STRING + 13.
Proof.
  intros Hmax.
  unfold _ai_company_desc. cbn [SlObject_save]. unfold SlObjectMember_save.
  cbn [conv address var_get SLEG_SSTR SLEG_CONDSSTR SLEG_CONDVAR ref_name
       ref_settings ref_version ref_is_random SlWriteValue].
  assert (Hs : forall (b : bool) x bs0,
             (if b then SlWriteString SL_MAX_STRING x else SlOk [])
             = SlOk bs0 ->
             Z.of_nat (length bs0) <= SL_MAX_STRING + 4).
  { intros b x bs0 E0. destruct b.
    - now apply SlWriteString_length in E0.
    - replace bs0 with (@nil byte) by congruence. cbn. lia. }
  destruct (if SlIsObjectValidInSavegame v (SLEG_SSTR "name" ref_name)
            then _ else _) as [b1|] eqn:E1; [|discriminate].
  destruct (if SlIsObjectValidInSavegame v (SLEG_SSTR "settings" ref_settings)
            then _ else _) as [b2|] eqn:E2; [|discriminate].
  apply Hs in E1, E2.
  destruct (SlIsObjectValidInSavegame v
              (SLEG_CONDVAR "version" SLE_UINT32 ref_version SLV_108
                            SL_MAX_VERSION));
    destruct (SlIsObjectValidInSavegame v
                (SLEG_CONDVAR "is_random" SLE_BOOL ref_is_random SLV_136
                              SLV_AI_LOCAL_CONFIG));
    intros E;
    match type of E with SlOk ?b = _ => replace bs with b by congruence end;
    rewrite ?length_app; cbn [length SlWriteUint app]; lia.
Qed.
End ChunkRoundTrip.

Section ChunkRoundTrip2.
Context `{Externals}.

Lemma set_slots_app (l1 l2 : list (Z * AIConfig)) (m : gmap Z AIConfig) :
  set_slots (l1 ++ l2) m = set_slots l2 (set_slots l1 m).
Proof. unfold set_slots. apply foldl_app. Qed.

(** The records [Save] writes for companies that are not running AIs, read
    back by the loop of [Load]. *)
Lemma AIPL_Save_Load_loop (n : nat) :
  forall (i : Z) (w w1 : World) (bs : list byte),
    0 <= SL_MAX_STRING ->
    2 * SL_MAX_STRING + 13 < 256 ^ 4 ->
    MAX_COMPANIES < 256 ^ 4 ->
    SLV_108 <= _sl_version w <= SL_MAX_VERSION ->
    (SLV_136 <= _sl_version w <= SLV_AI_LOCAL_CONFIG ->
     _ai_saveload_is_random (globals w) = false) ->
    0 <= i ->
    i + Z.of_nat n <= MAX_COMPANIES ->
    (forall k, i <= k < i + Z.of_nat n ->
               IsValidAiID w k = false
               /\ registered (GetConfig_FORCE_GAME w k)) ->
    AIPL_Save_loop n i w = (w1, SlOk bs) ->
    forall (w' : World) (rest : list byte) (fuel : nat),
      _sl_version w' = _sl_version w ->
      menu_or_client w' = false ->
      (forall k, i <= k < i + Z.of_nat n -> IsValidAiID w' k = false) ->
      (n < fuel)%nat ->
      exists d : Delta,
        AIPL_Load_loop fuel _ai_company_desc w'
          (bs ++ SlWriteUint 4 SL_ARRAY_END ++ rest)
        = Some (apply_delta d w', SlOk rest)
        /\ d_cfgs d = []
        /\ d_events d = []
        /\ forall (m : gmap Z AIConfig) (k : Z),
             (i <= k < i + Z.of_nat n ->
              exists c', set_slots (d_slots d) m !! k = Some c'
                         /\ restored (GetConfig_FORCE_GAME w k) c')
             /\ (~ (i <= k < i + Z.of_nat n) ->
                 set_slots (d_slots d) m !! k = m !! k).
Proof.
  induction n as [|n IH];
    intros i w w1 bs Hmax0 Hmax Hcomp Hv Hrand Hi Hin Hslots Hsave
           w' rest fuel Hver Hmenu Hai' Hfuel.
  - cbn [AIPL_Save_loop] in Hsave.
    replace bs with (@nil byte) by congruence. cbn [app].
    destruct fuel as [|fuel]; [lia|]. cbn [AIPL_Load_loop].
    rewrite SlIterateArray_end. cbv zeta. rewrite Z.eqb_refl.
    exists (mkDelta None [] [] []).
    split; [|split; [reflexivity|split; [reflexivity|]]].
    + do 2 f_equal. symmetry. world_eq.
    + intros m k. split; [lia|reflexivity].
  - cbn [AIPL_Save_loop] in Hsave.
    destruct (Hslots i ltac:(lia)) as [Hai Hreg].
    rewrite (SaveReal_AIPL_not_ai i w Hai) in Hsave.
    set (gs := staged_slot (GetConfig_FORCE_GAME w i) (globals w)) in *.
    destruct (SlObject_save SL_MAX_STRING (_sl_version w) _ai_company_desc gs)
      as [body|m] eqn:Ebody; [|discriminate].
    destruct (AIPL_Save_loop n (i + 1) (with_globals gs w)) as [w2 [bs'|m]]
      eqn:Eloop; [|discriminate].
    assert (Hbs : bs = SlSetArrayIndex i ++ SlAutolength body ++ bs')
      by congruence.
    subst bs. clear Hsave.
    destruct fuel as [|fuel]; [lia|]. cbn [AIPL_Load_loop].
    rewrite <- !app_assoc.
    pose proof (company_record_length _ _ _ Hmax0 Ebody) as Hlen.
    rewrite SlIterateArray_record; [|unfold SL_ARRAY_END; lia|lia].
    cbv zeta.
    destruct (to_CompanyID_company i) as [Ei Hend]; [lia|]. rewrite Ei in *.
    destruct (Z.eqb_spec i (to_CompanyID (-1))); [contradiction|].
    destruct (Z.geb_spec i MAX_COMPANIES); [lia|].
    assert (Hmax1 : SL_MAX_STRING < 256 ^ 4) by lia.
    assert (Hai1 : IsValidAiID w' i = false) by (apply Hai'; lia).
    destruct (AIPL_Load_record_saved i w w' body Hmax1 Hv Hrand Hreg
                Ebody Hver Hmenu Hai1)
      as (g' & c' & Hrec & Hres).
    rewrite Hrec.
    assert (Hi1 : 0 <= i + 1) by lia.
    assert (Hin1 : i + 1 + Z.of_nat n <= MAX_COMPANIES) by lia.
    destruct (IH (i + 1) (with_globals gs w) w2 bs' Hmax0 Hmax Hcomp Hv Hrand
                Hi1 Hin1) with
        (w' := apply_delta (mkDelta (Some g') [(i, c')] [] []) w')
        (rest := rest) (fuel := fuel)
      as (d2 & Hloop & Hc2 & He2 & Hs2).
    + intros k Hk. apply (Hslots k). lia.
    + exact Eloop.
    + exact Hver.
    + exact Hmenu.
    + intros k Hk. unfold IsValidAiID.
      cbn [companies apply_delta d_cfgs apply_cfgs foldl].
      apply (Hai' k). lia.
    + lia.
    + exists (delta_app (mkDelta (Some g') [(i, c')] [] []) d2).
      rewrite <- apply_delta_app. split; [exact Hloop|].
      split; [cbn [delta_app d_cfgs app]; exact Hc2|].
      split; [cbn [delta_app d_events app]; exact He2|].
      intros m k. cbn [delta_app d_slots]. rewrite set_slots_app.
      cbn [set_slots foldl fst snd]. fold (set_slots (d_slots d2)).
      destruct (Hs2 (<[i:=c']> m) k) as [Hin2 Hout2].
      split.
      * intros Hk. destruct (Z.eq_dec k i) as [->|Hne].
        -- exists c'. split; [|exact Hres].
           rewrite Hout2 by lia. apply lookup_insert_eq.
        -- apply Hin2. lia.
      * intros Hk. rewrite Hout2 by lia. apply lookup_insert_ne. lia.
Qed.
End ChunkRoundTrip2.

(** X9. The chunk [Save] writes is loaded back whole. With no company run by
    an AI on either side, a version of the format from 108 on,
    [_ai_saveload_is_random] not left set at a version that saves it (136
    to [SLV_AI_LOCAL_CONFIG]), strings and company indices that fit their
    four-byte fields, and slots whose scripts the registry has, [Load] at
    the same version and outside the menu reads the chunk to its last byte
    without an error, leaves the companies and the log alone, and leaves in
    every slot the script and settings of the slot that was saved, with no
    data to load. *)
Theorem AIPL_Save_Load `{Externals} (w w1 w' : World) (chunk : list byte) :
  9 <= SL_MAX_STRING ->
  2 * SL_MAX_STRING + 13 < 256 ^ 4 ->
  0 <= MAX_COMPANIES < 256 ^ 4 ->
  SLV_108 <= _sl_version w <= SL_MAX_VERSION ->
  (SLV_136 <= _sl_version w <= SLV_AI_LOCAL_CONFIG ->
   _ai_saveload_is_random (globals w) = false) ->
  (forall k, 0 <= k < MAX_COMPANIES ->
             IsValidAiID w k = false
             /\ registered (GetConfig_FORCE_GAME w k)) ->
  SlSaveChunk w = (w1, SlOk chunk) ->
  _sl_version w' = _sl_version w ->
  menu_or_client w' = false ->
  (forall k, 0 <= k < MAX_COMPANIES -> IsValidAiID w' k = false) ->
  exists w'' : World,
    AIPL_Load w' chunk = (w'', SlOk [])
    /\ companies w'' = companies w'
    /\ events w'' = events w'
    /\ forall k, 0 <= k < MAX_COMPANIES ->
                 exists c', game_ai_config w'' !! k = Some c'
                            /\ restored (GetConfig_FORCE_GAME w k) c'.
Proof.
  intros Hmax9 Hmax Hcomp Hv Hrand Hslots Hsave Hver Hmenu Hai'.
  unfold SlSaveChunk, AIPL_Save in Hsave.
  destruct (SlTableHeader SL_MAX_STRING _ai_company_desc) as [hdr|m] eqn:Ehdr;
    [|discriminate].
  destruct (AIPL_Save_loop (Z.to_nat MAX_COMPANIES) 0 w) as [w2 [bs|m]]
    eqn:Eloop; [|discriminate].
  replace chunk with (hdr ++ bs ++ SlWriteUint 4 SL_ARRAY_END ++ [])
    by (rewrite app_nil_r, app_assoc; congruence).
  clear Hsave.
  assert (Hhdr : SlCompatTableHeader SL_MAX_STRING SL_MAX_VERSION
                   _ai_company_desc _ai_company_sl_compat
                   (hdr ++ bs ++ SlWriteUint 4 SL_ARRAY_END ++ [])
                 = SlOk (_ai_company_desc, bs ++ SlWriteUint 4 SL_ARRAY_END ++ [])).
  { apply SlCompatTableHeader_write; [lia|cbn; lia| |exact Ehdr].
    apply ai_company_desc_names. }
  pose proof (AIPL_clear_fold (seqZ 0 MAX_COMPANIES) w') as Hclear.
  cbv zeta in Hclear. fold (AIPL_clear w') in Hclear.
  destruct Hclear as (Hcg & Hcv & Hcm & Hcn & Hcs & Hcc & Hce & Hcl).
  assert (Hn : 0 + Z.of_nat (Z.to_nat MAX_COMPANIES) <= MAX_COMPANIES) by lia.
  assert (Hmax0 : 0 <= SL_MAX_STRING) by lia.
  assert (Hcomp1 : MAX_COMPANIES < 256 ^ 4) by lia.
  destruct (AIPL_Save_Load_loop (Z.to_nat MAX_COMPANIES) 0 w w2 bs
              Hmax0 Hmax Hcomp1 Hv Hrand (Z.le_refl 0) Hn)
    with (w' := AIPL_clear w') (rest := @nil byte)
         (fuel := S (Z.to_nat MAX_COMPANIES))
    as (d & Hloop & Hc & He & Hs).
  - intros k Hk. apply Hslots. lia.
  - exact Eloop.
  - congruence.
  - unfold menu_or_client in *. rewrite Hcm, Hcn, Hcs. exact Hmenu.
  - intros k Hk. unfold IsValidAiID. rewrite Hcc. apply Hai'. lia.
  - lia.
  - exists (apply_delta d (AIPL_clear w')).
    split; [exact (AIPL_Load_unfold _ _ _ _ _ _ Hhdr Hloop)|].
    split; [|split].
    + cbn [companies apply_delta]. rewrite Hc. cbn [apply_cfgs foldl].
      exact Hcc.
    + cbn [events apply_delta]. rewrite He, app_nil_r. exact Hce.
    + intros k Hk. cbn [game_ai_config apply_delta].
      apply (Hs (game_ai_config (AIPL_clear w')) k). lia.
Qed.

Lemma AIPL_Save_Load_witness :
  exists w'' : World,
    @AIPL_Load example_externals example_fresh_world example_saved_chunk
    = (w'', SlOk [])
    /\ companies w'' = companies example_fresh_world
    /\ events w'' = events example_fresh_world
    /\ forall k, 0 <= k < @MAX_COMPANIES example_externals ->
                 exists c', game_ai_config w'' !! k = Some c'
                            /\ restored
                                 (GetConfig_FORCE_GAME example_saved_world k) c'.
Proof.
  apply (@AIPL_Save_Load example_externals example_saved_world
           (fst (@SlSaveChunk example_externals example_saved_world))
           example_fresh_world example_saved_chunk).
  - simpl. lia.
  - simpl. lia.
  - simpl. lia.
  - vm_compute. split; discriminate.
  - intros _. reflexivity.
  - intros k _. split; [reflexivity|].
    unfold GetConfig_FORCE_GAME.
    destruct (decide (k = 0)) as [->|Hk].
    + vm_compute. repeat split; discriminate.
    + cbn [game_ai_config example_saved_world].
      rewrite lookup_insert_ne by congruence. exact I.
  - vm_compute. reflexivity.
  - reflexivity.
  - reflexivity.
  - intros k _. reflexivity.
Defined.

(** ** When [Load] calls a script *)

Section LoadCalls.
Context `{Externals}.

Lemma AIPL_configure_debug (g : Globals) (config : AIConfig) :
  forallb is_debug (snd (AIPL_configure g config)) = true.
Proof.
  unfold AIPL_configure. cbv zeta.
  repeat match goal with
         | |- context [if ?b then _ else _] => destruct b
         end; reflexivity.
Qed.

(** What a record adds to the log: lines of the log only for a company
    that is not a running AI, calls of [AIInstance::LoadEmpty] only in the
    menu and on a client. *)
Lemma record_delta_events (v : Z) (menu valid : bool) (config0 : AIConfig)
    (index : Z) (g1 : Globals) (s1 : list byte) :
  let d := fst (record_delta v menu valid config0 index g1 s1) in
  (valid = false -> d_cfgs d = [] /\ forallb is_debug (d_events d) = true)
  /\ (menu = true -> Forall (fun e => e = CallLoadEmpty) (d_events d)).
Proof.
  cbv zeta. unfold record_delta. cbv zeta.
  pose proof (AIPL_configure_debug g1 config0) as Hdbg.
  destruct (AIPL_configure g1 config0) as [config es]. cbn [snd] in Hdbg.
  destruct menu, valid; cbn [negb fst d_cfgs d_events];
    (split; [intros Hv|intros Hm]); try discriminate;
    try (split; [reflexivity|]); try assumption; try reflexivity;
    try constructor.
  destruct (SlObject_load SL_MAX_STRING v _ai_running_desc g1 s1)
    as [g2 [s2|m]]; repeat constructor.
Qed.

Lemma AIPL_Load_record_events (slt : list (SaveLoad Globals)) (index : Z)
    (w : World) (s : list byte) :
  exists d : Delta,
    fst (AIPL_Load_record slt index w s) = apply_delta d w
    /\ (IsValidAiID w index = false ->
        d_cfgs d = [] /\ forallb is_debug (d_events d) = true)
    /\ (menu_or_client w = true ->
        Forall (fun e => e = CallLoadEmpty) (d_events d)).
Proof.
  rewrite AIPL_Load_record_delta.
  destruct (SlObject_load SL_MAX_STRING (_sl_version w) slt
              (set_version (-1) (set_is_random false (globals w))) s)
    as [g1 [s1|m]].
  - pose proof (record_delta_events (_sl_version w) (menu_or_client w)
                  (IsValidAiID w index) (GetConfig_FORCE_GAME w index)
                  index g1 s1) as He.
    cbv zeta in He. unfold menu_or_client in *.
    destruct (record_delta (_sl_version w) _ (IsValidAiID w index)
                (GetConfig_FORCE_GAME w index) index g1 s1) as [d r].
    exists d. cbn [fst] in *. split; [reflexivity|exact He].
  - exists (mkDelta (Some g1) [] [] []). cbn [fst d_cfgs d_events].
    split; [world_eq|]. split; intros _; [now split|constructor].
Qed.

Lemma AIPL_Load_loop_events (fuel : nat) (slt : list (SaveLoad Globals))
    (w w' : World) (s : list byte) (r : SlResult (list byte)) :
  AIPL_Load_loop fuel slt w s = Some (w', r) ->
  exists d : Delta,
    w' = apply_delta d w
    /\ ((forall k, 0 <= k < MAX_COMPANIES -> IsValidAiID w k = false) ->
        d_cfgs d = [] /\ forallb is_debug (d_events d) = true)
    /\ (menu_or_client w = true ->
        Forall (fun e => e = CallLoadEmpty) (d_events d)).
Proof.
  assert (Hnone : forall w0 : World, exists d : Delta,
             w0 = apply_delta d w0
             /\ ((forall k, 0 <= k < MAX_COMPANIES ->
                            IsValidAiID w0 k = false) ->
                 d_cfgs d = [] /\ forallb is_debug (d_events d) = true)
             /\ (menu_or_client w0 = true ->
                 Forall (fun e => e = CallLoadEmpty) (d_events d))).
  { intros w0. exists (mkDelta None [] [] []).
    split; [symmetry; world_eq|].
    split; intros _; [now split|constructor]. }
  revert w s. induction fuel as [|fuel IH]; intros w s Hloop; [discriminate|].
  cbn [AIPL_Load_loop] in Hloop.
  destruct (SlIterateArray s) as [[[raw body] s1]|m] eqn:Eit.
  2:{ injection Hloop as <- _. apply Hnone. }
  cbv zeta in Hloop.
  pose proof (to_CompanyID_range raw) as Hidx.
  set (index := to_CompanyID raw) in *.
  destruct (Z.eqb_spec index (to_CompanyID (-1))) as [Heq|Hne].
  { injection Hloop as <- _. apply Hnone. }
  destruct (Z.geb_spec index MAX_COMPANIES) as [Hge|Hlt].
  { injection Hloop as <- _. apply Hnone. }
  destruct (AIPL_Load_record_events slt index w body) as (d1 & E1 & Hv1 & Hm1).
  assert (Hv1' : (forall k, 0 <= k < MAX_COMPANIES -> IsValidAiID w k = false)
                 -> d_cfgs d1 = [] /\ forallb is_debug (d_events d1) = true).
  { intros Hall. apply Hv1, Hall. lia. }
  destruct (AIPL_Load_record slt index w body) as [w1 [r1|m]] eqn:Erec;
    cbn [fst] in E1; subst w1.
  - destruct (IH _ _ Hloop) as (d2 & -> & Hv2 & Hm2).
    exists (delta_app d1 d2). rewrite apply_delta_app.
    cbn [delta_app d_cfgs d_events].
    split; [reflexivity|]. split.
    + intros Hall. destruct (Hv1' Hall) as [Ec1 Ee1].
      destruct Hv2 as [Ec2 Ee2].
      { intros k Hk. unfold IsValidAiID. cbn [companies apply_delta].
        rewrite Ec1. cbn [apply_cfgs foldl]. now apply Hall. }
      rewrite Ec1, Ec2, forallb_app, Ee1, Ee2. now split.
    + intros Hmenu. apply Forall_app. split; [now apply Hm1|now apply Hm2].
  - injection Hloop as <- _. exists d1.
    split; [reflexivity|]. split; assumption.
Qed.
End LoadCalls.

(** X10. [Load] hands saved data to no script when no company is run by an
    AI: the companies are as they were, and everything [Load] adds to the
    log is a line of the log, neither [AIInstance::Load] nor
    [AIInstance::LoadEmpty] being called. *)
Theorem AIPL_Load_no_script_calls `{Externals} (w : World) (s : list byte) :
  (forall k, 0 <= k < MAX_COMPANIES -> IsValidAiID w k = false) ->
  companies (fst (AIPL_Load w s)) = companies w
  /\ exists es, events (fst (AIPL_Load w s)) = events w ++ es
                /\ forallb is_debug es = true.
Proof.
  intros Hall. unfold AIPL_Load.
  destruct (SlCompatTableHeader SL_MAX_STRING SL_MAX_VERSION _ai_company_desc
              _ai_company_sl_compat s) as [[slt s1]|m].
  2:{ cbn [fst]. split; [reflexivity|]. exists []. now rewrite app_nil_r. }
  destruct (AIPL_Load_loop_total (S (length s1)) slt (AIPL_clear w) s1)
    as [[w' r] E]; [lia|].
  rewrite E. cbn [default from_option id fst].
  destruct (AIPL_Load_loop_events _ _ _ _ _ _ E) as (d & -> & Hv & _).
  pose proof (AIPL_clear_fold (seqZ 0 MAX_COMPANIES) w)
    as (_ & _ & _ & _ & _ & Hco & Hev & _).
  cbv zeta in Hco, Hev. fold (AIPL_clear w) in Hco, Hev.
  destruct Hv as [Ec Ee].
  { intros k Hk. unfold IsValidAiID. rewrite Hco. now apply Hall. }
  cbn [companies events apply_delta]. rewrite Ec, Hco, Hev.
  split; [reflexivity|]. now exists (d_events d).
Qed.

Lemma AIPL_Load_no_script_calls_witness :
  companies (fst (@AIPL_Load example_externals example_fresh_world
                    example_saved_chunk))
  = companies example_fresh_world
  /\ exists es,
       events (fst (@AIPL_Load example_externals example_fresh_world
                      example_saved_chunk))
       = events example_fresh_world ++ es
       /\ forallb is_debug es = true.
Proof.
  apply (@AIPL_Load_no_script_calls example_externals example_fresh_world
           example_saved_chunk).
  intros k _. reflexivity.
Defined.

(** X11. In the menu, and on a client of a network game, [Load] writes no
    line to the log and never calls [AIInstance::Load]: all it adds to the
    log of calls is [AIInstance::LoadEmpty]. *)
Theorem AIPL_Load_menu_silent `{Externals} (w : World) (s : list byte) :
  menu_or_client w = true ->
  exists es, events (fst (AIPL_Load w s)) = events w ++ es
             /\ Forall (fun e => e = CallLoadEmpty) es.
Proof.
  intros Hmenu. unfold AIPL_Load.
  destruct (SlCompatTableHeader SL_MAX_STRING SL_MAX_VERSION _ai_company_desc
              _ai_company_sl_compat s) as [[slt s1]|m].
  2:{ cbn [fst]. exists []. rewrite app_nil_r. split; [reflexivity|constructor]. }
  destruct (AIPL_Load_loop_total (S (length s1)) slt (AIPL_clear w) s1)
    as [[w' r] E]; [lia|].
  rewrite E. cbn [default from_option id fst].
  destruct (AIPL_Load_loop_events _ _ _ _ _ _ E) as (d & -> & _ & Hm).
  pose proof (AIPL_clear_fold (seqZ 0 MAX_COMPANIES) w)
    as (_ & _ & Hgm & Hnw & Hns & _ & Hev & _).
  cbv zeta in Hgm, Hnw, Hns, Hev. fold (AIPL_clear w) in Hgm, Hnw, Hns, Hev.
  cbn [events apply_delta]. rewrite Hev. exists (d_events d).
  split; [reflexivity|]. apply Hm.
  unfold menu_or_client in *. now rewrite Hgm, Hnw, Hns.
Qed.

Lemma AIPL_Load_menu_silent_witness :
  exists es,
    events (fst (@AIPL_Load example_externals example_menu_world
                   example_good_chunk))
    = events example_menu_world ++ es
    /\ Forall (fun e => e = CallLoadEmpty) es.
Proof.
  apply (@AIPL_Load_menu_silent example_externals example_menu_world
           example_good_chunk).
  reflexivity.
Defined.

(** X12. Saving twice writes the same bytes: the world [Save] leaves differs
    from the one it found in the staged name, version and settings only,
    and those it sets again before it writes them. *)
Theorem AIPL_Save_twice `{Externals} (w : World) :
  snd (AIPL_Save (fst (AIPL_Save w))) = snd (AIPL_Save w).
Proof.
  assert (Hfst : exists g, fst (AIPL_Save w) = with_globals g w
                           /\ _ai_saveload_is_random g
                              = _ai_saveload_is_random (globals w)).
  { unfold AIPL_Save.
    destruct (SlTableHeader SL_MAX_STRING _ai_company_desc).
    - destruct (AIPL_Save_loop_fst (Z.to_nat MAX_COMPANIES) 0 w)
        as (g & E & Hr).
      destruct (AIPL_Save_loop (Z.to_nat MAX_COMPANIES) 0 w) as [w' [bs|m]];
        cbn [fst] in *; now exists g.
    - exists (globals w). split; [cbn [fst]; symmetry; world_eq|reflexivity]. }
  destruct Hfst as (g & -> & Hr).
  unfold AIPL_Save.
  destruct (SlTableHeader SL_MAX_STRING _ai_company_desc); [|reflexivity].
  pose proof (AIPL_Save_loop_staging (Z.to_nat MAX_COMPANIES) 0 w g Hr) as E.
  destruct (AIPL_Save_loop (Z.to_nat MAX_COMPANIES) 0 (with_globals g w))
    as [w1 [b1|m1]];
    destruct (AIPL_Save_loop (Z.to_nat MAX_COMPANIES) 0 w) as [w2 [b2|m2]];
    cbn [snd] in *; congruence.
Qed.

(** ** Saving a running AI and loading it back *)

Section RunningRoundTrip.
Context `{Externals}.

Lemma ai_running_desc_wf : table_wf _ai_running_desc.
Proof.
  unfold _ai_running_desc. cbn [table_wf].
  repeat split; repeat constructor; intros x r; reflexivity.
Qed.

Lemma ai_running_desc_populated (v : Z) (g : Globals) :
  - 2 ^ 31 <= _ai_saveload_version g < 2 ^ 31 ->
  populated v _ai_running_desc g.
Proof.
  intros Hint. unfold populated, _ai_running_desc.
  repeat constructor; intros _ r0; try reflexivity.
  cbn. apply (to_signed_mod 4). cbn. lia.
Qed.

(** The fields of a running script, written at a version that has them and
    read back at the same version. *)
Lemma running_record_load_save (v : Z) (g g0 : Globals) (bs rest : list byte) :
  SL_MAX_STRING < 256 ^ 4 ->
  SLV_AI_LOCAL_CONFIG <= v <= SL_MAX_VERSION ->
  - 2 ^ 31 <= _ai_saveload_version g < 2 ^ 31 ->
  SlObject_save SL_MAX_STRING v _ai_running_desc g = SlOk bs ->
  SlObject_load SL_MAX_STRING v _ai_running_desc g0 (bs ++ rest)
  = (mkGlobals (_ai_saveload_name g) (_ai_saveload_version g)
               (_ai_saveload_settings g) (_ai_saveload_is_random g0),
     SlOk rest).
Proof.
  intros Hmax Hv Hint Hsave.
  destruct (SlObject_load_save SL_MAX_STRING v _ai_running_desc g g0 bs rest
              Hmax ai_running_desc_wf (ai_running_desc_populated v g Hint)
              Hsave) as (g' & E & Hf).
  pose proof (running_load_is_random v g0 (bs ++ rest)) as Hr.
  rewrite E in Hr |- *. cbn [fst] in Hr. f_equal.
  assert (Hact : (SLV_AI_LOCAL_CONFIG <=? v) && (v <=? SL_MAX_VERSION) = true).
  { apply andb_true_iff. rewrite !Z.leb_le. lia. }
  apply Globals_eq; cbn [_ai_saveload_name _ai_saveload_version
                         _ai_saveload_settings _ai_saveload_is_random].
  - specialize (Hf (SLEG_CONDSSTR "running_name" ref_name SLV_AI_LOCAL_CONFIG
                                  SL_MAX_VERSION)).
    unfold SlIsObjectValidInSavegame in Hf.
    cbn [version_from version_to SLEG_CONDSSTR] in Hf.
    rewrite Hact in Hf. apply Hf. unfold _ai_running_desc.
    apply list_elem_of_here.
  - specialize (Hf (SLEG_CONDVAR "running_version" SLE_UINT32 ref_version
                                 SLV_AI_LOCAL_CONFIG SL_MAX_VERSION)).
    unfold SlIsObjectValidInSavegame in Hf.
    cbn [version_from version_to SLEG_CONDVAR] in Hf.
    rewrite Hact in Hf. apply Hf. unfold _ai_running_desc.
    apply list_elem_of_further, list_elem_of_further, list_elem_of_here.
  - specialize (Hf (SLEG_CONDSSTR "running_settings" ref_settings
                                  SLV_AI_LOCAL_CONFIG SL_MAX_VERSION)).
    unfold SlIsObjectValidInSavegame in Hf.
    cbn [version_from version_to SLEG_CONDSSTR] in Hf.
    rewrite Hact in Hf. apply Hf. unfold _ai_running_desc.
    apply list_elem_of_further, list_elem_of_here.
  - exact Hr.
Qed.

(** For a company that is a running AI, [SaveReal_AIPL] writes the company
    fields of the slot, the fields of the configuration the company owns,
    and what [AI::Save] writes, in this order. *)
Lemma SaveReal_AIPL_ai (index : Z) (w w1 : World) (body : list byte) :
  IsValidAiID w index = true ->
  SaveReal_AIPL index w = (w1, SlOk body) ->
  exists bs1 bs2 : list byte,
    SlObject_save SL_MAX_STRING (_sl_version w) _ai_company_desc
      (staged_slot (GetConfig_FORCE_GAME w index) (globals w)) = SlOk bs1
    /\ SlObject_save SL_MAX_STRING (_sl_version w) _ai_running_desc
         (mkGlobals (GetName (GetConfig w index))
                    (to_signed 4 (GetVersion (GetConfig w index)))
                    (SettingsToString (GetConfig w index))
                    (_ai_saveload_is_random (globals w))) = SlOk bs2
    /\ body = bs1 ++ bs2 ++ AI_Save index.
Proof.
  intros Hai. unfold SaveReal_AIPL. cbv zeta.
  assert (Hg : set_settings (SettingsToString (GetConfig_FORCE_GAME w index))
                 (if HasScript (GetConfig_FORCE_GAME w index)
                  then set_version (GetVersion (GetConfig_FORCE_GAME w index))
                         (set_name (GetName (GetConfig_FORCE_GAME w index))
                                   (globals w))
                  else set_version (-1) (set_name EmptyString (globals w)))
               = staged_slot (GetConfig_FORCE_GAME w index) (globals w)).
  { unfold staged_slot.
    now destruct (HasScript (GetConfig_FORCE_GAME w index)). }
  rewrite Hg. unfold SlObject_globals_save.
  cbn [globals _sl_version with_globals].
  change (IsValidAiID (with_globals _ w) index) with (IsValidAiID w index).
  rewrite Hai. cbn [negb].
  destruct (SlObject_save SL_MAX_STRING (_sl_version w) _ai_company_desc _)
    as [bs1|m]; [|discriminate].
  change (GetConfig (with_globals _ w) index) with (GetConfig w index).
  unfold set_settings, set_version, set_name, staged_slot.
  cbn [_ai_saveload_name _ai_saveload_version _ai_saveload_settings
       _ai_saveload_is_random].
  destruct (SlObject_save SL_MAX_STRING (_sl_version w) _ai_running_desc _)
    as [bs2|m]; [|discriminate].
  intros E. exists bs1, bs2. split; [reflexivity|]. split; [reflexivity|].
  congruence.
Qed.

Lemma to_signed_int (x : Z) :
  - 2 ^ 31 <= x < 2 ^ 31 -> to_signed 4 x = x.
Proof.
  intros Hx. rewrite <- (to_signed_mod 4 x) at 2 by (cbn; lia).
  unfold to_signed. cbv zeta. now rewrite Z.mod_mod by (cbn; lia).
Qed.

Lemma to_signed_range (x : Z) : - 2 ^ 31 <= to_signed 4 x < 2 ^ 31.
Proof.
  pose proof (Z.mod_pos_bound x (256 ^ Z.of_nat 4) ltac:(cbn; lia)) as Hb.
  unfold to_signed. cbv zeta.
  destruct (_ <? _) eqn:E; [apply Z.ltb_lt in E|apply Z.ltb_ge in E];
    cbn in *; lia.
Qed.
End RunningRoundTrip.

(** X13. A running AI survives [SaveReal_AIPL] and the body of the loop of
    [Load]. At a version of the format that has the fields of a running
    script, for a company run by an AI whose script the registry has, the
    record written for the company is read outside the menu so that
    [AIInstance::Load] receives the version of the script that was saved and
    exactly the bytes [AI::Save] wrote, and the company gets the same script
    and settings, with the data [AIInstance::Load] returned to load. *)
Theorem running_save_load `{Externals} (index : Z) (w w1 w' : World)
    (body : list byte) (co co' : Company) (c : AIConfig) :
  SL_MAX_STRING < 256 ^ 4 ->
  SLV_108 <= _sl_version w ->
  SLV_AI_LOCAL_CONFIG <= _sl_version w <= SL_MAX_VERSION ->
  companies w !! index = Some co ->
  is_ai co = true ->
  ai_config co = Some c ->
  HasScript c = true ->
  registered c ->
  SaveReal_AIPL index w = (w1, SlOk body) ->
  _sl_version w' = _sl_version w ->
  menu_or_client w' = false ->
  companies w' !! index = Some co' ->
  is_ai co' = true ->
  snd (AIPL_Load_record _ai_company_desc index w' body)
  = match AIInstance_Load (cfg_version c) (AI_Save index) with
    | SlOk (_, s3) => SlOk s3
    | SlErrorCorrupt m => SlErrorCorrupt m
    end
  /\ exists c', companies (fst (AIPL_Load_record _ai_company_desc index w' body))
                !! index = Some (mkCompany true (Some c'))
                /\ cfg_info c' = cfg_info c
                /\ cfg_settings c' = cfg_settings c
                /\ cfg_to_load_data c'
                   = match AIInstance_Load (cfg_version c) (AI_Save index) with
                     | SlOk (data, _) => data
                     | SlErrorCorrupt _ => None
                     end.
Proof.
  intros Hmax H108 Hv Hco Hai Hcfg Hhas Hreg Hsave Hver Hmenu Hco' Hai'.
  assert (Hvalid : IsValidAiID w index = true)
    by (unfold IsValidAiID; now rewrite Hco).
  assert (Hget : GetConfig w index = c)
    by (unfold GetConfig; now rewrite Hco, Hcfg).
  destruct (SaveReal_AIPL_ai index w w1 body Hvalid Hsave)
    as (bs1 & bs2 & Hs1 & Hs2 & ->).
  rewrite Hget in Hs2.
  unfold registered in Hreg. unfold HasScript in Hhas.
  destruct (cfg_info c) as [i|] eqn:Ei; [|discriminate].
  destruct Hreg as (_ & Hfind & Hiv & Hcv).
  unfold GetName, GetVersion, SettingsToString in Hs2.
  rewrite (to_signed_int _ Hcv) in Hs2.
  assert (Hint : - 2 ^ 31
                 <= _ai_saveload_version
                      (staged_slot (GetConfig_FORCE_GAME w index) (globals w))
                 < 2 ^ 31) by apply to_signed_range.
  pose proof (company_record_load_save (_sl_version w) _
                (set_version (-1) (set_is_random false (globals w')))
                bs1 (bs2 ++ AI_Save index) Hmax
                (conj H108 (proj2 Hv)) Hint Hs1) as Hload.
  match type of Hload with
  | _ = (?g, _) => set (g1 := g) in Hload
  end.
  pose proof (running_record_load_save (_sl_version w)
                (mkGlobals (cfg_name c) (cfg_version c) (cfg_settings c)
                           (_ai_saveload_is_random (globals w)))
                g1 bs2 (AI_Save index) Hmax Hv Hcv Hs2) as Hrun.
  cbn [_ai_saveload_name _ai_saveload_version _ai_saveload_settings] in Hrun.
  match type of Hrun with
  | _ = (?g, _) => set (g2 := g) in Hrun
  end.
  rewrite <- Hver in Hload, Hrun.
  pose proof (running_record_facts _ai_company_desc index w' _ _ _ g1 g2 co'
                Hload Hmenu Hco' Hai' Hrun) as Hout.
  cbv zeta in Hout.
  change (_ai_saveload_name g2) with (cfg_name c) in Hout.
  change (_ai_saveload_version g2) with (cfg_version c) in Hout.
  change (_ai_saveload_settings g2) with (cfg_settings c) in Hout.
  rewrite Hfind in Hout.
  destruct Hout as (Hres & _ & _ & c' & Hc' & Hinfo & Hset & Hdata).
  split; [exact Hres|]. exists c'. now repeat split.
Qed.

Lemma running_save_load_witness :
  snd (@AIPL_Load_record example_externals
         (@_ai_company_desc example_externals) 1 example_new_world
         example_running_slot_record)
  = match @AIInstance_Load example_externals 25
            (@AI_Save example_externals 1) with
    | SlOk (_, s3) => SlOk s3
    | SlErrorCorrupt m => SlErrorCorrupt m
    end
  /\ exists c',
       companies (fst (@AIPL_Load_record example_externals
                         (@_ai_company_desc example_externals) 1
                         example_new_world example_running_slot_record))
       !! 1 = Some (mkCompany true (Some c'))
       /\ cfg_info c' = Some (mkScriptInfo "AdmiralAI" 25)
       /\ cfg_settings c' = "speed=3"%string
       /\ cfg_to_load_data c'
          = match @AIInstance_Load example_externals 25
                    (@AI_Save example_externals 1) with
            | SlOk (data, _) => data
            | SlErrorCorrupt _ => None
            end.
Proof.
  apply (@running_save_load example_externals 1 example_running_world
           (fst (@SaveReal_AIPL example_externals 1 example_running_world))
           example_new_world example_running_slot_record
           (mkCompany true
              (Some (mkAIConfig "AdmiralAI" 25
                                (Some (mkScriptInfo "AdmiralAI" 25))
                                "speed=3" None)))
           (mkCompany true None)
           (mkAIConfig "AdmiralAI" 25 (Some (mkScriptInfo "AdmiralAI" 25))
                       "speed=3" None)).
  - simpl. lia.
  - vm_compute. discriminate.
  - vm_compute. split; discriminate.
  - reflexivity.
  - reflexivity.
  - reflexivity.
  - reflexivity.
  - vm_compute. repeat split; discriminate.
  - vm_compute. reflexivity.
  - reflexivity.
  - reflexivity.
  - reflexivity.
  - reflexivity.
Defined.

(** X14. A save older than version 108 has no version of the script in its
    records, so outside the menu the slot of a named script gets the latest
    version the registry has of the name, whatever version a record before
    it staged; the record is marked random by no field either. *)
Theorem old_save_gets_latest `{Externals} (slt : list (SaveLoad Globals))
    (index : Z) (w : World) (s s1 : list byte) (g1 : Globals) :
  Forall (fun sld => sld ∈ _ai_company_desc
                     \/ exists n t, sld = SL_NULL SL_MAX_VERSION n t) slt ->
  _sl_version w < SLV_108 ->
  SlObject_load SL_MAX_STRING (_sl_version w) slt
    (set_version (-1) (set_is_random false (globals w))) s = (g1, SlOk s1) ->
  menu_or_client w = false ->
  exists c : AIConfig,
    game_ai_config (fst (AIPL_Load_record slt index w s)) !! index = Some c
    /\ cfg_info c
       = (if bool_decide (_ai_saveload_name g1 = EmptyString) then None
          else FindInfo (_ai_saveload_name g1) (-1) false).
Proof.
  intros Hmem Hold Hload Hmenu.
  assert (Hv1 : _ai_saveload_version g1 = -1).
  { pose proof (company_load_version (_sl_version w) slt
                  (set_version (-1) (set_is_random false (globals w))) s Hmem)
      as Hv.
    rewrite Hload in Hv. cbn [fst] in Hv. rewrite Hv; [reflexivity|lia]. }
  assert (Hr1 : _ai_saveload_is_random g1 = false).
  { pose proof (company_load_is_random (_sl_version w) slt
                  (set_version (-1) (set_is_random false (globals w))) s Hmem)
      as Hr.
    rewrite Hload in Hr. cbn [fst] in Hr. rewrite Hr; [reflexivity|].
    unfold SLV_136, SLV_108 in *. lia. }
  rewrite AIPL_Load_record_delta, Hload.
  unfold menu_or_client in Hmenu. rewrite Hmenu.
  pose proof (record_delta_slots (_sl_version w) (IsValidAiID w index)
                (GetConfig_FORCE_GAME w index) index g1 s1) as Hs.
  destruct (record_delta (_sl_version w) false (IsValidAiID w index)
              (GetConfig_FORCE_GAME w index) index g1 s1) as [d r].
  cbn [fst] in *. cbn [game_ai_config apply_delta]. rewrite Hs.
  cbn [set_slots foldl fst snd]. rewrite lookup_insert_eq.
  eexists. split; [reflexivity|].
  cbn [cfg_info StringToSettings].
  rewrite AIPL_configure_info, Hv1, Hr1, orb_false_r.
  destruct (bool_decide (_ai_saveload_name g1 = EmptyString)); [reflexivity|].
  now destruct (FindInfo (_ai_saveload_name g1) (-1) false).
Qed.

Lemma old_save_gets_latest_witness :
  exists c : AIConfig,
    game_ai_config
      (fst (@AIPL_Load_record example_externals
              (@_ai_company_desc example_externals) 0 example_old_world
              example_old_record)) !! 0 = Some c
    /\ cfg_info c
       = (if bool_decide (_ai_saveload_name example_old_globals = EmptyString)
          then None
          else @FindInfo example_externals
                 (_ai_saveload_name example_old_globals) (-1) false).
Proof.
  apply (@old_save_gets_latest example_externals
           (@_ai_company_desc example_externals) 0 example_old_world
           example_old_record [] example_old_globals).
  - apply Forall_forall. intros sld Hin. left. exact Hin.
  - vm_compute. reflexivity.
  - vm_compute. reflexivity.
  - reflexivity.
Defined.

(** X15. A record whose company fields cannot be read stops [Load] with the
    error of the read: no slot and no company is configured for it, nothing
    is written to the log, and the records after it are not looked at; only
    the staging variables hold what was read before the error. *)
Theorem unreadable_record_stops_load `{Externals} (fuel : nat)
    (slt : list (SaveLoad Globals)) (w : World) (s : list byte) (index : Z)
    (body s' : list byte) (g1 : Globals) (m : string) :
  SlIterateArray s = SlOk (index, body, s') ->
  index <> -1 ->
  index < MAX_COMPANIES ->
  SlObject_load SL_MAX_STRING (_sl_version w) slt
    (set_version (-1) (set_is_random false (globals w))) body
  = (g1, SlErrorCorrupt m) ->
  AIPL_Load_loop (S fuel) slt w s
  = Some (with_globals g1 w, SlErrorCorrupt m).
Proof.
  intros Hit Hne Hlt Hload. cbn [AIPL_Load_loop]. rewrite Hit. cbv zeta.
  destruct (SlIterateArray_index _ _ _ _ Hit) as [Hend|Hpos];
    [contradiction|].
  destruct (to_CompanyID_company index) as [Ei Hcast]; [lia|]. rewrite Ei.
  destruct (Z.eqb_spec index (to_CompanyID (-1))); [congruence|].
  destruct (Z.geb_spec index MAX_COMPANIES); [lia|].
  now rewrite AIPL_Load_record_delta, Hload.
Qed.

Lemma unreadable_record_stops_load_witness :
  @AIPL_Load_loop example_externals 2 (@_ai_company_desc example_externals)
    example_world
    (SlSetArrayIndex 1 ++ SlAutolength (SlWriteUint 4 7)
     ++ SlWriteUint 4 SL_ARRAY_END)
  = Some (with_globals (mkGlobals "stale" (-1) "old" false) example_world,
          SlErrorCorrupt "read past the declared length").
Proof.
  apply (@unreadable_record_stops_load example_externals 1
           (@_ai_company_desc example_externals) example_world
           (SlSetArrayIndex 1 ++ SlAutolength (SlWriteUint 4 7)
            ++ SlWriteUint 4 SL_ARRAY_END)
           1 (SlWriteUint 4 7) (SlWriteUint 4 SL_ARRAY_END)).
  - vm_compute. reflexivity.
  - discriminate.
  - simpl. lia.
  - vm_compute. reflexivity.
Defined.
